(* ===== verification/_CoqProject ===== *)
-Q . S2P
Prelude.v
Utf8.v
PyStr.v
History.v
Fs.v
Page.v
Handler.v
Threads.v
Server.v
System.v
App.v
