(* ===== verification/Prelude.v ===== *)
(** * A verification development of EvilSoboL/WebServer

    The program is a small HTTP/1.1 server on raw sockets, [class
    HTTPServer] of src/server.py, and a separate Flask page, src/app.py.
    The parts of the server and how they interact:

    - the listener ([create_server_socket], [start], lines 16-34 and
      259-283) binds and listens, then loops on [accept()] and starts one
      thread per connection running [handle_client]; [KeyboardInterrupt]
      ends the loop, a [finally] block closes the listening socket;
    - the connection handler ([handle_client], 36-130) reads one chunk of
      at most 1024 bytes, decodes it as UTF-8, parses the request line,
      routes it (favicon, non-GET 405, [GET /] index page,
      [GET /static/reports/...] PDF), writes the response, records the
      exchange in the shared history and closes the socket in [finally];
    - the history recorder ([add_to_request_history], 132-148) keeps the
      last 50 request/response pairs in the list shared by all threads;
    - the report reader ([serve_pdf], [list_reports], 150-167) reads the
      file system;
    - the page builder ([create_group_page], 169-257) renders the reports
      and the history, newest first, HTML-escaped;
    - the script (lines 286-290) builds the server, lists the reports once
      and calls [start].

    The Python library functions the code calls ([bytes.decode],
    [str.encode], [str.split], [str.strip], [str.lstrip], [startswith],
    [endswith], [urllib.parse.unquote], [html.escape], [sorted],
    [os.path.join]) are modelled as CPython implements them, since their
    behaviour decides what the server does on malformed or hostile input.
    [open] and [os.listdir] are an interface with laws ([Fs.FileSystem]).

    Files, in dependency order (verification/_CoqProject):

    - [Prelude] (this file): [str] and [bytes] as lists of [Z] (code
      points, byte values); the exceptions the program meets ([pyexc]),
      with the classes [except ValueError] and [except Exception] select;
      the result type [res] and the state-and-exception monad [PY S] with
      stdpp's monad notation, [try]/[except] ([py_try]) and [finally]
      ([py_finally]) keeping the effects done before an exception; two
      program logics on [PY]: [preserves] (an invariant of the state on
      every exit) and [raises_only] (the exceptions that can escape), with
      the tactics [preserves_split] and [raises_split]; the hint
      databases [pyweb] and [pyweb_rw]; list lemmas ([lastn], counting,
      sortedness, [omap]) and [Z] tactics ([zlia], [zbool]).
    - [Utf8] (Module [Utf8]): CPython's UTF-8 encoder, bit for bit, and
      decoder with the "strict" and "replace" error handlers and
      CPython's maximal-subpart error ranges.  Theorems: the decoder
      inverts the encoder, "replace" agrees with "strict" where strict
      succeeds and never fails, decoded strings hold scalar values only,
      encoding fails exactly on surrogates, and the byte length of an
      encoding.
    - [PyStr] (Module [PyStr]): the [str] operations and [html.escape]
      (five successive [replace] calls), [unquote] with its ASCII runs and
      [unquote_to_bytes], [str(n)], the order of [sorted].  Theorems:
      [html.escape] is one table substitution and injective; [strip()]
      does not change the words of [split()]; [split()] inverts joining
      with spaces; [unquote] inverts percent-encoding; [sorted] is
      independent of the order of its input.
    - [History] (Module [History]): [Sequential.add_to_request_history]
      and its refinement of the abstract history "the last 50 exchanges"
      ([spec_history]); [Concurrent], the statements of the method alone
      run by several threads without a lock, as a step relation [cstep]
      with an executable step function [cstep_fn] equal to it: the bound
      becomes [49 + N]; [Locked], the same threads with the method
      atomic: the bound 50 holds.
    - [Fs] (Module [Fs]): [Class FileSystem] ([open(...).read()],
      [os.listdir], both raising only [OSError]s), [os.path.join],
      [serve_pdf], [list_reports]; [Fs.Tree], an instance by a [gmap] from
      absolute paths to nodes with POSIX path resolution, and the demo
      trees the examples use.  Theorems: [list_reports] is the sorted,
      duplicate-free list of the ".pdf" entries; without "..", a served
      file lies under the reports directory; with "..", it need not.
    - [Page] (Module [Page]): the page templates character for character,
      [create_group_page].  Theorems: a history entry adds exactly the
      markup of an empty block whatever it holds; the page is longer in
      bytes than in characters; report names reach it unescaped.
    - [Handler] (Module [Handler]): [handle_client] in the monad over the
      client socket, the shared history and the log of caught exceptions,
      against any [FileSystem].  Theorems: one per route of the router,
      giving the bytes sent, the history and the log; the socket is
      closed exactly once on every path; bytes after the first 1024 are
      ignored; the order of recording and sending, shown by what a
      client that has gone leaves behind (200, 404 and 405 are recorded
      before they are sent, 400 after; favicon requests are never
      recorded); the [Content-Length] of the index page; on every file
      system, the link of a percent-named report leads to another file.  Examples run the handler on the
      demo tree.
    - [Threads] (Module [Threads]): whole handler threads interleaved on
      the shared history.  A thread is a program ([tprog]) whose nodes are
      its accesses to [self.request_history] (the length and each item
      read by the reverse iterator of line 195, the length test,
      [pop(0)] and [append] of lines 138-142) and whose
      leaves hold its result, socket and log; [TM] is the monad of such
      programs, [handle_client_t] is [handle_client] written in it
      statement by statement, [tstep] runs any thread's next access.
      Two program logics over threads: [twp_app]/[tsafe_app] (every leaf,
      and every entry appended, for any answers of the history; [twp] and
      [tsafe] when only leaves matter) and [bwp]/[bsafe] (budgets:
      entries added and accesses made).  Theorems: alone, a thread is exactly
      [handle_client] ([handle_client_t_seq], by a simulation [sim]);
      in every interleaving a finished thread has closed its socket once,
      the history grows by at most one entry per thread, every schedule
      is finite and none deadlocks; a GET / handler interleaved with a
      POST handler sends a page showing one exchange twice; 51 POST
      handlers on a full history make one of them lose its response to
      the [IndexError] of [pop(0)].
    - [Server] (Module [Server]): [create_server_socket] and [start]; the
      main thread as a state machine ([step], [run]) driven by the answers
      of [accept()], and the listener's contract of the spec as an
      abstract machine labelled by those answers ([spec_step]).
      Theorems: the main thread refines the contract (through [abs], each
      answer is the contract's move on it); the loop serves every
      connection in order,
      stops on [KeyboardInterrupt] or an [OSError] of [accept()] after
      closing the listening socket exactly once, and [exit(1)] when [bind]
      fails.
    - [System] (Module [System]): the whole server, the main thread and
      the handler threads it starts ([sys], [sys_step]: the scheduler
      picks the main thread, which runs [Server.step] on the next answer
      of [accept()] and adds the thread it started, or one handler's next
      access).  Theorems over every interleaving: the main thread is
      [Server.run] with one handler per connection; finished handlers
      closed their sockets once; the history holds at most one entry per
      accepted connection, each entry records the decoded request of an
      accepted connection and none a [/favicon.ico] request
      ([sys_recorded]), and the history is always a suffix of the
      exchanges appended so far, in order ([sys_log]: FIFO despite the
      race); a schedule on [n] answers has at most
      [(5 + n) n] steps and none deadlocks (no node of the model
      blocks: [recv] and [sendall] return at once, see below); and one schedule from the empty history
      ends with 51 entries.  Also [serve_in_order], the schedule in which
      handlers do not overlap (the history stays within 50), and the
      script of lines 286-290 ([main]), which does what [start] does
      exactly when [list_reports()] returns, and otherwise ends before
      creating any socket.
    - [App] (Module [App]): the Flask view [index()], the [render_template]
      call it returns as a value and its rule "/"; [REPORTS_FOLDER]; its
      list against [list_reports] for every answer of [os.listdir]
      (directory order against sorted; [FileNotFoundError] against no
      report).

    Bounds and widths: bytes are [Z] values in [0, 256), code points [Z]
    values in [0, 0x110000); the numeric bounds of the code (the
    1024-byte [recv], the capacity 50, the backlog 5) are kept literally.
    No definition uses fuel: all recursion is structural (the decoder on
    its input, path resolution on the components, the accept loop on the
    list of answers of [accept()]; an unfinished list means the loop is
    still waiting in [accept()]; the schedulers [run_tsched] and
    [run_sys] on the list of threads to step).  That the threads end is
    a theorem, not a bound chosen: each handler makes at most [4 + L]
    accesses to the history, [L] a bound on its length (the length and
    [L] items for the page, three for [add_to_request_history]), so a
    schedule of the whole server on [n] answers has at most [(5 + n) n]
    steps.

    Not modelled: printing to standard output (it changes no state the
    program reads); Flask itself (routing, [render_template], [app.run])
    and its template [index.html], which is not in the repository; the
    operating system's scheduler beyond the choice of the next thread at
    each access to the history: each list operation is atomic under
    CPython's global interpreter lock, and a thread's own statements
    between two accesses touch no shared state, so finer interleavings
    give the same results; symbolic links and permissions of the file
    system; partial reads and writes of sockets ([recv(1024)] returns the
    first 1024 bytes the client sent, [sendall] all or nothing), and a
    [recv] that blocks on a client that sends nothing: in the model a
    handler never waits, so that every handler finishes is a result about
    the history and the scheduler, not about slow clients. *)

From Stdlib Require Import ZArith String Ascii.
From stdpp Require Import base list options sorting.

Create HintDb pyweb discriminated.
Create Rewrite HintDb pyweb_rw.

(** ** Python values *)

(** A Python [str] is a sequence of code points, a [bytes] object a
    sequence of byte values; both are lists of [Z]. *)
Abbreviation pystr := (list Z).
Abbreviation bytes := (list Z).

(** The bytes of a Rocq string literal; a literal written in UTF-8 in this
    file gives the UTF-8 bytes of the Python source text. *)
Definition ascii_bytes (s : string) : bytes :=
  map (fun a => Z.of_N (N_of_ascii a)) (list_ascii_of_string s).

(** The exceptions the server can meet.  [UnicodeDecodeError] and
    [UnicodeEncodeError] are subclasses of [ValueError] in Python;
    [FileNotFoundError], [IsADirectoryError], [NotADirectoryError] and
    [BrokenPipeError] are subclasses of [OSError], the class of the other
    socket errors.  [KeyboardInterrupt] and [SystemExit] (raised by
    [exit(code)]) derive from [BaseException] only. *)
Inductive pyexc :=
| ValueError
| UnicodeDecodeError
| UnicodeEncodeError
| UnboundLocalError
| IndexError
| FileNotFoundError
| IsADirectoryError
| NotADirectoryError
| BrokenPipeError
| OSError
| KeyboardInterrupt
| SystemExit (code : Z).

#[export] Instance pyexc_eq_dec : EqDecision pyexc.
Proof. solve_decision. Defined.

(** [except ValueError] catches the class and its subclasses. *)
Definition is_value_error (e : pyexc) : bool :=
  match e with
  | ValueError | UnicodeDecodeError | UnicodeEncodeError => true
  | _ => false
  end.

(** [except Exception] catches everything but the two direct subclasses of
    [BaseException]. *)
Definition is_exception (e : pyexc) : bool :=
  match e with
  | KeyboardInterrupt | SystemExit _ => false
  | _ => true
  end.

(** [OSError] and its subclasses: what the operating system raises. *)
Definition is_os_error (e : pyexc) : bool :=
  match e with
  | FileNotFoundError | IsADirectoryError | NotADirectoryError | BrokenPipeError | OSError => true
  | _ => false
  end.

(** ** Results and the state-and-exception monad *)

(** The result of a Python computation that does not touch state. *)
Inductive res (A : Type) : Type :=
| Ret (a : A)
| Raise (e : pyexc).
Arguments Ret {A} a.
Arguments Raise {A} e.

#[export] Instance res_ret : MRet res := fun A a => Ret a.
#[export] Instance res_bind : MBind res :=
  fun A B f r => match r with Ret a => f a | Raise e => Raise e end.
#[export] Instance res_fmap : FMap res :=
  fun A B f r => match r with Ret a => Ret (f a) | Raise e => Raise e end.

(** A Python statement sequence over a state [S]: the effects performed
    before an exception is raised are kept, as in Python. *)
Definition PY (S A : Type) : Type := S -> res A * S.

Section PYMonad.
Context {S : Type}.

Definition py_ret {A} (a : A) : PY S A := fun s => (Ret a, s).
Definition py_bind {A B} (f : A -> PY S B) (m : PY S A) : PY S B :=
  fun s => match m s with
           | (Ret a, s') => f a s'
           | (Raise e, s') => (Raise e, s')
           end.
Definition py_raise {A} (e : pyexc) : PY S A := fun s => (Raise e, s).
Definition py_lift {A} (r : res A) : PY S A := fun s => (r, s).
Definition py_modify (f : S -> S) : PY S unit := fun s => (Ret tt, f s).
Definition py_get : PY S S := fun s => (Ret s, s).

(** [try: m except E: h] for the exceptions [E] selected by [catches]. *)
Definition py_try {A} (catches : pyexc -> bool) (m : PY S A)
    (h : pyexc -> PY S A) : PY S A :=
  fun s => match m s with
           | (Raise e, s') => if catches e then h e s' else (Raise e, s')
           | r => r
           end.

(** [try: m finally: f]: [f] runs on both exits; an exception of [f]
    replaces the one of [m]. *)
Definition py_finally {A} (m : PY S A) (f : PY S unit) : PY S A :=
  fun s => let (r, s') := m s in
           match f s' with
           | (Ret _, s'') => (r, s'')
           | (Raise e, s'') => (Raise e, s'')
           end.
End PYMonad.

#[export] Instance py_mret {S} : MRet (PY S) := fun A => @py_ret S A.
#[export] Instance py_mbind {S} : MBind (PY S) := fun A B => @py_bind S A B.
#[export] Instance py_fmap {S} : FMap (PY S) :=
  fun A B f m => @py_bind S A B (fun a => py_ret (f a)) m.

(** ** A program logic for [PY]: invariants of the state *)

Section PYLogic.
Context {S : Type}.

(** [m] keeps [P] on every exit, normal or exceptional. *)
Definition preserves {A} (P : S -> Prop) (m : PY S A) : Prop :=
  forall s, P s -> P (snd (m s)).

Lemma preserves_ret {A} (P : S -> Prop) (a : A) : preserves P (mret a).
Proof. by intros s. Qed.

Lemma preserves_lift {A} (P : S -> Prop) (r : res A) : preserves P (py_lift r).
Proof. by intros s. Qed.

Lemma preserves_raise {A} (P : S -> Prop) (e : pyexc) : preserves P (@py_raise S A e).
Proof. by intros s. Qed.

Lemma preserves_get (P : S -> Prop) : preserves P py_get.
Proof. by intros s. Qed.

Lemma preserves_modify (P : S -> Prop) (f : S -> S) :
  (forall s, P s -> P (f s)) -> preserves P (py_modify f).
Proof. intros Hf s. apply Hf. Qed.

Lemma preserves_bind {A B} (P : S -> Prop) (m : PY S A) (k : A -> PY S B) :
  preserves P m -> (forall a, preserves P (k a)) -> preserves P (m ≫= k).
Proof.
  intros Hm Hk s Hs. specialize (Hm s Hs).
  cbv [mbind py_mbind py_bind]. destruct (m s) as [[a|e] s']; [by apply Hk|done].
Qed.

Lemma preserves_fmap {A B} (P : S -> Prop) (f : A -> B) (m : PY S A) :
  preserves P m -> preserves P (f <$> m).
Proof.
  intros Hm s Hs. specialize (Hm s Hs).
  cbv [fmap py_fmap py_bind py_ret]. by destruct (m s) as [[a|e] s'].
Qed.

Lemma preserves_try {A} (P : S -> Prop) (c : pyexc -> bool) (m : PY S A) (h : pyexc -> PY S A) :
  preserves P m -> (forall e, preserves P (h e)) -> preserves P (py_try c m h).
Proof.
  intros Hm Hh s Hs. specialize (Hm s Hs). unfold py_try.
  destruct (m s) as [[a|e] s']; [done|]. destruct (c e); [by apply Hh|done].
Qed.
Lemma preserves_finally {A} (P : S -> Prop) (m : PY S A) (f : PY S unit) :
  preserves P m -> preserves P f -> preserves P (py_finally m f).
Proof.
  intros Hm Hf s Hs. specialize (Hm s Hs). unfold py_finally.
  destruct (m s) as [r s']. specialize (Hf s' Hm). by destruct (f s') as [[u|e] s''].
Qed.
End PYLogic.

#[export] Hint Resolve preserves_ret preserves_lift preserves_raise preserves_get : pyweb.

(** Split a [preserves] goal along the structure of the program. *)
Ltac preserves_split :=
  repeat match goal with
  | |- preserves _ (mbind _ _) => apply preserves_bind; [|intros ?]
  | |- preserves _ (fmap _ _) => apply preserves_fmap
  | |- preserves _ (py_try _ _ _) => apply preserves_try; [|intros ?]
  | |- preserves _ (py_finally _ _) => apply preserves_finally
  | |- preserves _ (match ?x with _ => _ end) => destruct x
  | |- preserves _ (if ?b then _ else _) => destruct b
  end.

(** ** A program logic for [PY]: the exceptions a program raises *)

Section PYRaises.
Context {S : Type}.

(** Every exception that escapes [m] satisfies [Q]. *)
Definition raises_only {A} (Q : pyexc -> Prop) (m : PY S A) : Prop :=
  forall s e s', m s = (Raise e, s') -> Q e.

Lemma raises_only_ret {A} (Q : pyexc -> Prop) (a : A) : raises_only Q (mret a).
Proof. by intros s e s'. Qed.

Lemma raises_only_get (Q : pyexc -> Prop) : raises_only Q py_get.
Proof. by intros s e s'. Qed.

Lemma raises_only_modify (Q : pyexc -> Prop) (f : S -> S) : raises_only Q (py_modify f).
Proof. by intros s e s'. Qed.

Lemma raises_only_raise {A} (Q : pyexc -> Prop) (e : pyexc) :
  Q e -> raises_only Q (@py_raise S A e).
Proof. intros He s e' s' [= <- _]. done. Qed.

Lemma raises_only_lift {A} (Q : pyexc -> Prop) (r : res A) :
  (forall e, r = Raise e -> Q e) -> raises_only Q (@py_lift S A r).
Proof. intros Hr s e s' [= -> _]. by apply Hr. Qed.

Lemma raises_only_bind {A B} (Q : pyexc -> Prop) (m : PY S A) (k : A -> PY S B) :
  raises_only Q m -> (forall a, raises_only Q (k a)) -> raises_only Q (m ≫= k).
Proof.
  intros Hm Hk s e s'. cbv [mbind py_mbind py_bind].
  destruct (m s) as [[a|e'] s1] eqn:E; [apply Hk|]. intros [= -> _]. by eapply Hm.
Qed.

Lemma raises_only_fmap {A B} (Q : pyexc -> Prop) (f : A -> B) (m : PY S A) :
  raises_only Q m -> raises_only Q (f <$> m).
Proof.
  intros Hm s e s'. cbv [fmap py_fmap py_bind py_ret].
  destruct (m s) as [[a|e'] s1] eqn:E; [done|]. intros [= -> _]. by eapply Hm.
Qed.

Lemma raises_only_try {A} (Q : pyexc -> Prop) (c : pyexc -> bool) (m : PY S A)
    (h : pyexc -> PY S A) :
  raises_only Q m -> (forall e, raises_only Q (h e)) -> raises_only Q (py_try c m h).
Proof.
  intros Hm Hh s e s'. unfold py_try.
  destruct (m s) as [[a|e'] s1] eqn:E; [done|]. destruct (c e'); [apply Hh|].
  intros [= -> _]. by eapply Hm.
Qed.
End PYRaises.

#[export] Hint Resolve raises_only_ret raises_only_get raises_only_modify : pyweb.

(** Split a [raises_only] goal along the structure of the program. *)
Ltac raises_split :=
  repeat match goal with
  | |- raises_only _ (mbind _ _) => apply raises_only_bind; [|intros ?]
  | |- raises_only _ (fmap _ _) => apply raises_only_fmap
  | |- raises_only _ (py_try _ _ _) => apply raises_only_try; [|intros ?]
  | |- raises_only _ (match ?x with _ => _ end) => destruct x
  | |- raises_only _ (if ?b then _ else _) => destruct b
  end.

(** ** Generic list facts *)

(** The last [n] elements of a list. *)
Definition lastn {A} (n : nat) (l : list A) : list A := drop (length l - n) l.

(** The number of elements satisfying a boolean test. *)
Definition count_if {A} (p : A -> bool) (l : list A) : nat :=
  length (filter (fun x => p x = true) l).


Section ListFacts.
Context {A : Type}.

Lemma lastn_length (n : nat) (l : list A) : length (lastn n l) = Nat.min n (length l).
Proof. unfold lastn. rewrite length_drop. lia. Qed.

Lemma lastn_all (n : nat) (l : list A) : length l <= n -> lastn n l = l.
Proof. intros H. unfold lastn. replace (length l - n) with 0 by lia. done. Qed.

Lemma lastn_snoc (n : nat) (l : list A) (x : A) :
  lastn n (l ++ [x]) =
    if decide (n = 0) then [] else lastn (n - 1) l ++ [x].
Proof.
  unfold lastn. rewrite length_app. simpl.
  case_decide as Hn.
  - subst. apply drop_ge. rewrite length_app; simpl; lia.
  - rewrite drop_app_le by lia. f_equal. f_equal. lia.
Qed.

Lemma lastn_lastn (n m : nat) (l : list A) : n <= m -> lastn n (lastn m l) = lastn n l.
Proof.
  intros H. unfold lastn. rewrite length_drop, drop_drop. f_equal. lia.
Qed.

Lemma lastn_app_lastn (n : nat) (l1 l2 : list A) :
  lastn n (lastn n l1 ++ l2) = lastn n (l1 ++ l2).
Proof.
  unfold lastn. rewrite <- (drop_app_le l1 l2 (length l1 - n)) by lia.
  rewrite drop_drop, length_drop, !length_app. f_equal. lia.
Qed.

Lemma count_if_app (p : A -> bool) (l1 l2 : list A) :
  count_if p (l1 ++ l2) = count_if p l1 + count_if p l2.
Proof. unfold count_if. by rewrite filter_app, length_app. Qed.

(** Induction on the length of a list, for functions that consume more
    than one element per call. *)
Lemma list_length_ind (P : list A -> Prop) :
  (forall l, (forall l', length l' < length l -> P l') -> P l) -> forall l, P l.
Proof.
  intros Hstep l. remember (length l) as n eqn:Hn. revert l Hn.
  induction n as [n IH] using lt_wf_ind. intros l ->. apply Hstep.
  intros l' Hl'. by apply (IH (length l')).
Qed.

Lemma Forall_suffix (P : A -> Prop) (l1 l2 : list A) :
  l1 `suffix_of` l2 -> Forall P l2 -> Forall P l1.
Proof. intros [k ->] H. by apply Forall_app in H as [_ ?]. Qed.

Lemma mjoin_map_singleton (l : list A) : mjoin (map (fun x => [x]) l) = l.
Proof. induction l as [|x l IH]; [done|]. simpl. by rewrite IH. Qed.

(** Replacing the element at [i] changes a count by the two tests. *)
Lemma count_if_insert (p : A -> bool) (l : list A) (i : nat) (x y : A) :
  l !! i = Some y ->
  count_if p (<[i:=x]> l) + (if p y then 1 else 0) =
    count_if p l + (if p x then 1 else 0).
Proof.
  revert i. induction l as [|z l IH]; intros [|i] Hi; simplify_eq/=.
  - unfold count_if. rewrite !filter_cons. destruct (p x), (p y); simpl; lia.
  - unfold count_if in *. rewrite !filter_cons. specialize (IH i Hi).
    destruct (p z); simpl; lia.
Qed.

Lemma count_if_cons (p : A -> bool) (x : A) (l : list A) :
  count_if p (x :: l) = (if p x then 1 else 0) + count_if p l.
Proof. unfold count_if. rewrite filter_cons. destruct (p x); simpl; done. Qed.

Lemma count_if_none (p : A -> bool) (l : list A) :
  Forall (fun x => p x = false) l -> count_if p l = 0.
Proof. induction 1 as [|x l Hx _ IH]; [done|]. by rewrite count_if_cons, Hx, IH. Qed.

Lemma StronglySorted_filter (R : A -> A -> Prop) (P : A -> Prop) `{forall x, Decision (P x)}
    (l : list A) :
  StronglySorted R l -> StronglySorted R (filter P l).
Proof.
  induction 1 as [|x l Hl IH Hx]; [constructor|]. rewrite filter_cons.
  case_decide; [|done]. constructor; [done|].
  apply Forall_forall. intros y Hy. apply list_elem_of_filter in Hy as [_ Hy].
  by eapply Forall_forall in Hx.
Qed.

(** [omap] keeps the elements distinct when [f] is injective on [l]. *)
Lemma NoDup_omap {B} (f : A -> option B) (l : list A) :
  (forall x y b, x ∈ l -> y ∈ l -> f x = Some b -> f y = Some b -> x = y) ->
  NoDup l -> NoDup (omap f l).
Proof.
  intros Hf Hl. induction Hl as [|x l Hx Hl IH]; simpl; [constructor|].
  assert (IH' : NoDup (omap f l)) by (apply IH; intros; eapply Hf; eauto with set_solver).
  destruct (f x) as [b|] eqn:E; [|done]. constructor; [|done].
  intros Hb. apply list_elem_of_omap in Hb as [y [Hy Hfy]].
  assert (x = y) as -> by (eapply Hf; eauto with set_solver). done.
Qed.
End ListFacts.

#[export] Hint Rewrite @count_if_app @count_if_cons : pyweb_rw.
#[export] Hint Resolve lastn_all : pyweb.

(** Unfold the monad operations and compute. *)
Ltac py_unfold :=
  cbv [mbind mret fmap py_mbind py_mret py_fmap res_bind res_ret res_fmap py_bind py_ret py_lift
       py_raise py_modify py_get py_try py_finally] in *.

(** A decidable proposition about closed terms, decided by evaluation. *)
Ltac decide_closed := apply (bool_decide_unpack _); vm_compute; reflexivity.

(** [lia] after turning division and modulo into their defining
    equations. *)
Ltac zlia := Z.div_mod_to_equations; lia.

(** Case on every [Z] comparison of the goal, closing the branches that
    contradict the arithmetic context. *)
Ltac zbool :=
  repeat match goal with
  | |- context [Z.ltb ?a ?b] => destruct (Z.ltb_spec a b); try zlia
  | |- context [Z.leb ?a ?b] => destruct (Z.leb_spec a b); try zlia
  | |- context [Z.eqb ?a ?b] => destruct (Z.eqb_spec a b); try zlia
  end.

(** A bitwise or with a value below the low zero bits of the other operand
    is an addition. *)
Lemma lor_low_add (h y k : Z) :
  (0 <= k)%Z -> (0 <= y < 2 ^ k)%Z -> (h mod 2 ^ k = 0)%Z -> Z.lor h y = (h + y)%Z.
Proof.
  intros Hk Hy Hh.
  rewrite <- Z.add_lor_land.
  enough (Z.land h y = 0)%Z by lia.
  apply Z.bits_inj'. intros i Hi. rewrite Z.land_spec, Z.bits_0.
  destruct (Z.lt_ge_cases i k).
  - rewrite (Z.div_mod h (2 ^ k)) by lia. rewrite Hh, Z.add_0_r, Z.mul_comm.
    rewrite <- Z.shiftl_mul_pow2 by lia. rewrite Z.shiftl_spec_low by lia. reflexivity.
  - rewrite <- (Z.mod_small y (2 ^ k)) by lia. rewrite Z.mod_pow2_bits_high by lia.
    apply Bool.andb_false_r.
Qed.

(** Evaluate the powers of two with literal exponents in the goal. *)
Ltac pow2_consts :=
  repeat match goal with
  | |- context [(2 ^ ?k)%Z] =>
      let v := eval vm_compute in (2 ^ k)%Z in change (2 ^ k)%Z with v
  end.

(** Case on every [Z] comparison of the hypotheses, discarding the
    branches that make a hypothesis [false = true] or contradict the
    arithmetic context. *)
Ltac zbool_hyps :=
  repeat match goal with
  | H : context [Z.ltb ?a ?b] |- _ =>
      destruct (Z.ltb_spec a b); simpl in *; try discriminate; try zlia
  | H : context [Z.leb ?a ?b] |- _ =>
      destruct (Z.leb_spec a b); simpl in *; try discriminate; try zlia
  | H : context [Z.eqb ?a ?b] |- _ =>
      destruct (Z.eqb_spec a b); simpl in *; try discriminate; try zlia
  end.
