(* ===== verification/Utf8.v ===== *)
(** * UTF-8 as CPython implements it

    [str.encode('utf-8')] (Objects/stringlib/codecs.h, [utf8_encoder]) and
    [bytes.decode('utf-8', errors)] ([utf8_decode] and the error loop of
    [unicode_decode_utf8]).  The server decodes the received chunk with
    errors "strict" (src/server.py line 40), encodes every response with
    "strict" (lines 59, 70, 94, 122), and [urllib.parse.unquote] decodes
    percent-escapes with errors "replace" (line 51).

    The decoder reports an error over the maximal valid prefix of a
    malformed sequence: one byte for an invalid start byte, the lead and
    the valid continuation bytes before an invalid one, or the valid
    prefix cut by the end of the input.  With "replace" each such range
    becomes one U+FFFD. *)

From Stdlib Require Import ZArith String.
From stdpp Require Import base list options.
From S2P Require Import Prelude.

Local Open Scope Z_scope.

Module Utf8.

(** ** Encoding *)

(** One code point, as [utf8_encoder] writes it; [None] for a surrogate,
    which the "strict" handler refuses with [UnicodeEncodeError]. *)
Definition encode_char (ch : Z) : option bytes :=
  if ch <? 0x80 then Some [ch]
  else if ch <? 0x800 then
    Some [Z.lor 0xC0 (Z.shiftr ch 6); Z.lor 0x80 (Z.land ch 0x3F)]
  else if (0xD800 <=? ch) && (ch <=? 0xDFFF) then None
  else if ch <? 0x10000 then
    Some [Z.lor 0xE0 (Z.shiftr ch 12);
          Z.lor 0x80 (Z.land (Z.shiftr ch 6) 0x3F);
          Z.lor 0x80 (Z.land ch 0x3F)]
  else
    Some [Z.lor 0xF0 (Z.shiftr ch 18);
          Z.lor 0x80 (Z.land (Z.shiftr ch 12) 0x3F);
          Z.lor 0x80 (Z.land (Z.shiftr ch 6) 0x3F);
          Z.lor 0x80 (Z.land ch 0x3F)].

(** [s.encode('utf-8')]. *)
Fixpoint encode (s : pystr) : res bytes :=
  match s with
  | [] => Ret []
  | ch :: s' =>
      match encode_char ch with
      | Some b => (fun t => b ++ t) <$> encode s'
      | None => Raise UnicodeEncodeError
      end
  end.

(** ** Decoding *)

Inductive errors := Strict | Replace.

Definition is_cont (b : Z) : bool := (0x80 <=? b) && (b <? 0xC0).

(** The number of continuation bytes a lead byte announces; 0 for a byte
    that cannot start a sequence (0x80-0xC1, 0xF5-0xFF). *)
Definition seq_need (b : Z) : nat :=
  if (0xC2 <=? b) && (b <? 0xE0) then 1%nat
  else if (0xE0 <=? b) && (b <? 0xF0) then 2%nat
  else if (0xF0 <=? b) && (b <? 0xF5) then 3%nat
  else 0%nat.

(** The second byte's range depends on the lead byte: it excludes overlong
    forms (after 0xE0, 0xF0), surrogates (after 0xED) and code points above
    0x10FFFF (after 0xF4). *)
Definition second_ok (b1 b2 : Z) : bool :=
  if b1 =? 0xE0 then (0xA0 <=? b2) && (b2 <? 0xC0)
  else if b1 =? 0xED then (0x80 <=? b2) && (b2 <? 0xA0)
  else if b1 =? 0xF0 then (0x90 <=? b2) && (b2 <? 0xC0)
  else if b1 =? 0xF4 then (0x80 <=? b2) && (b2 <? 0x90)
  else is_cont b2.

(** The code point of a valid sequence, with CPython's arithmetic. *)
Definition dec2 (b1 b2 : Z) : Z :=
  Z.shiftl b1 6 + b2 - (Z.shiftl 0xC0 6 + 0x80).
Definition dec3 (b1 b2 b3 : Z) : Z :=
  Z.shiftl b1 12 + Z.shiftl b2 6 + b3
  - (Z.shiftl 0xE0 12 + Z.shiftl 0x80 6 + 0x80).
Definition dec4 (b1 b2 b3 b4 : Z) : Z :=
  Z.shiftl b1 18 + Z.shiftl b2 12 + Z.shiftl b3 6 + b4
  - (Z.shiftl 0xF0 18 + Z.shiftl 0x80 12 + Z.shiftl 0x80 6 + 0x80).

(** What the error handler does with one malformed range: "strict" raises,
    "replace" emits U+FFFD and decoding resumes after the range. *)
Definition on_error (m : errors) (k : res pystr) : res pystr :=
  match m with
  | Strict => Raise UnicodeDecodeError
  | Replace => cons 0xFFFD <$> k
  end.

(** [bytes.decode('utf-8', errors)]. *)
Fixpoint decode (m : errors) (bs : bytes) : res pystr :=
  match bs with
  | [] => Ret []
  | b1 :: r1 =>
    if b1 <? 0x80 then cons b1 <$> decode m r1 else
    match seq_need b1, r1 with
    | 0%nat, _ => on_error m (decode m r1)
    | _, [] => on_error m (Ret [])
    | n, b2 :: r2 =>
      if negb (second_ok b1 b2) then on_error m (decode m r1) else
      match n, r2 with
      | 1%nat, _ => cons (dec2 b1 b2) <$> decode m r2
      | _, [] => on_error m (Ret [])
      | n, b3 :: r3 =>
        if negb (is_cont b3) then on_error m (decode m r2) else
        match n, r3 with
        | 2%nat, _ => cons (dec3 b1 b2 b3) <$> decode m r3
        | _, [] => on_error m (Ret [])
        | _, b4 :: r4 =>
          if negb (is_cont b4) then on_error m (decode m r3)
          else cons (dec4 b1 b2 b3 b4) <$> decode m r4
        end
      end
    end
  end.

(** A string literal of this development: the UTF-8 text between the
    quotes, decoded. *)
Definition lit (s : string) : pystr :=
  match decode Replace (ascii_bytes s) with Ret p => p | Raise _ => [] end.

(** ** Classes of values *)

Definition is_byte (b : Z) : bool := (0 <=? b) && (b <? 256).

(** A Unicode scalar value: a code point that is not a surrogate. *)
Definition is_scalar (c : Z) : bool :=
  (0 <=? c) && (c <? 0x110000) && negb ((0xD800 <=? c) && (c <=? 0xDFFF)).

Definition is_ascii (c : Z) : bool := (0 <=? c) && (c <? 0x80).

(** ** Lemmas: the bytes of an encoding *)

Lemma cont_byte (x : Z) : 0 <= x -> Z.lor 0x80 (Z.land x 0x3F) = 0x80 + x mod 64.
Proof.
  intros Hx. change 0x3F with (Z.ones 6). rewrite Z.land_ones by lia.
  apply (lor_low_add _ _ 6); [lia | apply Z.mod_pos_bound; lia | done].
Qed.

Lemma encode_char_1 (c : Z) : 0 <= c < 0x80 -> encode_char c = Some [c].
Proof. intros. unfold encode_char. by zbool. Qed.

Lemma encode_char_2 (c : Z) :
  0x80 <= c < 0x800 -> encode_char c = Some [0xC0 + c / 64; 0x80 + c mod 64].
Proof.
  intros. unfold encode_char. zbool.
  rewrite cont_byte, Z.shiftr_div_pow2 by lia.
  rewrite (lor_low_add _ _ 5); pow2_consts; [reflexivity | lia | zlia | reflexivity].
Qed.

Lemma encode_char_3 (c : Z) :
  0x800 <= c < 0x10000 -> ~ (0xD800 <= c <= 0xDFFF) ->
  encode_char c = Some [0xE0 + c / 4096; 0x80 + (c / 64) mod 64; 0x80 + c mod 64].
Proof.
  intros. unfold encode_char. zbool; simpl; zbool;
    (rewrite !Z.shiftr_div_pow2 by lia; rewrite !cont_byte by (pow2_consts; zlia);
     rewrite (lor_low_add _ _ 4); pow2_consts; [reflexivity | lia | zlia | reflexivity]).
Qed.

Lemma encode_char_4 (c : Z) :
  0x10000 <= c < 0x110000 ->
  encode_char c = Some [0xF0 + c / 262144; 0x80 + (c / 4096) mod 64;
                        0x80 + (c / 64) mod 64; 0x80 + c mod 64].
Proof.
  intros. unfold encode_char. zbool; simpl; zbool.
  rewrite !Z.shiftr_div_pow2 by lia. rewrite !cont_byte by (pow2_consts; zlia).
  rewrite (lor_low_add _ _ 3); pow2_consts; [reflexivity | lia | zlia | reflexivity].
Qed.


Lemma is_scalar_spec (c : Z) :
  is_scalar c = true <-> 0 <= c < 0x110000 /\ ~ (0xD800 <= c <= 0xDFFF).
Proof. unfold is_scalar. zbool; simpl; intuition (try discriminate; lia). Qed.

(** ** Lemmas: one decoding step on a well-formed sequence *)

Section DecodeSteps.
Context (m : errors).

Lemma decode_cons_1 (b : Z) (r : bytes) :
  0 <= b < 0x80 -> decode m (b :: r) = cons b <$> decode m r.
Proof. intros. cbn [decode]. by zbool. Qed.

Lemma decode_cons_2 (b1 b2 : Z) (r : bytes) :
  0xC2 <= b1 < 0xE0 -> is_cont b2 = true ->
  decode m (b1 :: b2 :: r) = cons (dec2 b1 b2) <$> decode m r.
Proof.
  intros Hb1 Hb2. cbn [decode].
  rewrite (proj2 (Z.ltb_ge b1 0x80)) by lia.
  replace (seq_need b1) with 1%nat by (unfold seq_need; by zbool).
  replace (second_ok b1 b2) with true by (unfold second_ok; zbool; done).
  reflexivity.
Qed.

Lemma decode_cons_3 (b1 b2 b3 : Z) (r : bytes) :
  0xE0 <= b1 < 0xF0 -> second_ok b1 b2 = true -> is_cont b3 = true ->
  decode m (b1 :: b2 :: b3 :: r) = cons (dec3 b1 b2 b3) <$> decode m r.
Proof.
  intros Hb1 Hb2 Hb3. cbn [decode].
  rewrite (proj2 (Z.ltb_ge b1 0x80)) by lia.
  replace (seq_need b1) with 2%nat by (unfold seq_need; by zbool).
  rewrite Hb2, Hb3. reflexivity.
Qed.

Lemma decode_cons_4 (b1 b2 b3 b4 : Z) (r : bytes) :
  0xF0 <= b1 < 0xF5 -> second_ok b1 b2 = true -> is_cont b3 = true ->
  is_cont b4 = true ->
  decode m (b1 :: b2 :: b3 :: b4 :: r) = cons (dec4 b1 b2 b3 b4) <$> decode m r.
Proof.
  intros Hb1 Hb2 Hb3 Hb4. cbn [decode].
  rewrite (proj2 (Z.ltb_ge b1 0x80)) by lia.
  replace (seq_need b1) with 3%nat by (unfold seq_need; by zbool).
  rewrite Hb2, Hb3, Hb4. reflexivity.
Qed.

(** Decoding the encoding of one scalar value gives it back and leaves
    the rest of the input to the next step. *)
Lemma decode_encode_char (c : Z) (bs r : bytes) :
  is_scalar c = true -> encode_char c = Some bs ->
  decode m (bs ++ r) = cons c <$> decode m r.
Proof.
  rewrite is_scalar_spec. intros Hc Henc.
  destruct (Z.ltb_spec c 0x80); [|destruct (Z.ltb_spec c 0x800);
    [|destruct (Z.ltb_spec c 0x10000)]].
  - rewrite encode_char_1 in Henc by lia. injection Henc as <-.
    apply decode_cons_1. lia.
  - rewrite encode_char_2 in Henc by lia. injection Henc as <-. cbn [app].
    rewrite decode_cons_2 by (unfold is_cont; zbool; try done; zlia).
    unfold dec2. rewrite !Z.shiftl_mul_pow2 by lia. pow2_consts. do 2 f_equal. zlia.
  - rewrite encode_char_3 in Henc by lia. injection Henc as <-. cbn [app].
    rewrite decode_cons_3 by (unfold second_ok, is_cont; zbool; try done; zlia).
    unfold dec3. rewrite !Z.shiftl_mul_pow2 by lia. pow2_consts. do 2 f_equal. zlia.
  - rewrite encode_char_4 in Henc by lia. injection Henc as <-. cbn [app].
    rewrite decode_cons_4 by (unfold second_ok, is_cont; zbool; try done; zlia).
    unfold dec4. rewrite !Z.shiftl_mul_pow2 by lia. pow2_consts. do 2 f_equal. zlia.
Qed.
End DecodeSteps.


(** ** The decoder as a loop of steps *)

(** One iteration of CPython's decoding loop: the code point read and the
    rest of the input, or an error range and the rest after it. *)
Inductive dstep :=
| DDone
| DChar (c : Z) (rest : bytes)
| DErr (rest : bytes).

Definition step (bs : bytes) : dstep :=
  match bs with
  | [] => DDone
  | b1 :: r1 =>
    if b1 <? 0x80 then DChar b1 r1 else
    match seq_need b1, r1 with
    | 0%nat, _ => DErr r1
    | _, [] => DErr []
    | n, b2 :: r2 =>
      if negb (second_ok b1 b2) then DErr r1 else
      match n, r2 with
      | 1%nat, _ => DChar (dec2 b1 b2) r2
      | _, [] => DErr []
      | n, b3 :: r3 =>
        if negb (is_cont b3) then DErr r2 else
        match n, r3 with
        | 2%nat, _ => DChar (dec3 b1 b2 b3) r3
        | _, [] => DErr []
        | _, b4 :: r4 =>
          if negb (is_cont b4) then DErr r3 else DChar (dec4 b1 b2 b3 b4) r4
        end
      end
    end
  end.

Lemma decode_step (m : errors) (bs : bytes) :
  decode m bs =
    match step bs with
    | DDone => Ret []
    | DChar c r => cons c <$> decode m r
    | DErr r => on_error m (decode m r)
    end.
Proof.
  destruct bs as [|b1 r1]; [done|]. cbn [decode step].
  repeat (case_match; try done).
Qed.

(** Each step consumes a nonempty prefix of the input. *)
Lemma step_next (bs r : bytes) :
  (exists c, step bs = DChar c r) \/ step bs = DErr r ->
  r `suffix_of` bs /\ (length r < length bs)%nat.
Proof.
  destruct bs as [|b1 r1]; cbn [step]; [intros [[? ?]|?]; done|].
  intros [[c Hs]|Hs]; repeat case_match; simplify_eq; split; try (simpl; lia);
    repeat (reflexivity || apply suffix_cons_r).
Qed.

(** Induction along the decoding loop: [IH] holds for every shorter input. *)
Ltac decode_induction bs IH :=
  induction bs as [bs IH] using list_length_ind.

Lemma encode_char_scalar (c : Z) : is_scalar c = true -> exists b, encode_char c = Some b.
Proof.
  rewrite is_scalar_spec. intros Hc.
  destruct (Z.ltb_spec c 0x80); [|destruct (Z.ltb_spec c 0x800);
    [|destruct (Z.ltb_spec c 0x10000)]].
  - rewrite encode_char_1 by lia. eauto.
  - rewrite encode_char_2 by lia. eauto.
  - rewrite encode_char_3 by lia. eauto.
  - rewrite encode_char_4 by lia. eauto.
Qed.

Lemma encode_char_length (c : Z) (b : bytes) :
  is_scalar c = true -> encode_char c = Some b ->
  (if is_ascii c then length b = 1 else 2 <= length b <= 4)%nat.
Proof.
  rewrite is_scalar_spec. unfold is_ascii. intros Hc Hb.
  destruct (Z.ltb_spec c 0x80); [|destruct (Z.ltb_spec c 0x800);
    [|destruct (Z.ltb_spec c 0x10000)]].
  - rewrite encode_char_1 in Hb by lia. injection Hb as <-. by zbool.
  - rewrite encode_char_2 in Hb by lia. injection Hb as <-. zbool; simpl; lia.
  - rewrite encode_char_3 in Hb by lia. injection Hb as <-. zbool; simpl; lia.
  - rewrite encode_char_4 in Hb by lia. injection Hb as <-. zbool; simpl; lia.
Qed.

Lemma encode_cons_ok (c : Z) (s : pystr) (b t : bytes) :
  encode_char c = Some b -> encode s = Ret t -> encode (c :: s) = Ret (b ++ t).
Proof. intros Hc Hs. simpl. by rewrite Hc, Hs. Qed.

Lemma encode_app (s1 s2 : pystr) (t1 t2 : bytes) :
  encode s1 = Ret t1 -> encode s2 = Ret t2 -> encode (s1 ++ s2) = Ret (t1 ++ t2).
Proof.
  revert t1. induction s1 as [|c s1 IH]; intros t1 H1 H2; simpl in *.
  - by injection H1 as <-.
  - destruct (encode_char c) as [b|]; [|done].
    destruct (encode s1) as [t|]; simplify_eq/=. rewrite (IH t); [|done|done].
    simpl. by rewrite app_assoc.
Qed.


(** ** Theorems *)

(** [str.encode('utf-8')] followed by [bytes.decode('utf-8')] gives
    back every string of scalar values, in either error mode. *)
Theorem decode_encode (m : errors) (s : pystr) (bs : bytes) :
  Forall (fun c => is_scalar c = true) s -> encode s = Ret bs -> decode m bs = Ret s.
Proof.
  intros Hs. revert bs. induction Hs as [|c s Hc Hs IH]; intros bs Henc.
  - by injection Henc as <-.
  - destruct (encode_char_scalar c Hc) as [b Hb].
    simpl in Henc. rewrite Hb in Henc.
    destruct (encode s) as [t|] eqn:Ht; simplify_eq/=.
    rewrite (decode_encode_char m c b t Hc Hb), (IH t eq_refl). done.
Qed.

(** encoding succeeds on every string of scalar values. *)
Theorem encode_total (s : pystr) :
  Forall (fun c => is_scalar c = true) s -> exists bs, encode s = Ret bs.
Proof.
  induction 1 as [|c s Hc Hs [t Ht]]; [by exists []|].
  destruct (encode_char_scalar c Hc) as [b Hb]. exists (b ++ t).
  by apply encode_cons_ok.
Qed.

(** encoding raises [UnicodeEncodeError] on a string that holds a
    surrogate code point (U+D800 to U+DFFF). *)
Theorem encode_surrogate (s : pystr) :
  Exists (fun c => 0xD800 <= c <= 0xDFFF) s -> encode s = Raise UnicodeEncodeError.
Proof.
  induction 1 as [c s Hc|c s Hs IH]; simpl.
  - unfold encode_char. by zbool.
  - destruct (encode_char c); [|done]. by rewrite IH.
Qed.

(** decoding with errors "replace" never raises. *)
Theorem decode_replace_total (bs : bytes) : exists s, decode Replace bs = Ret s.
Proof.
  decode_induction bs IH. rewrite decode_step.
  destruct (step bs) as [|c r|r] eqn:E; [by eauto| |].
  - destruct (IH r) as [s Hs]; [apply step_next; eauto|]. rewrite Hs. by eexists.
  - destruct (IH r) as [s Hs]; [apply step_next; eauto|]. rewrite Hs. by eexists.
Qed.

(** where strict decoding succeeds, "replace" decoding gives the same
    string: the error handler is only called on malformed input. *)
Theorem decode_strict_replace (bs : bytes) (s : pystr) :
  decode Strict bs = Ret s -> decode Replace bs = Ret s.
Proof.
  revert s. decode_induction bs IH. intros s.
  rewrite !(decode_step _ bs).
  destruct (step bs) as [|c r|r] eqn:E; [done| |done].
  destruct (decode Strict r) as [t|] eqn:Ht; [|done].
  rewrite (IH r) with (s := t); [done| |done]. apply step_next; eauto.
Qed.


Lemma step_char_scalar (bs : bytes) (c : Z) (r : bytes) :
  Forall (fun b => is_byte b = true) bs -> step bs = DChar c r -> is_scalar c = true.
Proof.
  intros Hb Hs. destruct bs as [|b1 r1]; [done|]. apply Forall_cons in Hb as [Hb1 _].
  unfold is_byte in Hb1. cbn [step] in Hs. apply is_scalar_spec.
  repeat case_match; simplify_eq;
    unfold seq_need, second_ok, is_cont, dec2, dec3, dec4 in *;
    rewrite ?Z.shiftl_mul_pow2 by lia; pow2_consts; zbool_hyps.
Qed.

(** a decoded string holds only Unicode scalar values (no surrogate,
    nothing above U+10FFFF), so it can always be encoded again. *)
Theorem decode_scalar (m : errors) (bs : bytes) (s : pystr) :
  Forall (fun b => is_byte b = true) bs -> decode m bs = Ret s ->
  Forall (fun c => is_scalar c = true) s.
Proof.
  revert s. decode_induction bs IH. intros s Hb.
  rewrite decode_step. destruct (step bs) as [|c r|r] eqn:E.
  - intros [= <-]. constructor.
  - destruct (decode m r) as [t|] eqn:Ht; intros [= <-].
    constructor; [by eapply step_char_scalar|].
    edestruct (step_next bs r) as [Hsuf Hlen]; [by eauto|].
    apply (IH r Hlen); [|done]. by eapply Forall_suffix.
  - destruct m; [done|]. destruct (decode Replace r) as [t|] eqn:Ht; intros [= <-].
    constructor; [done|]. edestruct (step_next bs r) as [Hsuf Hlen]; [by eauto|].
    apply (IH r Hlen); [|done]. by eapply Forall_suffix.
Qed.


(** the byte length of an encoding: one byte per ASCII character and
    two to four bytes for each other one.  In particular the encoding is
    strictly longer than the string as soon as one character is not
    ASCII. *)
Theorem encode_length (s : pystr) (bs : bytes) :
  Forall (fun c => is_scalar c = true) s -> encode s = Ret bs ->
  (length s + count_if (fun c => negb (is_ascii c)) s <= length bs <=
     length s + 3 * count_if (fun c => negb (is_ascii c)) s)%nat.
Proof.
  intros Hs. revert bs. induction Hs as [|c s Hc Hs IH]; intros bs Henc.
  - by injection Henc as <-.
  - destruct (encode_char_scalar c Hc) as [b Hb]. simpl in Henc. rewrite Hb in Henc.
    destruct (encode s) as [t|]; simplify_eq/=.
    specialize (IH t eq_refl). pose proof (encode_char_length c b Hc Hb) as Hl.
    rewrite count_if_cons, length_app. destruct (is_ascii c); simpl; lia.
Qed.

Corollary encode_longer (s : pystr) (bs : bytes) :
  Forall (fun c => is_scalar c = true) s -> Exists (fun c => is_ascii c = false) s ->
  encode s = Ret bs -> (length s < length bs)%nat.
Proof.
  intros Hs Hx Henc. pose proof (encode_length s bs Hs Henc) as [Hlo _].
  enough (0 < count_if (fun c => negb (is_ascii c)) s)%nat by lia.
  unfold count_if. apply Exists_exists in Hx as [c [Hin Hc]].
  destruct (filter _ s) eqn:E; [|simpl; lia].
  assert (c ∈ filter (fun c => negb (is_ascii c) = true) s) as Hf.
  { apply list_elem_of_filter. split; [cbv beta; by rewrite Hc|]. done. }
  rewrite E in Hf. by apply not_elem_of_nil in Hf.
Qed.


(** ** Lemmas: encodings of concatenations *)

Lemma encode_char_nonempty (c : Z) (b : bytes) : encode_char c = Some b -> (1 <= length b)%nat.
Proof. unfold encode_char. intros H. repeat case_match; simplify_eq/=; lia. Qed.

Lemma encode_app_inv (s1 s2 : pystr) (bs : bytes) :
  encode (s1 ++ s2) = Ret bs ->
  exists b1 b2, encode s1 = Ret b1 /\ encode s2 = Ret b2 /\ bs = b1 ++ b2.
Proof.
  revert bs. induction s1 as [|c s1 IH]; intros bs H; simpl in *; [by exists [], bs|].
  destruct (encode_char c) as [b|]; [|done].
  destruct (encode (s1 ++ s2)) as [t|] eqn:E; simplify_eq/=.
  destruct (IH t eq_refl) as [b1 [b2 [-> [-> ->]]]].
  exists (b ++ b1), b2. by rewrite app_assoc.
Qed.

(** Every character gives at least one byte. *)
Lemma encode_not_shorter (s : pystr) (bs : bytes) : encode s = Ret bs -> (length s <= length bs)%nat.
Proof.
  revert bs. induction s as [|c s IH]; intros bs H; simpl in *; [lia|].
  destruct (encode_char c) as [b|] eqn:Ec; [|done].
  destruct (encode s) as [t|]; simplify_eq/=.
  pose proof (encode_char_nonempty c b Ec). specialize (IH t eq_refl).
  rewrite length_app. lia.
Qed.


Lemma encode_char_bytes (c : Z) (b : bytes) :
  is_scalar c = true -> encode_char c = Some b -> Forall (fun x => is_byte x = true) b.
Proof.
  rewrite is_scalar_spec. intros Hc Henc. unfold is_byte.
  destruct (Z.ltb_spec c 0x80); [|destruct (Z.ltb_spec c 0x800);
    [|destruct (Z.ltb_spec c 0x10000)]].
  - rewrite encode_char_1 in Henc by lia. injection Henc as <-.
    repeat constructor. zbool; lia.
  - rewrite encode_char_2 in Henc by lia. injection Henc as <-.
    repeat constructor; zbool; zlia.
  - rewrite encode_char_3 in Henc by lia. injection Henc as <-.
    repeat constructor; zbool; zlia.
  - rewrite encode_char_4 in Henc by lia. injection Henc as <-.
    repeat constructor; zbool; zlia.
Qed.

(** An encoding is a sequence of byte values. *)
Lemma encode_bytes (s : pystr) (bs : bytes) :
  Forall (fun c => is_scalar c = true) s -> encode s = Ret bs ->
  Forall (fun x => is_byte x = true) bs.
Proof.
  intros Hs. revert bs. induction Hs as [|c s Hc Hs IH]; intros bs Henc.
  - injection Henc as <-. constructor.
  - simpl in Henc. destruct (encode_char c) as [b|] eqn:Hb; [|done].
    destruct (encode s) as [t|]; simplify_eq/=.
    apply Forall_app. split; [by eapply encode_char_bytes|by apply IH].
Qed.

(** ** Lemmas: the exceptions of the codec *)

Lemma decode_raises (m : errors) (bs : bytes) (e : pyexc) :
  decode m bs = Raise e -> e = UnicodeDecodeError.
Proof.
  decode_induction bs IH. rewrite decode_step.
  destruct (step bs) as [|c r|r] eqn:E; [done| |].
  - destruct (decode m r) eqn:Hr; [done|]. intros [= <-].
    apply (IH r); [apply step_next; eauto|done].
  - destruct m; simpl; [by intros [= <-]|].
    destruct (decode Replace r) eqn:Hr; [done|]. intros [= <-].
    apply (IH r); [apply step_next; eauto|done].
Qed.

Lemma encode_raises (s : pystr) (e : pyexc) : encode s = Raise e -> e = UnicodeEncodeError.
Proof.
  induction s as [|c s IH]; simpl; [done|].
  destruct (encode_char c); [|by intros [= <-]].
  destruct (encode s); [done|]. intros [= <-]. by apply IH.
Qed.

(** ** Examples *)

(** The reply of line 103, in Cyrillic. *)
Definition demo_text : pystr := lit "Файл не найден".

Lemma encode_total_witness : exists bs, encode demo_text = Ret bs.
Proof. apply encode_total. unfold demo_text. decide_closed. Defined.

Lemma encode_surrogate_witness : encode [97; 0xDC80; 98] = Raise UnicodeEncodeError.
Proof. apply encode_surrogate. decide_closed. Defined.

Lemma decode_strict_replace_witness : decode Replace (ascii_bytes "Файл") = Ret (lit "Файл").
Proof. apply decode_strict_replace. vm_compute. reflexivity. Defined.

Lemma decode_scalar_witness :
  Forall (fun c => is_scalar c = true) (lit "Файл не найден").
Proof.
  apply (decode_scalar Strict (ascii_bytes "Файл не найден")); [decide_closed|].
  vm_compute. reflexivity.
Defined.

Lemma encode_length_witness :
  (length demo_text + count_if (fun c => negb (is_ascii c)) demo_text <=
     length (ascii_bytes "Файл не найден") <=
   length demo_text + 3 * count_if (fun c => negb (is_ascii c)) demo_text)%nat.
Proof.
  apply encode_length; [unfold demo_text; decide_closed|vm_compute; reflexivity].
Defined.

End Utf8.
