(* ===== verification/PyStr.v ===== *)
(** * The [str] operations the server calls

    [str.split()], [str.split('\n')], [str.strip()], [str.lstrip('/')],
    [str.startswith], [str.endswith] (CPython Objects/stringlib/split.h and
    Objects/unicodeobject.c), [html.escape] (Lib/html/__init__.py),
    [urllib.parse.unquote] and [unquote_to_bytes] (Lib/urllib/parse.py),
    the decimal rendering of an [int] in an f-string, and [sorted] on a
    list of [str] (lexicographic order on code points).  Their call sites
    are src/server.py lines 48, 49, 51, 85, 153, 164, 165, 187, 191 and 82. *)

From Stdlib Require Import ZArith String.
From stdpp Require Import base list options sorting.
From S2P Require Import Prelude Utf8.

Local Open Scope Z_scope.

Module PyStr.

(** ** Characters *)

(** [str.isspace()] of one character ([Py_UNICODE_ISSPACE]): the ASCII
    white space 0x09-0x0D, 0x1C-0x1F, 0x20 and the Unicode characters of
    bidirectional class WS, B, S or category Zs. *)
Definition is_space (c : Z) : bool :=
  ((0x09 <=? c) && (c <=? 0x0D)) || ((0x1C <=? c) && (c <=? 0x20)) ||
  (c =? 0x85) || (c =? 0xA0) || (c =? 0x1680) ||
  ((0x2000 <=? c) && (c <=? 0x200A)) || (c =? 0x2028) || (c =? 0x2029) ||
  (c =? 0x202F) || (c =? 0x205F) || (c =? 0x3000).

Definition newline : Z := 10.
Definition slash : Z := 47.
Definition percent : Z := 37.

(** ** Splitting and stripping *)

(** [s.split(sep)] for a one-character separator: the pieces between
    separators, empty ones included.  [cur] is the current piece,
    reversed. *)
Fixpoint split_sep_go (sep : Z) (s cur : pystr) : list pystr :=
  match s with
  | [] => [rev cur]
  | c :: s' =>
      if c =? sep then rev cur :: split_sep_go sep s' []
      else split_sep_go sep s' (c :: cur)
  end.
Definition split_sep (sep : Z) (s : pystr) : list pystr := split_sep_go sep s [].

(** [s.split()]: the maximal runs of non-white-space characters. *)
Fixpoint split_ws_go (s cur : pystr) : list pystr :=
  match s with
  | [] => match cur with [] => [] | _ => [rev cur] end
  | c :: s' =>
      if is_space c then
        match cur with
        | [] => split_ws_go s' []
        | _ => rev cur :: split_ws_go s' []
        end
      else split_ws_go s' (c :: cur)
  end.
Definition split_ws (s : pystr) : list pystr := split_ws_go s [].

Fixpoint drop_while (p : Z -> bool) (s : pystr) : pystr :=
  match s with
  | [] => []
  | c :: s' => if p c then drop_while p s' else s
  end.

(** [s.strip()]: white space removed at both ends. *)
Definition strip (s : pystr) : pystr :=
  rev (drop_while is_space (rev (drop_while is_space s))).

(** [s.lstrip(chars)] for a one-character argument. *)
Definition lstrip_char (ch : Z) (s : pystr) : pystr := drop_while (fun c => c =? ch) s.

Fixpoint startswith (s p : pystr) : bool :=
  match p, s with
  | [], _ => true
  | c :: p', d :: s' => (c =? d) && startswith s' p'
  | _ :: _, [] => false
  end.

Definition endswith (s p : pystr) : bool := startswith (rev s) (rev p).

(** [' '.join(parts)] with a one-character separator. *)
Fixpoint join_sep (sep : Z) (parts : list pystr) : pystr :=
  match parts with
  | [] => []
  | [p] => p
  | p :: ps => p ++ sep :: join_sep sep ps
  end.

(** ** [html.escape(s, quote=True)] *)

(** [s.replace(old, new)] for a one-character [old]. *)
Definition replace1 (old : Z) (new : pystr) (s : pystr) : pystr :=
  mjoin (map (fun c => if c =? old then new else [c]) s).

(** The five replacements of Lib/html/__init__.py, in their order:
    "&" first, so that the ampersands the later ones insert stay. *)
Definition html_escape (s : pystr) : pystr :=
  replace1 39 (Utf8.lit "&#x27;")
    (replace1 34 (Utf8.lit "&quot;")
      (replace1 62 (Utf8.lit "&gt;")
        (replace1 60 (Utf8.lit "&lt;")
          (replace1 38 (Utf8.lit "&amp;") s)))).

(** ** [urllib.parse.unquote] *)

(** The value of a hexadecimal digit of [_hexdig = '0123456789ABCDEFabcdef']. *)
Definition hex_val (c : Z) : option Z :=
  if (48 <=? c) && (c <=? 57) then Some (c - 48)
  else if (65 <=? c) && (c <=? 70) then Some (c - 55)
  else if (97 <=? c) && (c <=? 102) then Some (c - 87)
  else None.

(** One [item] of [bits[1:]]: [_hextobyte[item[:2]] + item[2:]], or
    [b'%' + item] on [KeyError]. *)
Definition unquote_item (item : bytes) : bytes :=
  match item with
  | h1 :: h2 :: rest =>
      match hex_val h1, hex_val h2 with
      | Some v1, Some v2 => (v1 * 16 + v2) :: rest
      | _, _ => percent :: item
      end
  | _ => percent :: item
  end.

(** [unquote_to_bytes(string)]: split on [b'%']; a single piece is returned
    as it is; otherwise the first piece followed by every decoded item. *)
Definition unquote_to_bytes (b : bytes) : bytes :=
  match split_sep percent b with
  | [] | [_] => b
  | first :: items => first ++ mjoin (map unquote_item items)
  end.

(** The maximal runs of ASCII and of non-ASCII characters, each tagged with
    its kind: the matches of [_asciire = re.compile('([\x00-\x7f]+)')] and
    the text between them. *)
Fixpoint ascii_runs (s : pystr) : list (bool * pystr) :=
  match s with
  | [] => []
  | c :: s' =>
      match ascii_runs s' with
      | (a, r) :: rest =>
          if Bool.eqb (Utf8.is_ascii c) a then (a, c :: r) :: rest
          else (Utf8.is_ascii c, [c]) :: (a, r) :: rest
      | [] => [(Utf8.is_ascii c, [c])]
      end
  end.

(** [b.decode('utf-8', 'replace')], which never raises ([Utf8.decode_replace_total]). *)
Definition decode_replace (b : bytes) : pystr :=
  match Utf8.decode Utf8.Replace b with Ret s => s | Raise _ => [] end.

(** [unquote(string)]: a string without ['%'] is returned as it is;
    otherwise each ASCII run is unquoted to bytes and decoded with
    errors "replace", and each non-ASCII run is kept. *)
Definition unquote (s : pystr) : pystr :=
  if negb (existsb (fun c => c =? percent) s) then s
  else mjoin (map (fun ar : bool * pystr => let (a, r) := ar in
                      if a then decode_replace (unquote_to_bytes r) else r)
                  (ascii_runs s)).

(** The percent-encoding a client applies to the bytes of a path: every
    byte as [%XX] with upper-case hexadecimal digits (what
    [urllib.parse.quote(b, safe='')] gives for bytes that are not letters,
    digits or [_.-~]). *)
Definition hex_digit (d : Z) : Z := if d <? 10 then 48 + d else 55 + d.

Definition percent_encode (bs : bytes) : pystr :=
  mjoin (map (fun b => [percent; hex_digit (b / 16); hex_digit (b mod 16)]) bs).

(** ** [str(n)] of a non-negative [int] *)

Fixpoint uint_chars (d : Decimal.uint) : pystr :=
  match d with
  | Decimal.Nil => []
  | Decimal.D0 d => 48 :: uint_chars d
  | Decimal.D1 d => 49 :: uint_chars d
  | Decimal.D2 d => 50 :: uint_chars d
  | Decimal.D3 d => 51 :: uint_chars d
  | Decimal.D4 d => 52 :: uint_chars d
  | Decimal.D5 d => 53 :: uint_chars d
  | Decimal.D6 d => 54 :: uint_chars d
  | Decimal.D7 d => 55 :: uint_chars d
  | Decimal.D8 d => 56 :: uint_chars d
  | Decimal.D9 d => 57 :: uint_chars d
  end.

Definition str_of_nat (n : nat) : pystr := uint_chars (Nat.to_uint n).

(** ** [sorted] on strings *)

(** Python compares [str] values code point by code point, a proper prefix
    first. *)
Fixpoint str_leb (s t : pystr) : bool :=
  match s, t with
  | [], _ => true
  | _ :: _, [] => false
  | c :: s', d :: t' => (c <? d) || ((c =? d) && str_leb s' t')
  end.

Definition str_le (s t : pystr) : Prop := str_leb s t = true.

#[export] Instance str_le_dec : RelDecision str_le.
Proof. intros s t. unfold str_le. apply _. Defined.

(** [sorted(l)].  CPython sorts with Timsort, a merge sort; stdpp's
    [merge_sort] stands for it, and any sorting algorithm returns the same
    list for this total order ([sort_unique] below). *)
Definition sort (l : list pystr) : list pystr := merge_sort str_le l.


(** ** Lemmas: [html.escape] *)

(** The escape of one character, as a table. *)
Definition escape_char (c : Z) : pystr :=
  if c =? 38 then Utf8.lit "&amp;"
  else if c =? 60 then Utf8.lit "&lt;"
  else if c =? 62 then Utf8.lit "&gt;"
  else if c =? 34 then Utf8.lit "&quot;"
  else if c =? 39 then Utf8.lit "&#x27;"
  else [c].

Lemma replace1_app (o : Z) (n s t : pystr) :
  replace1 o n (s ++ t) = replace1 o n s ++ replace1 o n t.
Proof. unfold replace1. by rewrite map_app, join_app. Qed.

Lemma replace1_single (o c : Z) (n : pystr) :
  replace1 o n [c] = if c =? o then n else [c].
Proof. unfold replace1. simpl. by rewrite app_nil_r. Qed.

Lemma replace1_join (o : Z) (n : pystr) (f : Z -> pystr) (s : pystr) :
  replace1 o n (mjoin (map f s)) = mjoin (map (fun c => replace1 o n (f c)) s).
Proof.
  induction s as [|c s IH]; [done|]. simpl. by rewrite replace1_app, IH.
Qed.

(** the five successive [str.replace] calls of [html.escape] act as
    one substitution of each character by its entry in the table. *)
Theorem html_escape_spec (s : pystr) : html_escape s = mjoin (map escape_char s).
Proof.
  unfold html_escape. rewrite <- (mjoin_map_singleton s) at 1.
  rewrite !replace1_join. f_equal. apply map_ext. intros c. unfold escape_char.
  destruct (decide (c = 38)) as [->|]; [reflexivity|].
  destruct (decide (c = 60)) as [->|]; [reflexivity|].
  destruct (decide (c = 62)) as [->|]; [reflexivity|].
  destruct (decide (c = 34)) as [->|]; [reflexivity|].
  destruct (decide (c = 39)) as [->|]; [reflexivity|].
  repeat (rewrite replace1_single; zbool; cbn iota). reflexivity.
Qed.


(** The characters that delimit markup or attribute values. *)
Definition markup_char (x : Z) : bool := (x =? 60) || (x =? 62) || (x =? 34) || (x =? 39).

Lemma escape_char_safe (c : Z) : Forall (fun x => markup_char x = false) (escape_char c).
Proof.
  unfold escape_char.
  zbool; (repeat constructor; unfold markup_char; zbool; reflexivity).
Qed.

Lemma escape_char_prefix (c d : Z) (x y : pystr) :
  escape_char c ++ x = escape_char d ++ y -> c = d /\ x = y.
Proof.
  unfold escape_char. intros H.
  repeat match goal with
  | H : context [Z.eqb ?a ?b] |- _ => destruct (Z.eqb_spec a b); subst
  end; vm_compute in H; simplify_eq; auto; lia.
Qed.

(** [html.escape] leaves no character that opens or closes a tag or
    ends an attribute value: request text shown in the page cannot add
    markup. *)
Theorem html_escape_safe (s : pystr) :
  Forall (fun x => markup_char x = false) (html_escape s).
Proof.
  rewrite html_escape_spec. induction s as [|c s IH]; simpl; [constructor|].
  apply Forall_app. split; [apply escape_char_safe | done].
Qed.

(** [html.escape] is injective: distinct texts are shown distinctly,
    a request holding "<" and one holding "&lt;" included. *)
Theorem html_escape_inj (s1 s2 : pystr) : s1 <> s2 -> html_escape s1 <> html_escape s2.
Proof.
  intros Hne Heq. apply Hne. clear Hne. revert Heq.
  rewrite !html_escape_spec. revert s2.
  induction s1 as [|c s1 IH]; intros [|d s2] H; simpl in H.
  - done.
  - unfold escape_char in H. repeat case_match; vm_compute in H; simplify_eq.
  - unfold escape_char in H. repeat case_match; vm_compute in H; simplify_eq.
  - apply escape_char_prefix in H as [-> H]. by rewrite (IH s2 H).
Qed.


(** ** Lemmas: the order on strings and [sorted] *)

Lemma str_leb_refl (s : pystr) : str_leb s s = true.
Proof. induction s as [|c s IH]; simpl; [done|]. rewrite Z.eqb_refl, IH. apply orb_true_r. Qed.

Lemma str_leb_trans (s t u : pystr) :
  str_leb s t = true -> str_leb t u = true -> str_leb s u = true.
Proof.
  revert t u. induction s as [|c s IH]; intros [|d t] [|e u]; simpl; try done.
  rewrite !orb_true_iff, !andb_true_iff, !Z.ltb_lt, !Z.eqb_eq.
  intros [?|[-> ?]] [?|[-> ?]]; eauto with lia.
Qed.

Lemma str_leb_antisym (s t : pystr) :
  str_leb s t = true -> str_leb t s = true -> s = t.
Proof.
  revert t. induction s as [|c s IH]; intros [|d t]; simpl; try done.
  rewrite !orb_true_iff, !andb_true_iff, !Z.ltb_lt, !Z.eqb_eq.
  intros [?|[-> ?]] [?|[? ?]]; try lia. f_equal. by apply IH.
Qed.

Lemma str_leb_total (s t : pystr) : str_leb s t = true \/ str_leb t s = true.
Proof.
  revert t. induction s as [|c s IH]; intros [|d t]; simpl; auto.
  rewrite !orb_true_iff, !andb_true_iff, !Z.ltb_lt, !Z.eqb_eq.
  destruct (Z.lt_trichotomy c d) as [?|[->|?]]; auto.
  destruct (IH t); auto.
Qed.

#[export] Instance str_le_trans : Transitive str_le.
Proof. intros s t u. apply str_leb_trans. Qed.
#[export] Instance str_le_antisymm : AntiSymm (=) str_le.
Proof. intros s t. apply str_leb_antisym. Qed.
#[export] Instance str_le_total : Total str_le.
Proof. intros s t. apply str_leb_total. Qed.

(** [sorted] returns the names in lexicographic order of code points,
    each name as often as in its argument. *)
Theorem sort_spec (l : list pystr) : Sorted str_le (sort l) /\ sort l ≡ₚ l.
Proof. split; [apply Sorted_merge_sort, _ | apply merge_sort_Permutation]. Qed.

(** any sorted permutation of a list is [sort] of it: the result does
    not depend on the sorting algorithm nor on the order in which
    [os.listdir] returned the names. *)
Theorem sort_unique (l l' : list pystr) : Sorted str_le l' -> l' ≡ₚ l -> l' = sort l.
Proof.
  intros Hs Hp. destruct (sort_spec l) as [Hs' Hp'].
  apply (Sorted_unique str_le); [done|done|]. by rewrite Hp, Hp'.
Qed.

(** [sorted] of two listings of the same names gives the same list:
    the page does not depend on the order in which [os.listdir] returns
    the directory's entries. *)
Theorem sort_perm_eq (l1 l2 : list pystr) : l1 ≡ₚ l2 -> sort l1 = sort l2.
Proof.
  intros Hp. destruct (sort_spec l1) as [Hs Hp1]. apply sort_unique; [done|].
  by rewrite Hp1.
Qed.


(** ** Lemmas: [split(sep)] *)

Lemma split_sep_go_app (sep : Z) (a b cur : pystr) :
  split_sep_go sep (a ++ sep :: b) cur = split_sep_go sep a cur ++ split_sep sep b.
Proof.
  revert cur. induction a as [|c a IH]; intros cur; simpl.
  - by rewrite Z.eqb_refl.
  - destruct (c =? sep); simpl; by rewrite IH.
Qed.

(** [(a + sep + b).split(sep) == a.split(sep) + b.split(sep)] *)
Lemma split_sep_app (sep : Z) (a b : pystr) :
  split_sep sep (a ++ sep :: b) = split_sep sep a ++ split_sep sep b.
Proof. apply split_sep_go_app. Qed.

(** ** Lemmas: [unquote] keeps a plain ASCII prefix *)

Lemma split_sep_go_cur (sep : Z) (r cur : pystr) :
  split_sep_go sep r cur =
    match split_sep_go sep r [] with x :: xs => (rev cur ++ x) :: xs | [] => [] end.
Proof.
  revert cur. induction r as [|c r IH]; intros cur; simpl; [by rewrite app_nil_r|].
  destruct (c =? sep); [by rewrite app_nil_r|]. rewrite (IH (c :: cur)), (IH [c]).
  destruct (split_sep_go sep r []); simpl; [done|]. by rewrite <- app_assoc.
Qed.

Lemma split_sep_go_free (sep : Z) (p r cur : pystr) :
  Forall (fun c => c <> sep) p -> split_sep_go sep (p ++ r) cur = split_sep_go sep r (rev p ++ cur).
Proof.
  intros Hp. revert cur. induction Hp as [|c p Hc Hp IH]; intros cur; simpl; [done|].
  apply Z.eqb_neq in Hc. rewrite Hc, IH. by rewrite <- app_assoc.
Qed.

Lemma unquote_to_bytes_prefix (p r : bytes) :
  Forall (fun c => c <> percent) p -> unquote_to_bytes (p ++ r) = p ++ unquote_to_bytes r.
Proof.
  intros Hp. unfold unquote_to_bytes, split_sep.
  rewrite split_sep_go_free, split_sep_go_cur, app_nil_r, rev_involutive by done.
  destruct (split_sep_go percent r []) as [|x [|y ys]]; simpl; [done|done|].
  by rewrite <- app_assoc.
Qed.

Lemma decode_replace_prefix (p b : bytes) :
  Forall (fun c => 0 <= c < 0x80) p -> decode_replace (p ++ b) = p ++ decode_replace b.
Proof.
  unfold decode_replace. induction 1 as [|c p Hc Hp IH]; [done|].
  rewrite <- app_comm_cons, Utf8.decode_cons_1 by done.
  destruct (Utf8.decode_replace_total (p ++ b)) as [s Hs]. rewrite Hs in IH |- *. simpl. by f_equal.
Qed.

Lemma ascii_runs_prefix (p s : pystr) :
  p <> [] -> Forall (fun c => Utf8.is_ascii c = true) p ->
  exists r rest, ascii_runs (p ++ s) = (true, p ++ r) :: rest.
Proof.
  intros Hne Hp. induction Hp as [|c p Hc Hp IH]; [done|].
  destruct p as [|d p].
  - simpl. rewrite Hc. destruct (ascii_runs s) as [|[[] r] rest]; simpl; eauto.
  - destruct IH as (r & rest & E); [done|]. simpl in E |- *. rewrite E, Hc. simpl. eauto.
Qed.

Lemma startswith_app (p t : pystr) : startswith (p ++ t) p = true.
Proof. induction p as [|c p IH]; simpl; [by destruct t|]. by rewrite Z.eqb_refl. Qed.

(** A path that starts with an ASCII prefix free of ['%'] still starts with
    it after [unquote]. *)
Lemma unquote_startswith (p s : pystr) :
  p <> [] -> Forall (fun c => 0 <= c < 0x80 /\ c <> percent) p -> startswith (unquote (p ++ s)) p = true.
Proof.
  intros Hne Hp.
  assert (exists t, unquote (p ++ s) = p ++ t) as [t ->].
  { unfold unquote. destruct (negb _); [by exists s|].
    destruct (ascii_runs_prefix p s) as (r & rest & ->); [done| |].
    { eapply Forall_impl; [done|]. intros c [Hc _]. unfold Utf8.is_ascii. zbool. }
    simpl. rewrite unquote_to_bytes_prefix, decode_replace_prefix.
    - eexists. by rewrite <- app_assoc.
    - eapply Forall_impl; [done|]. by intros c [].
    - eapply Forall_impl; [done|]. by intros c []. }
  apply startswith_app.
Qed.

(** ** Lemmas: [unquote] of a percent-encoding *)

Lemma hex_digit_spec (d : Z) :
  0 <= d < 16 -> hex_val (hex_digit d) = Some d /\ Utf8.is_ascii (hex_digit d) = true /\
                  hex_digit d <> percent.
Proof.
  intros Hd. unfold hex_val, hex_digit, Utf8.is_ascii, percent.
  destruct (Z.ltb_spec d 10); zbool; repeat split; try (f_equal; lia); lia.
Qed.

Definition hex_pair (b : Z) : pystr := [hex_digit (b / 16); hex_digit (b mod 16)].

Lemma byte_digits (b : Z) : Utf8.is_byte b = true -> 0 <= b / 16 < 16 /\ 0 <= b mod 16 < 16.
Proof.
  unfold Utf8.is_byte. intros Hb. apply andb_true_iff in Hb as [H1 H2].
  apply Z.leb_le in H1. apply Z.ltb_lt in H2. split; zlia.
Qed.

Lemma split_sep_go_sep (sep : Z) (x cur : pystr) :
  split_sep_go sep (sep :: x) cur = rev cur :: split_sep_go sep x [].
Proof. simpl. by rewrite Z.eqb_refl. Qed.

Lemma split_hex_pair (b : Z) (rest : pystr) :
  Utf8.is_byte b = true ->
  split_sep_go percent (hex_pair b ++ rest) [] =
    split_sep_go percent rest [hex_digit (b mod 16); hex_digit (b / 16)].
Proof.
  intros Hb. destruct (byte_digits b Hb) as [H1 H2].
  destruct (hex_digit_spec _ H1) as [_ [_ Hp1]], (hex_digit_spec _ H2) as [_ [_ Hp2]].
  cbn [hex_pair app split_sep_go].
  by rewrite (proj2 (Z.eqb_neq _ _) Hp1), (proj2 (Z.eqb_neq _ _) Hp2).
Qed.

Lemma split_percent_encode (b : Z) (bs : bytes) :
  Forall (fun x => Utf8.is_byte x = true) (b :: bs) ->
  split_sep_go percent (hex_pair b ++ percent_encode bs) [] = map hex_pair (b :: bs).
Proof.
  revert b. induction bs as [|b' bs IH]; intros b Hbs;
    apply Forall_cons in Hbs as [Hb Hbs]; rewrite split_hex_pair by done; [done|].
  change (percent_encode (b' :: bs)) with (percent :: hex_pair b' ++ percent_encode bs).
  rewrite split_sep_go_sep, IH by done. done.
Qed.

Lemma unquote_hex_pairs (l : bytes) :
  Forall (fun x => Utf8.is_byte x = true) l -> mjoin (map unquote_item (map hex_pair l)) = l.
Proof.
  induction 1 as [|x l Hx _ IH]; [done|].
  change (mjoin (map unquote_item (map hex_pair (x :: l))))
    with (unquote_item (hex_pair x) ++ mjoin (map unquote_item (map hex_pair l))).
  rewrite IH. destruct (byte_digits x Hx) as [H1 H2]. unfold unquote_item, hex_pair.
  destruct (hex_digit_spec _ H1) as [-> _], (hex_digit_spec _ H2) as [-> _].
  simpl. f_equal. zlia.
Qed.

Lemma unquote_to_bytes_percent_encode (bs : bytes) :
  Forall (fun x => Utf8.is_byte x = true) bs -> unquote_to_bytes (percent_encode bs) = bs.
Proof.
  intros Hbs. destruct bs as [|b bs]; [done|]. unfold unquote_to_bytes, split_sep.
  change (percent_encode (b :: bs)) with (percent :: hex_pair b ++ percent_encode bs).
  rewrite split_sep_go_sep, split_percent_encode by done.
  transitivity (mjoin (map unquote_item (map hex_pair (b :: bs)))); [reflexivity|].
  by apply unquote_hex_pairs.
Qed.

Lemma ascii_runs_ascii (l : pystr) :
  l <> [] -> Forall (fun c => Utf8.is_ascii c = true) l -> ascii_runs l = [(true, l)].
Proof.
  intros Hne Hl. induction Hl as [|c l Hc Hl IH]; [done|]. simpl.
  destruct l as [|c' l]; [by rewrite Hc|]. rewrite IH by done. by rewrite Hc.
Qed.

Lemma percent_encode_ascii (bs : bytes) :
  Forall (fun x => Utf8.is_byte x = true) bs ->
  Forall (fun c => Utf8.is_ascii c = true) (percent_encode bs).
Proof.
  induction 1 as [|b bs Hb _ IH]; [constructor|].
  destruct (byte_digits b Hb) as [H1 H2].
  destruct (hex_digit_spec _ H1) as [_ [Ha1 _]], (hex_digit_spec _ H2) as [_ [Ha2 _]].
  change (percent_encode (b :: bs)) with ([percent] ++ hex_pair b ++ percent_encode bs).
  repeat apply Forall_app_2; [repeat constructor | repeat constructor; done | done].
Qed.

(** [urllib.parse.unquote] (line 51) inverts the percent-encoding of the
    UTF-8 bytes of a path: a client that escapes every byte of a path with
    Cyrillic or other non-ASCII letters reaches the path it meant. *)
Theorem unquote_percent_encode (s : pystr) (bs : bytes) :
  Forall (fun c => Utf8.is_scalar c = true) s -> Utf8.encode s = Ret bs ->
  unquote (percent_encode bs) = s.
Proof.
  intros Hs Henc. pose proof (Utf8.encode_bytes s bs Hs Henc) as Hbs.
  destruct bs as [|b bs'].
  - pose proof (Utf8.encode_not_shorter s [] Henc). destruct s; [done|simpl in *; lia].
  - unfold unquote. replace (existsb _ _) with true by (simpl; by rewrite ?Z.eqb_refl).
    simpl negb. cbv iota. rewrite ascii_runs_ascii by (done || by apply percent_encode_ascii).
    cbn [map mjoin]. rewrite unquote_to_bytes_percent_encode by done.
    unfold decode_replace. rewrite (Utf8.decode_encode Utf8.Replace s _ Hs Henc).
    simpl. by rewrite app_nil_r.
Qed.

(** ** Lemmas: [split()] and [strip()] *)

Definition spaces (w : pystr) : Prop := Forall (fun c => is_space c = true) w.
Definition word (t : pystr) : Prop := t <> [] /\ Forall (fun c => is_space c = false) t.

Lemma split_ws_go_spaces (w cur : pystr) :
  spaces w -> split_ws_go w cur = match cur with [] => [] | _ => [rev cur] end.
Proof.
  intros Hw. revert cur. induction Hw as [|c w Hc Hw IH]; intros cur; simpl; [done|].
  rewrite Hc, IH. by destruct cur.
Qed.

Lemma split_ws_go_app_spaces (a w cur : pystr) :
  spaces w -> split_ws_go (a ++ w) cur = split_ws_go a cur.
Proof.
  intros Hw. revert cur. induction a as [|c a IH]; intros cur; simpl.
  - by apply split_ws_go_spaces.
  - by rewrite !IH.
Qed.

Lemma drop_while_split (p : Z -> bool) (s : pystr) :
  exists w, s = w ++ drop_while p s /\ Forall (fun c => p c = true) w.
Proof.
  induction s as [|c s [w [Hs Hw]]]; simpl; [by exists []|].
  destruct (p c) eqn:Hc; [|by exists []].
  exists (c :: w). split; [by rewrite Hs at 1|by constructor].
Qed.

Lemma split_ws_drop_spaces (s : pystr) : split_ws (drop_while is_space s) = split_ws s.
Proof.
  unfold split_ws. induction s as [|c s IH]; simpl; [done|].
  destruct (is_space c) eqn:E; [exact IH|]. simpl. by rewrite E.
Qed.

(** the [strip()] before [split()] in [handle_client] (lines 48-49)
    does not change the tokens. *)
Theorem split_ws_strip (s : pystr) : split_ws (strip s) = split_ws s.
Proof.
  unfold strip. rewrite <- (split_ws_drop_spaces s).
  set (u := drop_while is_space s).
  destruct (drop_while_split is_space (rev u)) as [w [Hu Hw]].
  assert (u = rev (drop_while is_space (rev u)) ++ rev w) as Hu'.
  { rewrite <- rev_app_distr, <- Hu. by rewrite rev_involutive. }
  rewrite Hu' at 2. unfold split_ws. rewrite split_ws_go_app_spaces; [done|].
  by apply Forall_rev.
Qed.

Lemma split_ws_go_word (t r cur : pystr) :
  Forall (fun c => is_space c = false) t ->
  split_ws_go (t ++ r) cur = split_ws_go r (rev t ++ cur).
Proof.
  intros Ht. revert cur. induction Ht as [|c t Hc Ht IH]; intros cur; simpl; [done|].
  rewrite Hc, IH. by rewrite <- app_assoc.
Qed.

Lemma rev_nonempty {A} (t : list A) : t <> [] -> exists x r, rev t = x :: r.
Proof.
  intros Hne. destruct (rev t) as [|x r] eqn:E; [|by eauto].
  apply (f_equal (@rev A)) in E. rewrite rev_involutive in E. done.
Qed.

(** [split()] recovers the words of a line printed with single
    spaces: a request line [method path version] parses back into its
    three parts. *)
Theorem split_ws_join (toks : list pystr) :
  Forall word toks -> split_ws (join_sep 32 toks) = toks.
Proof.
  unfold split_ws. induction 1 as [|t toks [Hne Ht] Htoks IH]; [done|].
  destruct (rev_nonempty t Hne) as [x [r Hr]].
  destruct toks as [|t' toks].
  - simpl. rewrite <- (app_nil_r t) at 1. rewrite split_ws_go_word by done.
    rewrite app_nil_r, Hr. cbn [split_ws_go]. by rewrite <- Hr, rev_involutive.
  - change (join_sep 32 (t :: t' :: toks)) with (t ++ 32 :: join_sep 32 (t' :: toks)).
    rewrite split_ws_go_word by done. rewrite app_nil_r, Hr. cbn [split_ws_go].
    replace (is_space 32) with true by reflexivity. cbn iota.
    by rewrite <- Hr, rev_involutive, IH.
Qed.


(** ** Examples *)

Lemma split_ws_join_witness :
  split_ws (join_sep 32 [Utf8.lit "GET"; Utf8.lit "/"; Utf8.lit "HTTP/1.1"]) =
    [Utf8.lit "GET"; Utf8.lit "/"; Utf8.lit "HTTP/1.1"].
Proof. apply split_ws_join. unfold word. decide_closed. Defined.

Lemma sort_perm_eq_witness :
  sort [Utf8.lit "b.pdf"; Utf8.lit "a.pdf"; Utf8.lit "notes.txt"] =
    sort [Utf8.lit "notes.txt"; Utf8.lit "b.pdf"; Utf8.lit "a.pdf"].
Proof.
  apply sort_perm_eq.
  apply (Permutation_trans (l' := [Utf8.lit "b.pdf"; Utf8.lit "notes.txt"; Utf8.lit "a.pdf"]));
    [apply perm_skip, perm_swap | apply perm_swap].
Defined.

Lemma unquote_percent_encode_witness :
  unquote (percent_encode (ascii_bytes "/static/reports/Отчет.pdf")) =
    Utf8.lit "/static/reports/Отчет.pdf".
Proof. apply unquote_percent_encode; [decide_closed|vm_compute; reflexivity]. Defined.

Lemma html_escape_inj_witness :
  html_escape (Utf8.lit "<") <> html_escape (Utf8.lit "&lt;").
Proof. apply html_escape_inj. vm_compute. discriminate. Defined.

End PyStr.
