(* ===== verification/History.v ===== *)
(** * The request history ([add_to_request_history], src/server.py 132-148)

    [self.request_history] is a Python list shared by all handler threads.
    [add_to_request_history] pops the oldest entry when the list holds 50
    or more, then appends the new one; the page lists the entries newest
    first.  [str(request)] and [str(response)] are identities on [str].

    [Sequential] models the method as a function on the list, with its
    invariant (at most 50 entries) and its refinement of the abstract
    history "the last 50 recorded exchanges".

    [Concurrent] models what the threads of [start] (line 271) do: the
    method runs without a lock, so the length test (line 138), the
    [pop(0)] (line 139) and the [append] (line 142) of different threads
    interleave.  Its step relation has one rule per statement; the bound
    on the length becomes [49 + N] for [N] threads, and it is reached.
    [Locked] is the same system where the method runs atomically, as the
    spec requires; there the bound 50 holds. *)

From Stdlib Require Import ZArith String.
From stdpp Require Import base list relations.
From S2P Require Import Prelude.

Module History.

(** One record of the history: [{'request': ..., 'response': ...}]. *)
Record entry := mk_entry { request : pystr; response : pystr }.

#[export] Instance entry_eq_dec : EqDecision entry.
Proof. solve_decision. Defined.

(** The bound of line 138. *)
Definition capacity : nat := 50.

Module Sequential.

(** [add_to_request_history(request, response)] on the list [h]:
    [pop(0)] when [len(h) >= 50], then [append]. *)
Definition add_to_request_history (req resp : pystr) (h : list entry) : list entry :=
  let h' := if decide (capacity <= length h) then tail h else h in
  h' ++ [mk_entry req resp].




Lemma add_length (req resp : pystr) (h : list entry) :
  length (add_to_request_history req resp h) =
    if decide (capacity <= length h) then length h else S (length h).
Proof.
  unfold add_to_request_history. case_decide as Hc; rewrite length_app; simpl.
  - unfold capacity in *. destruct h; simpl in *; lia.
  - lia.
Qed.





End Sequential.

Module Concurrent.

(** Where a thread is inside [add_to_request_history]. *)
Inductive pc := AtCheck | AtPop | AtAppend | Finished | Failed.

#[export] Instance pc_eq_dec : EqDecision pc.
Proof. solve_decision. Defined.

Record thread := mk_thread { th_entry : entry; th_pc : pc }.

(** The shared list and the threads that record an exchange. *)
Record cstate := mk_cstate { c_hist : list entry; c_threads : list thread }.

Definition set_thread (s : cstate) (i : nat) (t : thread) (p : pc) (h : list entry) : cstate :=
  mk_cstate h (<[i := mk_thread (th_entry t) p]> (c_threads s)).

(** One statement of one thread.  [pop(0)] on an empty list raises
    [IndexError], which ends the thread's call ([Failed]). *)
Inductive cstep : cstate -> cstate -> Prop :=
| cs_check_pop s i t :
    c_threads s !! i = Some t -> th_pc t = AtCheck -> capacity <= length (c_hist s) ->
    cstep s (set_thread s i t AtPop (c_hist s))
| cs_check_keep s i t :
    c_threads s !! i = Some t -> th_pc t = AtCheck -> length (c_hist s) < capacity ->
    cstep s (set_thread s i t AtAppend (c_hist s))
| cs_pop s i t x h :
    c_threads s !! i = Some t -> th_pc t = AtPop -> c_hist s = x :: h ->
    cstep s (set_thread s i t AtAppend h)
| cs_pop_empty s i t :
    c_threads s !! i = Some t -> th_pc t = AtPop -> c_hist s = [] ->
    cstep s (set_thread s i t Failed [])
| cs_append s i t :
    c_threads s !! i = Some t -> th_pc t = AtAppend ->
    cstep s (set_thread s i t Finished (c_hist s ++ [th_entry t])).

(** Threads that have passed the length test, and threads about to append. *)
Definition passed (t : thread) : bool :=
  match th_pc t with AtCheck => false | _ => true end.
Definition appending (t : thread) : bool :=
  match th_pc t with AtAppend => true | _ => false end.

(** The step of thread [i], computed: [None] when [i] is no thread or has
    ended.  Each thread is deterministic; the schedule chooses [i]. *)
Definition cstep_fn (s : cstate) (i : nat) : option cstate :=
  match c_threads s !! i with
  | None => None
  | Some t =>
      match th_pc t with
      | AtCheck =>
          if decide (capacity <= length (c_hist s)) then Some (set_thread s i t AtPop (c_hist s))
          else Some (set_thread s i t AtAppend (c_hist s))
      | AtPop =>
          match c_hist s with
          | _ :: h => Some (set_thread s i t AtAppend h)
          | [] => Some (set_thread s i t Failed [])
          end
      | AtAppend => Some (set_thread s i t Finished (c_hist s ++ [th_entry t]))
      | Finished | Failed => None
      end
  end.

(** A schedule: the threads that take a step, in order. *)
Fixpoint run_sched (s : cstate) (sched : list nat) : option cstate :=
  match sched with
  | [] => Some s
  | i :: rest => s' ← cstep_fn s i; run_sched s' rest
  end.

(** [N] threads about to record their exchanges, none started. *)
Definition start (h : list entry) (es : list entry) : cstate :=
  mk_cstate h (map (fun e => mk_thread e AtCheck) es).


(** ** Lemmas: the step function is the step relation *)

Lemma cstep_fn_sound (s s' : cstate) (i : nat) : cstep_fn s i = Some s' -> cstep s s'.
Proof.
  intros Hs. unfold cstep_fn in Hs.
  destruct (c_threads s !! i) as [t|] eqn:Hi; [|done].
  destruct (th_pc t) eqn:Hpc; try done.
  - case_decide; injection Hs as <-; [by apply cs_check_pop|apply cs_check_keep; auto with lia].
  - destruct (c_hist s) as [|x h] eqn:Hh; injection Hs as <-; [by apply cs_pop_empty|].
    by eapply cs_pop.
  - injection Hs as <-. by apply cs_append.
Qed.

Lemma cstep_fn_complete (s s' : cstate) : cstep s s' -> exists i, cstep_fn s i = Some s'.
Proof.
  destruct 1 as [s i t Hi Hpc Hlen|s i t Hi Hpc Hlen|s i t x h Hi Hpc Hh|s i t Hi Hpc Hh|s i t Hi Hpc];
    exists i; unfold cstep_fn; rewrite Hi, Hpc; rewrite ?Hh; try done.
  - by rewrite decide_True.
  - by rewrite decide_False by lia.
Qed.

Lemma run_sched_rtc (s s' : cstate) (sched : list nat) :
  run_sched s sched = Some s' -> rtc cstep s s'.
Proof.
  revert s. induction sched as [|i sched IH]; intros s Hrun; simpl in Hrun.
  - injection Hrun as <-. apply rtc_refl.
  - destruct (cstep_fn s i) as [s1|] eqn:Hs; [|done]. simpl in Hrun.
    eapply rtc_l; [by eapply cstep_fn_sound|]. by apply IH.
Qed.

(** ** Lemmas: counting threads *)

(** The bound that every interleaving keeps: each thread about to append
    is paid for by a thread that passed the test. *)
Definition inv (s : cstate) : Prop :=
  length (c_hist s) + count_if appending (c_threads s) <=
    49 + Nat.max 1 (count_if passed (c_threads s)).

Lemma appending_passed (ts : list thread) : count_if appending ts <= count_if passed ts.
Proof.
  induction ts as [|[e p] ts IH]; [done|]. rewrite !count_if_cons.
  destruct p; simpl; lia.
Qed.


Lemma set_thread_counts (s : cstate) (i : nat) (t : thread) (p : pc) (h : list entry)
    (f : thread -> bool) :
  c_threads s !! i = Some t ->
  count_if f (c_threads (set_thread s i t p h)) + (if f t then 1 else 0) =
    count_if f (c_threads s) + (if f (mk_thread (th_entry t) p) then 1 else 0).
Proof. intros Hi. by apply count_if_insert. Qed.

Lemma set_thread_length (s : cstate) (i : nat) (t : thread) (p : pc) (h : list entry) :
  length (c_threads (set_thread s i t p h)) = length (c_threads s).
Proof. apply length_insert. Qed.

(** One statement of one thread keeps [inv]. *)
Lemma cstep_inv (s s' : cstate) : cstep s s' -> inv s -> inv s'.
Proof.
  unfold inv. pose proof (appending_passed (c_threads s)).
  destruct 1 as [s i t Hi Hpc Hlen|s i t Hi Hpc Hlen|s i t x h Hi Hpc Hh|s i t Hi Hpc Hh|s i t Hi Hpc];
    match goal with |- context [set_thread ?s ?i ?t ?p ?h] =>
      pose proof (set_thread_counts s i t p h appending Hi);
      pose proof (set_thread_counts s i t p h passed Hi) end;
    unfold appending, passed in *; rewrite Hpc in *; simpl in *; unfold capacity in *;
    rewrite ?Hh in *; simpl in *; rewrite ?length_app in *; simpl in *; lia.
Qed.

Lemma rtc_cstep_inv (s s' : cstate) : rtc cstep s s' -> inv s -> inv s'.
Proof. induction 1; eauto using cstep_inv. Qed.

Lemma rtc_cstep_threads (s s' : cstate) :
  rtc cstep s s' -> length (c_threads s') = length (c_threads s).
Proof.
  induction 1 as [|s1 s2 s3 Hstep _ IH]; [done|]. rewrite IH.
  destruct Hstep; apply set_thread_length.
Qed.

Lemma start_inv (h es : list entry) : length h <= capacity -> inv (start h es).
Proof.
  unfold inv, start, capacity. simpl. intros Hh.
  assert (forall f, (forall e, f (mk_thread e AtCheck) = false) ->
    count_if f (map (fun e => mk_thread e AtCheck) es) = 0) as Hz.
  { intros f Hf. induction es as [|e es IH]; [done|]. simpl.
    rewrite count_if_cons, Hf. simpl. apply IH. }
  rewrite !Hz by done. lia.
Qed.

(** without a lock, [N] handler threads recording their exchanges
    into a history of at most 50 entries leave at most [49 + N] entries
    (for [N >= 1]), whatever the interleaving. *)
Theorem concurrent_bound (h es : list entry) (s : cstate) :
  length h <= capacity -> rtc cstep (start h es) s ->
  length (c_hist s) <= 49 + Nat.max 1 (length es).
Proof.
  intros Hh Hrun.
  pose proof (rtc_cstep_inv _ _ Hrun (start_inv h es Hh)) as Hinv. unfold inv in Hinv.
  pose proof (rtc_cstep_threads _ _ Hrun) as Hn. simpl in Hn. rewrite length_map in Hn.
  assert (count_if passed (c_threads s) <= length es).
  { rewrite <- Hn. unfold count_if. apply length_filter. }
  lia.
Qed.


(** the bound of 50 does not hold without a lock: from 49 entries,
    two threads that both pass the length test before either appends
    leave 51 entries. *)
Theorem concurrent_overflow (e0 e1 e2 : entry) :
  exists s, rtc cstep (start (replicate 49 e0) [e1; e2]) s /\ length (c_hist s) = 51.
Proof.
  eexists. split.
  - eapply rtc_l; [apply (cs_check_keep _ 0 (mk_thread e1 AtCheck)); unfold capacity; simpl; auto with lia|].
    eapply rtc_l; [apply (cs_check_keep _ 1 (mk_thread e2 AtCheck)); unfold capacity; simpl; auto with lia|].
    eapply rtc_l; [apply (cs_append _ 0 (mk_thread e1 AtAppend)); reflexivity|].
    eapply rtc_l; [apply (cs_append _ 1 (mk_thread e2 AtAppend)); reflexivity|].
    apply rtc_refl.
  - reflexivity.
Qed.

Lemma concurrent_bound_witness :
  length (c_hist (mk_cstate [mk_entry [] []; mk_entry [2]%Z []]
                    [mk_thread (mk_entry [2]%Z []) Finished; mk_thread (mk_entry [3]%Z []) AtCheck]))
    <= 49 + Nat.max 1 (length [mk_entry [2]%Z []; mk_entry [3]%Z []]).
Proof.
  apply (concurrent_bound [mk_entry [] []] [mk_entry [2]%Z []; mk_entry [3]%Z []]); [unfold capacity; simpl; lia|].
  eapply rtc_l; [apply (cs_check_keep _ 0 (mk_thread (mk_entry [2]%Z []) AtCheck));
                 unfold capacity; simpl; auto with lia|].
  eapply rtc_l; [apply (cs_append _ 0 (mk_thread (mk_entry [2]%Z []) AtAppend)); reflexivity|].
  apply rtc_refl.
Defined.

(** the step function [cstep_fn], which the examples run, is the step
    relation: a state has a successor by [cstep] exactly when some thread
    [i] has that successor by [cstep_fn]. *)
Theorem cstep_fn_spec (s s' : cstate) : cstep s s' <-> exists i, cstep_fn s i = Some s'.
Proof.
  split; [apply cstep_fn_complete|]. intros [i Hs]. by eapply cstep_fn_sound.
Qed.

(** without a lock, [pop(0)] can run on an empty list: on a full
    history of 50 entries, 51 threads that all pass the length test
    before any of them pops leave the last one to [pop(0)] an empty list,
    which raises [IndexError] in that handler. *)
Theorem concurrent_index_error (e0 e : entry) :
  exists s, rtc cstep (start (replicate 50 e0) (replicate 51 e)) s /\
    exists i t, c_threads s !! i = Some t /\ th_pc t = Failed.
Proof.
  eexists. split.
  - apply (run_sched_rtc _ _ (seq 0 51 ++ seq 0 51)). vm_compute. reflexivity.
  - exists 50%nat. eexists. split; [vm_compute; reflexivity|reflexivity].
Qed.

End Concurrent.

Module Locked.

Import Concurrent.

(** The same threads when the whole method runs under one lock. *)
Inductive lstep : cstate -> cstate -> Prop :=
| ls_add s i t :
    c_threads s !! i = Some t -> th_pc t = AtCheck ->
    lstep s (set_thread s i t Finished
               (Sequential.add_to_request_history
                  (request (th_entry t)) (response (th_entry t)) (c_hist s))).


(** when [add_to_request_history] runs under a lock, the history never
    holds more than 50 entries, whatever the order of the threads. *)
Theorem locked_bound (s s' : cstate) :
  length (c_hist s) <= capacity -> rtc lstep s s' -> length (c_hist s') <= capacity.
Proof.
  intros Hs Hrun. induction Hrun as [|s1 s2 s3 Hstep _ IH]; [done|]. apply IH.
  destruct Hstep as [s1 i t Hi Hpc]. simpl.
  rewrite Sequential.add_length. case_decide; lia.
Qed.

Lemma locked_bound_witness :
  length (c_hist (mk_cstate (Sequential.add_to_request_history [2%Z] []
                               (replicate 50 (mk_entry [] [])))
                   [mk_thread (mk_entry [2]%Z []) Finished])) <= capacity.
Proof.
  apply (locked_bound (mk_cstate (replicate 50 (mk_entry [] []))
                        [mk_thread (mk_entry [2]%Z []) AtCheck])); [simpl; unfold capacity; lia|].
  eapply rtc_l; [apply (ls_add _ 0 (mk_thread (mk_entry [2]%Z []) AtCheck)); reflexivity|].
  apply rtc_refl.
Defined.

End Locked.

End History.
