(* ===== verification/Fs.v ===== *)
(** * The file system: [serve_pdf] and [list_reports]

    The server reaches the disk through two calls only: [open(p, 'rb')
    .read()] in [serve_pdf] (src/server.py 150-158) and [os.listdir(p)] in
    [list_reports] (160-167).  [Class FileSystem] states these two calls
    and their law (they raise [OSError] or a subclass of it, nothing else)
    as the interface the server is verified against; [serve_pdf],
    [list_reports] and everything in [Page], [Handler] and [App] use only
    it.

    [Tree] implements the interface by a [gmap] from absolute paths (lists
    of path components) to nodes, with the POSIX resolution of a path
    string component by component: empty components and "." stay, ".."
    goes to the parent (the root is its own parent), a missing component
    raises [FileNotFoundError], a file followed by more components raises
    [NotADirectoryError].  [open] of a directory raises [IsADirectoryError],
    [listdir] of a file [NotADirectoryError].  Symbolic links and
    permissions are not modelled. *)

From Stdlib Require Import ZArith String.
From stdpp Require Import base list gmap sorting.
From S2P Require Import Prelude Utf8 PyStr.

Local Open Scope Z_scope.

Module Fs.

Import PyStr.

(** ** The interface *)

Class FileSystem (F : Type) := {
  (** [open(path, 'rb').read()] *)
  fs_read : F -> pystr -> res bytes;
  (** [os.listdir(path)], in the order the directory returns them *)
  fs_listdir : F -> pystr -> res (list pystr);
  (** Both calls fail with [OSError] or one of its subclasses only. *)
  fs_read_os_error : forall f p e, fs_read f p = Raise e -> is_os_error e = true;
  fs_listdir_os_error : forall f p e, fs_listdir f p = Raise e -> is_os_error e = true
}.

(** ** Paths *)

(** [os.path.join(a, b)] (posixpath.join): [b] when it is absolute, else
    [a] and [b] with one separator between them. *)
Definition path_join (a b : pystr) : pystr :=
  if startswith b [slash] then b
  else if decide (a = []) then b
  else if endswith a [slash] then a ++ b
  else a ++ slash :: b.

Definition pdf_ext : pystr := Utf8.lit ".pdf".
Definition static_dir : pystr := Utf8.lit "static".
Definition reports_dir : pystr := Utf8.lit "reports".
(** The URL prefix of line 85. *)
Definition reports_prefix : pystr := Utf8.lit "/static/reports/".

Section Reports.
Context {F : Type} `{FileSystem F}.

(** [serve_pdf(path)]: [None] on [FileNotFoundError]; any other error of
    [open] propagates to the caller. *)
Definition serve_pdf (fs : F) (base_dir path : pystr) : res (option bytes) :=
  let full_path := path_join base_dir (lstrip_char slash path) in
  match fs_read fs full_path with
  | Ret b => Ret (Some b)
  | Raise FileNotFoundError => Ret None
  | Raise e => Raise e
  end.

(** [os.path.join(self.base_dir, 'static', 'reports')] *)
Definition reports_path (base_dir : pystr) : pystr :=
  path_join (path_join base_dir static_dir) reports_dir.

(** [list_reports()]: the names of the directory, sorted, that end in
    ".pdf"; [[]] on [FileNotFoundError]; other errors propagate. *)
Definition list_reports (fs : F) (base_dir : pystr) : res (list pystr) :=
  match fs_listdir fs (reports_path base_dir) with
  | Ret names => Ret (filter (fun r => endswith r pdf_ext = true) (sort names))
  | Raise FileNotFoundError => Ret []
  | Raise e => Raise e
  end.

Lemma serve_pdf_os_error (fs : F) (base_dir path : pystr) (e : pyexc) :
  serve_pdf fs base_dir path = Raise e -> is_os_error e = true.
Proof.
  unfold serve_pdf. destruct (fs_read fs _) as [b|e'] eqn:E; [done|].
  destruct e'; intros [= <-]; by eapply fs_read_os_error.
Qed.

Lemma list_reports_os_error (fs : F) (base_dir : pystr) (e : pyexc) :
  list_reports fs base_dir = Raise e -> is_os_error e = true.
Proof.
  unfold list_reports. destruct (fs_listdir fs _) as [b|e'] eqn:E; [done|].
  destruct e'; intros [= <-]; by eapply fs_listdir_os_error.
Qed.

End Reports.

(** ** Lemmas: paths *)

Lemma startswith_app_l (s r p : pystr) :
  (length p <= length s)%nat -> startswith (s ++ r) p = startswith s p.
Proof.
  revert s. induction p as [|c p IH]; intros [|d s] Hl; simpl in *; try done.
  - by destruct r.
  - lia.
  - rewrite IH by lia. done.
Qed.

Lemma endswith_app_r (a t p : pystr) :
  (length p <= length t)%nat -> endswith (a ++ t) p = endswith t p.
Proof.
  intros Hl. unfold endswith. rewrite rev_app_distr, startswith_app_l; [done|].
  by rewrite !length_rev.
Qed.

Lemma path_join_rel (a b : pystr) :
  a <> [] -> endswith a [slash] = false -> startswith b [slash] = false ->
  path_join a b = a ++ slash :: b.
Proof.
  intros Ha Hend Hb. unfold path_join. rewrite Hb, decide_False by done. by rewrite Hend.
Qed.

Lemma reports_prefix_eq (rest : pystr) :
  lstrip_char slash (reports_prefix ++ rest) = static_dir ++ slash :: reports_dir ++ slash :: rest.
Proof. vm_compute. reflexivity. Qed.

Lemma reports_path_split (base : pystr) :
  base <> [] -> endswith base [slash] = false ->
  split_sep slash (reports_path base) = split_sep slash base ++ [static_dir; reports_dir].
Proof.
  intros Hb Hend. unfold reports_path.
  rewrite (path_join_rel base) by (done || reflexivity).
  rewrite path_join_rel; [| |rewrite endswith_app_r; [reflexivity|simpl; lia]|reflexivity].
  - rewrite <- app_assoc. simpl. rewrite !split_sep_app. reflexivity.
  - by destruct base.
Qed.

(** ** A model: a tree of nodes indexed by absolute paths *)

Module Tree.

Inductive node := NFile (contents : bytes) | NDir.

(** Absolute path (components from the root) to node; the root, [[]], is
    a directory and is not stored. *)
Record tree := mk_tree { nodes : gmap (list pystr) node }.

Definition dot : pystr := [46].
Definition dotdot : pystr := [46; 46].

Definition node_at (t : tree) (p : list pystr) : option node :=
  match p with [] => Some NDir | _ => nodes t !! p end.

(** Path resolution from the directory [cur]. *)
Fixpoint walk (t : tree) (cur : list pystr) (cs : list pystr) : res (list pystr) :=
  match cs with
  | [] => Ret cur
  | c :: rest =>
      if decide (c = [] \/ c = dot) then walk t cur rest
      else if decide (c = dotdot) then walk t (removelast cur) rest
      else match nodes t !! (cur ++ [c]) with
           | None => Raise FileNotFoundError
           | Some NDir => walk t (cur ++ [c]) rest
           | Some (NFile _) =>
               match rest with [] => Ret (cur ++ [c]) | _ => Raise NotADirectoryError end
           end
  end.

Definition resolve (t : tree) (p : pystr) : res (list pystr) :=
  walk t [] (split_sep slash p).

Definition tree_read (t : tree) (p : pystr) : res bytes :=
  q ← resolve t p;
  match node_at t q with
  | Some (NFile b) => Ret b
  | Some NDir => Raise IsADirectoryError
  | None => Raise FileNotFoundError
  end.

(** The names of the entries of directory [d]. *)
Definition children (t : tree) (d : list pystr) : list pystr :=
  omap (fun kv : list pystr * node =>
          match kv with
          | (k, _) => if decide (k <> [] /\ removelast k = d) then last k else None
          end) (map_to_list (nodes t)).

Definition tree_listdir (t : tree) (p : pystr) : res (list pystr) :=
  q ← resolve t p;
  match node_at t q with
  | Some NDir => Ret (children t q)
  | Some (NFile _) => Raise NotADirectoryError
  | None => Raise FileNotFoundError
  end.

Lemma walk_os_error (t : tree) (cur cs : list pystr) (e : pyexc) :
  walk t cur cs = Raise e -> is_os_error e = true.
Proof.
  revert cur. induction cs as [|c cs IH]; intros cur; simpl; [done|].
  repeat case_match; intros Hw; simplify_eq; eauto.
Qed.

Lemma tree_read_os_error (t : tree) (p : pystr) (e : pyexc) :
  tree_read t p = Raise e -> is_os_error e = true.
Proof.
  unfold tree_read, resolve. py_unfold. destruct (walk _ _ _) eqn:E; simpl.
  - repeat case_match; by intros [= <-].
  - intros [= <-]. by eapply walk_os_error.
Qed.

Lemma tree_listdir_os_error (t : tree) (p : pystr) (e : pyexc) :
  tree_listdir t p = Raise e -> is_os_error e = true.
Proof.
  unfold tree_listdir, resolve. py_unfold. destruct (walk _ _ _) eqn:E; simpl.
  - repeat case_match; by intros [= <-].
  - intros [= <-]. by eapply walk_os_error.
Qed.

#[export] Instance tree_fs : FileSystem tree := {
  fs_read := tree_read;
  fs_listdir := tree_listdir;
  fs_read_os_error := tree_read_os_error;
  fs_listdir_os_error := tree_listdir_os_error
}.


(** ** A concrete tree for the examples *)

(** [/srv/app] holds the server; its reports directory has three PDF
    files, one of them empty, and a text file; [/srv/secret.pdf] lies
    outside it. *)
Definition demo_base : pystr := Utf8.lit "/srv/app".

Definition demo : tree :=
  mk_tree (list_to_map [
    ([Utf8.lit "srv"], NDir);
    ([Utf8.lit "srv"; Utf8.lit "app"], NDir);
    ([Utf8.lit "srv"; Utf8.lit "app"; static_dir], NDir);
    ([Utf8.lit "srv"; Utf8.lit "app"; static_dir; reports_dir], NDir);
    ([Utf8.lit "srv"; Utf8.lit "app"; static_dir; reports_dir; Utf8.lit "b.pdf"], NFile [37; 80; 68; 70]);
    ([Utf8.lit "srv"; Utf8.lit "app"; static_dir; reports_dir; Utf8.lit "a.pdf"], NFile [37; 80]);
    ([Utf8.lit "srv"; Utf8.lit "app"; static_dir; reports_dir; Utf8.lit "empty.pdf"], NFile []);
    ([Utf8.lit "srv"; Utf8.lit "app"; static_dir; reports_dir; Utf8.lit "notes.txt"], NFile [110]);
    ([Utf8.lit "srv"; Utf8.lit "secret.pdf"], NFile [115; 101; 99])]).

(** A tree where [static/reports] is a file, not a directory. *)
Definition demo_reports_file : tree :=
  mk_tree (list_to_map [
    ([Utf8.lit "srv"], NDir);
    ([Utf8.lit "srv"; Utf8.lit "app"], NDir);
    ([Utf8.lit "srv"; Utf8.lit "app"; static_dir], NDir);
    ([Utf8.lit "srv"; Utf8.lit "app"; static_dir; reports_dir], NFile [])]).

(** A tree where the application has no [static] directory at all. *)
Definition no_static : tree :=
  mk_tree (list_to_map [([Utf8.lit "srv"], NDir); ([Utf8.lit "srv"; Utf8.lit "app"], NDir)]).

(** A reports directory holding one report whose name contains a valid
    percent escape. *)
Definition demo_pct_name : pystr := Utf8.lit "x%41.pdf".

Definition demo_pct : tree :=
  mk_tree (list_to_map [
    ([Utf8.lit "srv"], NDir);
    ([Utf8.lit "srv"; Utf8.lit "app"], NDir);
    ([Utf8.lit "srv"; Utf8.lit "app"; static_dir], NDir);
    ([Utf8.lit "srv"; Utf8.lit "app"; static_dir; reports_dir], NDir);
    ([Utf8.lit "srv"; Utf8.lit "app"; static_dir; reports_dir; demo_pct_name], NFile [37; 80])]).


(** ** Lemmas: path resolution *)

Lemma walk_app_ret (t : tree) (a b cur q : list pystr) :
  walk t cur (a ++ b) = Ret q -> exists c, walk t cur a = Ret c /\ walk t c b = Ret q.
Proof.
  revert cur. induction a as [|x a IH]; intros cur Hw; simpl in *; [by eauto|].
  case_decide; [by apply IH|]. case_decide; [by apply IH|].
  destruct (nodes t !! (cur ++ [x])) as [[bs|]|]; [|by apply IH|done].
  destruct a, b; simpl in *; try done. by eexists.
Qed.

(** Without a ".." component, resolution only goes down the tree. *)
Lemma walk_no_dotdot (t : tree) (cs cur q : list pystr) :
  Forall (fun c => c <> dotdot) cs -> walk t cur cs = Ret q -> cur `prefix_of` q.
Proof.
  intros Hcs. revert cur. induction Hcs as [|x cs Hx Hcs IH]; intros cur Hw; simpl in Hw.
  - by injection Hw as <-.
  - case_decide; [by apply IH|]. rewrite decide_False in Hw by done.
    destruct (nodes t !! (cur ++ [x])) as [[bs|]|]; [| |done].
    + destruct cs; [|done]. injection Hw as <-. by eexists.
    + transitivity (cur ++ [x]); [by eexists|]. by apply IH.
Qed.

Lemma tree_read_node (t : tree) (p : pystr) (b : bytes) :
  tree_read t p = Ret b -> exists q, resolve t p = Ret q /\ node_at t q = Some (NFile b).
Proof.
  unfold tree_read. py_unfold. destruct (resolve t p) as [q|]; [|done].
  simpl. destruct (node_at t q) as [[]|] eqn:E; intros; simplify_eq; eauto.
Qed.


(** C31: without a ".." component after [/static/reports/], a PDF that
    [serve_pdf] returns is a file of the reports directory or of one of
    its subdirectories: the only way out of it is "..". *)
Theorem serve_pdf_confined (t : tree) (base rest : pystr) (r : list pystr) (b : bytes) :
  base <> [] -> endswith base [slash] = false ->
  resolve t (reports_path base) = Ret r ->
  Forall (fun c => c <> dotdot) (split_sep slash rest) ->
  serve_pdf t base (reports_prefix ++ rest) = Ret (Some b) ->
  exists q, r `prefix_of` q /\ node_at t q = Some (NFile b).
Proof.
  intros Hb Hend Hr Hrest Hs. unfold serve_pdf in Hs. change (fs_read t) with (tree_read t) in Hs.
  destruct (tree_read t _) as [b'|[]] eqn:Hread; try discriminate. injection Hs as <-.
  destruct (tree_read_node _ _ _ Hread) as [q [Hq Hnode]]. exists q. split; [|done].
  revert Hq. unfold resolve. rewrite reports_prefix_eq, path_join_rel by (done || reflexivity).
  replace (split_sep slash _) with (split_sep slash (reports_path base) ++ split_sep slash rest)
    by (rewrite reports_path_split, !split_sep_app by done; by rewrite <- app_assoc).
  intros Hq. destruct (walk_app_ret _ _ _ _ _ Hq) as [c [Hc Hw]].
  unfold resolve in Hr. rewrite Hr in Hc. injection Hc as <-.
  by eapply walk_no_dotdot.
Qed.


(** ** Lemmas: directory listings *)

Lemma elem_of_children (t : tree) (d : list pystr) (x : pystr) :
  x ∈ children t d <-> is_Some (nodes t !! (d ++ [x])).
Proof.
  unfold children. rewrite list_elem_of_omap. split.
  - intros [[k n] [Hin Hf]]. apply elem_of_map_to_list in Hin.
    case_decide as Hc; [|done]. destruct Hc as [_ Hrl].
    apply last_Some in Hf as [l' ->]. rewrite removelast_last in Hrl. subst. eauto.
  - intros [n Hn]. exists (d ++ [x], n). split; [by apply elem_of_map_to_list|].
    rewrite decide_True; [apply last_snoc|]. split; [by destruct d|apply removelast_last].
Qed.

Lemma NoDup_children (t : tree) (d : list pystr) : NoDup (children t d).
Proof.
  apply NoDup_omap; [|apply NoDup_map_to_list].
  intros [k n] [k' n'] x Hk Hk'. apply elem_of_map_to_list in Hk, Hk'.
  case_decide as Hc; [|done]. case_decide as Hc'; [|done].
  destruct Hc as [_ Hrl], Hc' as [_ Hrl'].
  intros Hx Hx'. apply last_Some in Hx as [l ->], Hx' as [l' ->].
  rewrite removelast_last in Hrl, Hrl'. subst. congruence.
Qed.

(** C33: when the reports directory exists, [list_reports] returns, sorted
    and each once, exactly the names of its entries that end in ".pdf". *)
Theorem list_reports_tree (t : tree) (base : pystr) (q : list pystr) :
  resolve t (reports_path base) = Ret q -> node_at t q = Some NDir ->
  exists l, list_reports t base = Ret l /\ StronglySorted str_le l /\ NoDup l /\
    forall x, x ∈ l <-> is_Some (nodes t !! (q ++ [x])) /\ endswith x pdf_ext = true.
Proof.
  intros Hr Hq. unfold list_reports. change (fs_listdir t) with (tree_listdir t).
  unfold tree_listdir. py_unfold. rewrite Hr. cbn iota beta. rewrite Hq.
  eexists. split; [reflexivity|]. destruct (sort_spec (children t q)) as [Hs Hp].
  split; [|split].
  - apply StronglySorted_filter, Sorted_StronglySorted; [apply _|done].
  - apply NoDup_filter. rewrite Hp. apply NoDup_children.
  - intros x. rewrite list_elem_of_filter, Hp, elem_of_children. tauto.
Qed.

(** when the reports directory does not exist, the page lists no
    report: the [FileNotFoundError] of [os.listdir] gives [[]]. *)
Theorem list_reports_missing (t : tree) (base : pystr) :
  resolve t (reports_path base) = Raise FileNotFoundError -> list_reports t base = Ret [].
Proof.
  intros Hr. unfold list_reports. change (fs_listdir t) with (tree_listdir t).
  unfold tree_listdir. py_unfold. by rewrite Hr.
Qed.


(** C32: the prefix test of line 85 does not confine [serve_pdf]: on the
    demo tree, [/static/reports/../../../secret.pdf] reads [/srv/secret.pdf],
    a file outside the reports directory and outside the server's base
    directory. *)
Theorem serve_pdf_traversal :
  exists rest r q b,
    resolve demo (reports_path demo_base) = Ret r /\
    serve_pdf demo demo_base (reports_prefix ++ rest) = Ret (Some b) /\
    resolve demo (path_join demo_base (lstrip_char slash (reports_prefix ++ rest))) = Ret q /\
    node_at demo q = Some (NFile b) /\
    ~ r `prefix_of` q /\ ~ split_sep slash demo_base `prefix_of` ([] :: q).
Proof.
  exists (Utf8.lit "../../../secret.pdf"). do 3 eexists.
  split; [vm_compute; reflexivity|]. split; [vm_compute; reflexivity|].
  split; [vm_compute; reflexivity|]. split; [vm_compute; reflexivity|].
  split; apply (bool_decide_unpack _); vm_compute; reflexivity.
Qed.

(** ** Examples on the demo tree *)

Ltac fs_witness_tac :=
  first [ reflexivity | vm_compute; reflexivity | vm_compute; discriminate
        | apply (bool_decide_unpack _); vm_compute; reflexivity ].

Lemma serve_pdf_confined_witness :
  exists q, [Utf8.lit "srv"; Utf8.lit "app"; static_dir; reports_dir] `prefix_of` q /\
            node_at demo q = Some (NFile [37; 80]).
Proof.
  apply (serve_pdf_confined demo demo_base (Utf8.lit "a.pdf")); fs_witness_tac.
Defined.

Lemma list_reports_tree_witness :
  exists l, list_reports demo demo_base = Ret l /\ StronglySorted str_le l /\ NoDup l /\
    forall x, x ∈ l <-> is_Some (nodes demo !! ([Utf8.lit "srv"; Utf8.lit "app"; static_dir; reports_dir] ++ [x])) /\
                      endswith x pdf_ext = true.
Proof. apply list_reports_tree; fs_witness_tac. Defined.

Lemma list_reports_missing_witness : list_reports demo (Utf8.lit "/srv") = Ret [].
Proof. apply list_reports_missing. fs_witness_tac. Defined.

End Tree.

End Fs.
