(* ===== verification/Page.v ===== *)
(** * The index page ([create_group_page], src/server.py 169-257)

    The page is an f-string with two holes: the list of reports, one
    [<li><a href="/static/reports/NAME">NAME</a></li>] per name returned by
    [list_reports] (lines 172-175), and the history, one block per entry,
    newest first, with the request and the response passed through
    [html.escape] (lines 182-196).  The template texts below are the
    source's, character for character (doubled braces undoubled); [dq] is
    the double quote.  The debug [print] calls (171, 176, 179) are not
    modelled. *)

From Stdlib Require Import ZArith String.
From stdpp Require Import base list.
From S2P Require Import Prelude Utf8 PyStr History Fs.

Local Open Scope Z_scope.

Module Page.

Import PyStr History Fs.

Definition dq : pystr := [34].

(** ** The templates *)

Definition entry_part1 : pystr :=
  Utf8.lit "
                <div class=" ++
  dq ++
  Utf8.lit "request-response" ++
  dq ++
  Utf8.lit ">
                    <div class=" ++
  dq ++
  Utf8.lit "request" ++
  dq ++
  Utf8.lit ">
                        <h3>Запрос:</h3>
                        <pre>".

Definition entry_part2 : pystr :=
  Utf8.lit "</pre>
                    </div>
                    <div class=" ++
  dq ++
  Utf8.lit "response" ++
  dq ++
  Utf8.lit ">
                        <h3>Ответ:</h3>
                        <pre>".

Definition entry_part3 : pystr :=
  Utf8.lit "</pre>
                    </div>
                </div>
                ".

Definition page_part1 : pystr :=
  Utf8.lit "
                <!DOCTYPE html>
                <html lang=" ++
  dq ++
  Utf8.lit "ru" ++
  dq ++
  Utf8.lit ">
                <head>
                    <meta charset=" ++
  dq ++
  Utf8.lit "UTF-8" ++
  dq ++
  Utf8.lit ">
                    <title>Группа ПМИМ-31</title>
                    <style>
                        body { 
                            font-family: Arial, sans-serif; 
                            max-width: 1200px; 
                            margin: 0 auto; 
                            padding: 20px; 
                            line-height: 1.6; 
                        }
                        h1, h2 { color: #333; text-align: center; }
                        .members, .reports, .request-history { 
                            background-color: #f4f4f4; 
                            padding: 15px; 
                            border-radius: 5px;
                            margin-bottom: 20px; 
                        }
                        a { color: #0066cc; text-decoration: none; }
                        a:hover { text-decoration: underline; }
                        .request-response {
                            border: 1px solid #ddd;
                            margin-bottom: 10px;
                            padding: 10px;
                        }
                        pre {
                            background-color: #e9e9e9;
                            padding: 10px;
                            border-radius: 5px;
                            white-space: pre-wrap;
                            word-wrap: break-word;
                            font-size: 0.8em;
                        }
                    </style>
                </head>
                <body>
                    <h1>Группа ПМИМ-31</h1>
                    <div class=" ++
  dq ++
  Utf8.lit "members" ++
  dq ++
  Utf8.lit ">
                        <h2>Состав бригады:</h2>
                        <ul>
                            <li>Тарулин М.А.</li>
                            <li>Холодова В.С.</li>
                        </ul>
                    </div>
                    <div class=" ++
  dq ++
  Utf8.lit "reports" ++
  dq ++
  Utf8.lit ">
                        <h2>Отчеты:</h2>
                        <ul>
                            ".

Definition page_part2 : pystr :=
  Utf8.lit "
                        </ul>
                    </div>
                    <div class=" ++
  dq ++
  Utf8.lit "request-history" ++
  dq ++
  Utf8.lit ">
                        <h2>История запросов и ответов:</h2>
                        ".

Definition page_part3 : pystr :=
  Utf8.lit "
                    </div>
                </body>
                </html>
                ".

(** ** The page *)

(** One item of [reports_html] (line 173). *)
Definition anchor (report : pystr) : pystr :=
  Utf8.lit "<li><a href=" ++ dq ++ Utf8.lit "/static/reports/" ++ report ++ dq ++
  Utf8.lit ">" ++ report ++ Utf8.lit "</a></li>".

Definition reports_html (reports : list pystr) : pystr := mjoin (map anchor reports).

(** One block of [requests_history_html] (lines 183-194). *)
Definition entry_html (record : entry) : pystr :=
  entry_part1 ++ html_escape (request record) ++ entry_part2 ++
  html_escape (response record) ++ entry_part3.

(** [''.join(... for record in reversed(self.request_history))] *)
Definition requests_history_html (h : list entry) : pystr :=
  mjoin (map entry_html (rev h)).

Definition render (reports : list pystr) (h : list entry) : pystr :=
  page_part1 ++ reports_html reports ++ page_part2 ++ requests_history_html h ++ page_part3.

(** The attribute [href="/static/reports/NAME"] of the link of a listed
    report, which a browser follows as the request path. *)
Definition report_href (report : pystr) : pystr :=
  Utf8.lit "href=" ++ dq ++ reports_prefix ++ report ++ dq.

(** Every report of the list is linked from the page, by its name as it is. *)
Lemma render_report_href (reports : list pystr) (h : list entry) (report : pystr) :
  report ∈ reports -> exists k1 k2, render reports h = k1 ++ report_href report ++ k2.
Proof.
  intros (r1 & r2 & ->)%list_elem_of_split.
  exists (page_part1 ++ mjoin (map anchor r1) ++ Utf8.lit "<li><a "),
         (Utf8.lit ">" ++ report ++ Utf8.lit "</a></li>" ++ mjoin (map anchor r2) ++
          page_part2 ++ requests_history_html h ++ page_part3).
  unfold render, reports_html, report_href. rewrite map_app, join_app. cbn [map mjoin list_join].
  unfold anchor. change (Utf8.lit "<li><a href=") with (Utf8.lit "<li><a " ++ Utf8.lit "href=").
  change (Utf8.lit "/static/reports/") with reports_prefix. by rewrite <- !app_assoc.
Qed.

Section WithFs.
Context {F : Type} `{FileSystem F}.

(** [create_group_page()]: the errors of [list_reports] other than
    [FileNotFoundError] propagate. *)
Definition create_group_page (fs : F) (base_dir : pystr) (h : list entry) : res pystr :=
  reports ← list_reports fs base_dir;
  Ret (render reports h).

Lemma create_group_page_os_error (fs : F) (base_dir : pystr) (h : list entry) (e : pyexc) :
  create_group_page fs base_dir h = Raise e -> is_os_error e = true.
Proof.
  unfold create_group_page. py_unfold.
  destruct (list_reports fs base_dir) eqn:E; [done|]. intros [= <-].
  by eapply list_reports_os_error.
Qed.

End WithFs.


(** ** Lemmas: the markup of the page *)

Lemma html_escape_markup (s : pystr) : count_if markup_char (html_escape s) = 0%nat.
Proof. apply count_if_none, html_escape_safe. Qed.

Lemma entry_html_markup (e : entry) :
  count_if markup_char (entry_html e) = count_if markup_char (entry_html (mk_entry [] [])).
Proof.
  unfold entry_html. autorewrite with pyweb_rw. rewrite !html_escape_markup. done.
Qed.

Lemma requests_history_html_markup (h : list entry) :
  count_if markup_char (requests_history_html h) =
    (length h * count_if markup_char (entry_html (mk_entry [] [])))%nat.
Proof.
  unfold requests_history_html. rewrite <- length_rev.
  induction (rev h) as [|e l IH]; [done|].
  change (mjoin (map entry_html (e :: l))) with (entry_html e ++ mjoin (map entry_html l)).
  rewrite count_if_app, entry_html_markup, IH. cbn [length]. lia.
Qed.

(** The first part of the template holds Cyrillic letters, two bytes each. *)
Lemma page_part1_longer :
  exists b, Utf8.encode page_part1 = Ret b /\ (length page_part1 < length b)%nat.
Proof. eexists. split; [vm_compute; reflexivity|]. apply Nat.ltb_lt. vm_compute. reflexivity. Qed.

(** C36: the history adds to the page the markup of its blocks and nothing
    else: whatever the requests and responses hold, each entry brings the
    characters less-than, greater-than, double and single quote of an
    empty block, so that a request
    cannot inject a tag or an attribute into the page. *)
Theorem render_markup (reports : list pystr) (h : list entry) :
  count_if markup_char (render reports h) =
    (count_if markup_char (render reports []) +
     length h * count_if markup_char (entry_html (mk_entry [] [])))%nat.
Proof.
  unfold render. autorewrite with pyweb_rw.
  rewrite requests_history_html_markup. simpl. lia.
Qed.

Lemma anchor_markup (r : pystr) :
  count_if markup_char (anchor r) =
    (count_if markup_char (anchor []) + 2 * count_if markup_char r)%nat.
Proof.
  unfold anchor. autorewrite with pyweb_rw.
  change (count_if markup_char []) with 0%nat. lia.
Qed.

Lemma reports_html_markup (reports : list pystr) :
  count_if markup_char (reports_html reports) =
    (length reports * count_if markup_char (anchor []) +
     2 * count_if markup_char (mjoin reports))%nat.
Proof.
  unfold reports_html. induction reports as [|r rs IH]; [done|].
  change (mjoin (map anchor (r :: rs))) with (anchor r ++ mjoin (map anchor rs)).
  change (mjoin (r :: rs)) with (r ++ mjoin rs).
  rewrite !count_if_app, anchor_markup, IH. cbn [length]. lia.
Qed.

(** C35: report names reach the page unescaped, twice each (in [href] and
    in the text of the link, line 173): every markup character of a file
    name in the reports directory is a markup character of the page. *)
Theorem render_reports_markup (reports : list pystr) (h : list entry) :
  count_if markup_char (render reports h) =
    (count_if markup_char (render [] h) + length reports * count_if markup_char (anchor []) +
     2 * count_if markup_char (mjoin reports))%nat.
Proof.
  unfold render. autorewrite with pyweb_rw. rewrite reports_html_markup. simpl. lia.
Qed.

(** The page is longer in UTF-8 bytes than in characters. *)
Lemma render_longer (reports : list pystr) (h : list entry) (bs : bytes) :
  Utf8.encode (render reports h) = Ret bs -> (length (render reports h) < length bs)%nat.
Proof.
  unfold render. intros Hbs.
  destruct (Utf8.encode_app_inv _ _ _ Hbs) as [b1 [b2 [H1 [H2 ->]]]].
  destruct page_part1_longer as [b [Hb Hlt]]. rewrite Hb in H1. injection H1 as <-.
  pose proof (Utf8.encode_not_shorter _ _ H2). rewrite !length_app in *. lia.
Qed.

End Page.
