(* ===== verification/Handler.v ===== *)
(** * The connection handler ([handle_client], src/server.py 36-130)

    [handle_client] runs in its own thread for one accepted connection.
    Its state is the client socket, the shared history and the log of the
    exceptions it catches (the [print] of line 125); it reads the file
    system through [Fs.FileSystem].  It is modelled in the monad [PY world]
    of the prelude: every statement that changes state is an operation of
    the monad, and an exception keeps the effects that came before it.

    The socket records the byte strings written by [sendall], whether it
    is closed, and how many times [close()] was called; [peer_ok] says
    whether the client still accepts data (a [sendall] to a peer that has
    gone raises [BrokenPipeError]).  [recv(1024)] is modelled as the first
    1024 bytes of what the client sent, in one segment. *)

From Stdlib Require Import ZArith String.
From stdpp Require Import base list.
From S2P Require Import Prelude Utf8 PyStr History Fs Page.

Local Open Scope Z_scope.

Module Handler.

Import PyStr History Fs Page.

(** ** State *)

Record sock := mk_sock {
  sent : list bytes;
  closed : bool;
  close_calls : nat;
  peer_ok : bool
}.

Record world := mk_world {
  w_hist : list entry;
  w_sock : sock;
  w_log : list pyexc
}.

Abbreviation M := (PY world).

(** ** Socket and history operations *)

(** [client_socket.recv(n)] *)
Definition recv (n : nat) (data : bytes) : bytes := firstn n data.

(** [client_socket.sendall(b)] *)
Definition sendall (b : bytes) : M unit := fun w =>
  let s := w_sock w in
  if closed s then (Raise OSError, w)
  else if peer_ok s then
    (Ret tt, mk_world (w_hist w) (mk_sock (sent s ++ [b]) false (close_calls s) true) (w_log w))
  else (Raise BrokenPipeError, w).

(** [client_socket.close()] *)
Definition close : M unit := fun w =>
  let s := w_sock w in
  (Ret tt, mk_world (w_hist w) (mk_sock (sent s) true (S (close_calls s)) (peer_ok s)) (w_log w)).

(** The [finally] block (lines 129-130). *)
Definition close_if_open : M unit := fun w =>
  if closed (w_sock w) then (Ret tt, w) else close w.

(** [self.add_to_request_history(request, response)] *)
Definition add_history (req resp : pystr) : M unit :=
  py_modify (fun w => mk_world (Sequential.add_to_request_history req resp (w_hist w))
                               (w_sock w) (w_log w)).

(** The [print] of the [except Exception] handler (line 125). *)
Definition log_exc (e : pyexc) : M unit :=
  py_modify (fun w => mk_world (w_hist w) (w_sock w) (w_log w ++ [e])).

(** [s.encode('utf-8')] inside the handler. *)
Definition encode (s : pystr) : M bytes := py_lift (Utf8.encode s).

(** Reading the local [response], unbound on one path. *)
Definition read_local (r : option pystr) : M pystr :=
  match r with Some s => mret s | None => py_raise UnboundLocalError end.

(** ** The responses *)

Definition crlf : pystr := [13; 10].

Definition resp_400 : pystr :=
  Utf8.lit "HTTP/1.1 400 Bad Request" ++ crlf ++ Utf8.lit "Content-Type: text/plain" ++
  crlf ++ crlf ++ Utf8.lit "Неверный формат запроса".

Definition resp_favicon : pystr :=
  Utf8.lit "HTTP/1.1 404 Not Found" ++ crlf ++
  Utf8.lit "Content-Type: text/plain; charset=utf-8" ++ crlf ++ crlf ++
  Utf8.lit "Favicon not found".

(** The header of the 200 response of line 78-84, with [len(response_body)]
    as [n]. *)
Definition resp_index_head (n : nat) : pystr :=
  Utf8.lit "HTTP/1.1 200 OK" ++ crlf ++ Utf8.lit "Server: ПМИМ-31 Web Server" ++ crlf ++
  Utf8.lit "Content-Type: text/html; charset=utf-8" ++ crlf ++
  Utf8.lit "Content-Length: " ++ str_of_nat n ++ crlf ++ crlf.

Definition resp_index (body : pystr) : pystr := resp_index_head (length body) ++ body.

Definition resp_pdf_head (n : nat) : pystr :=
  Utf8.lit "HTTP/1.1 200 OK" ++ crlf ++ Utf8.lit "Content-Type: application/pdf" ++ crlf ++
  Utf8.lit "Content-Length: " ++ str_of_nat n ++ crlf ++ crlf.

Definition resp_404 : pystr :=
  Utf8.lit "HTTP/1.1 404 Not Found" ++ crlf ++
  Utf8.lit "Content-Type: text/plain; charset=utf-8" ++ crlf ++ crlf ++
  Utf8.lit "Файл не найден".

Definition resp_405 : pystr :=
  Utf8.lit "HTTP/1.1 405 Method Not Allowed" ++ crlf ++ Utf8.lit "Content-Type: text/plain" ++
  crlf ++ crlf ++ Utf8.lit "Метод не поддерживается".

Definition pdf_sent : pystr := Utf8.lit "PDF file sent".

Definition method_get : pystr := Utf8.lit "GET".
Definition path_root : pystr := Utf8.lit "/".
Definition path_favicon : pystr := Utf8.lit "/favicon.ico".

(** ** Parsing (lines 47-51) *)

(** [request.split('\n')[0].strip()], then [method, path, protocol =
    request_line.split()] (a [ValueError] unless there are exactly three
    words), then [urllib.parse.unquote(path)]. *)
Definition parse_request_line (request : pystr) : res (pystr * pystr * pystr) :=
  let request_line := strip (hd [] (split_sep newline request)) in
  match split_ws request_line with
  | [method; path; protocol] => Ret (method, unquote path, protocol)
  | _ => Raise ValueError
  end.

(** ** The handler *)

(** How the [if method == 'GET'] block ends: by [return] after sending
    the PDF, or by falling through with [response] bound or unbound. *)
Inductive flow := Returned | Respond (response : option pystr).

Section WithFs.
Context {F : Type} `{FileSystem F}.
Context (fs : F) (base_dir : pystr).

(** Lines 89-98: the PDF is sent after its header, recorded, and the
    socket closed before [return]. *)
Definition send_pdf (request : pystr) (b : bytes) : M flow :=
  head ← encode (resp_pdf_head (length b));
  sendall head;;
  sendall b;;
  add_history request pdf_sent;;
  close;;
  mret Returned.

(** Lines 74-112. *)
Definition route (request method path : pystr) : M flow :=
  if decide (method = method_get) then
    if decide (path = path_root) then
      w ← py_get;
      response_body ← py_lift (create_group_page fs base_dir (w_hist w));
      mret (Respond (Some (resp_index response_body)))
    else if startswith path reports_prefix then
      response_body ← py_lift (serve_pdf fs base_dir path);
      match response_body with
      | Some ((_ :: _) as b) => send_pdf request b
      | _ => mret (Respond (Some resp_404))
      end
    else mret (Respond None)
  else mret (Respond (Some resp_405)).

(** Lines 40-122: the body of the outer [try]. *)
Definition handle_body (data : bytes) : M unit :=
  request ← py_lift (Utf8.decode Utf8.Strict (recv 1024 data));
  parsed ← py_try is_value_error (Some <$> py_lift (parse_request_line request))
             (fun _ => mret None);
  match parsed with
  | None =>
      b ← encode resp_400;
      sendall b;;
      add_history request resp_400
  | Some (method, path, _) =>
      if decide (path = path_favicon) then
        b ← encode resp_favicon;
        sendall b
      else
        fl ← route request method path;
        match fl with
        | Returned => mret tt
        | Respond r =>
            response ← read_local r;
            add_history request response;;
            b ← encode response;
            sendall b
        end
  end.

(** [handle_client(client_socket, client_address)]: the body, its
    [except Exception] and its [finally]. *)
Definition handle_client (data : bytes) : M unit :=
  py_finally (py_try is_exception (handle_body data) log_exc) close_if_open.

End WithFs.



(** A fresh connection: nothing sent, open, never closed. *)
Definition fresh_sock (ok : bool) : sock := mk_sock [] false 0 ok.

(** ** Observations *)

(** The text the handler works on: the first chunk, decoded. *)
Definition request_of (data : bytes) : res pystr :=
  Utf8.decode Utf8.Strict (recv 1024 data).

(** The bytes of a response that encodes. *)
Definition encoded (s : pystr) : bytes :=
  match Utf8.encode s with Ret b => b | Raise _ => [] end.

(** The world after a handler that wrote [more], left the history [h],
    logged [logged], and closed the socket once. *)
Definition after (w : world) (more : list bytes) (h : list entry) (logged : list pyexc) : world :=
  mk_world h (mk_sock (sent (w_sock w) ++ more) true (S (close_calls (w_sock w)))
                      (peer_ok (w_sock w)))
           (w_log w ++ logged).

(** What reaches the client of a [sendall] of [bs]: all of it when the
    peer is there, nothing when it has gone. *)
Definition sent_if (ok : bool) (bs : list bytes) : list bytes := if ok then bs else [].

(** What [except Exception] logs when the peer of a [sendall] has gone. *)
Definition broken_if (ok : bool) : list pyexc := if ok then [] else [BrokenPipeError].

(** ** Lemmas: the constant responses encode *)

Lemma encode_resp_favicon : Utf8.encode resp_favicon = Ret (encoded resp_favicon).
Proof. vm_compute. reflexivity. Qed.

(** ** Lemmas: the socket is closed at most once *)

(** Open and never closed, or closed by one call. *)
Definition closed_once (w : world) : Prop :=
  (closed (w_sock w) = false /\ close_calls (w_sock w) = 0%nat) \/
  (closed (w_sock w) = true /\ close_calls (w_sock w) = 1%nat).

Lemma sendall_closed_once (b : bytes) : preserves closed_once (sendall b).
Proof. intros [h [snt [] cc []] lg]; unfold sendall; simpl; auto. Qed.

Lemma add_history_closed_once (req resp : pystr) : preserves closed_once (add_history req resp).
Proof. apply preserves_modify. by intros [h [snt cl cc ok] lg]. Qed.

Lemma log_exc_closed_once (e : pyexc) : preserves closed_once (log_exc e).
Proof. apply preserves_modify. by intros [h [snt cl cc ok] lg]. Qed.

Lemma read_local_closed_once (r : option pystr) : preserves closed_once (read_local r).
Proof. destruct r; by intros s. Qed.

(** The PDF branch closes the socket after writing to it, so it is open
    when [close()] is called. *)
Lemma pdf_block_closed_once (b : bytes) (req : pystr) :
  preserves closed_once
    (sendall b;; add_history req pdf_sent;; close;; mret Returned).
Proof.
  intros [h [snt [] cc ok] lg] Hw; unfold closed_once in *; simpl in *;
    unfold sendall; py_unfold; simpl; [done|].
  destruct ok; simpl; [|done]. destruct Hw as [[_ ->]|[? _]]; [|done]. by right.
Qed.

#[export] Hint Resolve sendall_closed_once add_history_closed_once log_exc_closed_once
  read_local_closed_once : pyweb.

Lemma send_pdf_closed_once (fs_req : pystr) (b : bytes) : preserves closed_once (send_pdf fs_req b).
Proof.
  unfold send_pdf, encode. apply preserves_bind; [auto with pyweb|intros head].
  apply preserves_bind; [auto with pyweb|intros _]. apply pdf_block_closed_once.
Qed.


Lemma reports_prefix_not_root (path : pystr) :
  startswith path reports_prefix = true -> path <> path_root /\ path <> path_favicon.
Proof. intros Hp. split; intros ->; vm_compute in Hp; discriminate. Qed.



Lemma parse_value_error_raise (request : pystr) (e : pyexc) :
  parse_request_line request = Raise e -> e = ValueError.
Proof.
  unfold parse_request_line. by repeat case_match; intros [= <-].
Qed.

(** Run the handler up to the parse of the request line. *)
Ltac handler_start Hreq :=
  unfold handle_client, handle_body, request_of in *; py_unfold; rewrite Hreq; cbv iota beta.

(** Run the remaining statements and compare the worlds. *)
Ltac handler_finish :=
  unfold read_local, add_history, encode, sendall, close_if_open, close, log_exc, after;
  py_unfold; cbv iota beta zeta.

Ltac handler_close Hcl Hok :=
  simpl; rewrite ?Hcl, ?Hok; simpl; rewrite ?Hcl, ?Hok, ?app_nil_r; reflexivity.

(** ** Lemmas: the history keeps at most 50 entries *)

Definition bounded (w : world) : Prop := (length (w_hist w) <= capacity)%nat.

Lemma sendall_bounded (b : bytes) : preserves bounded (sendall b).
Proof. intros w. unfold sendall. by repeat case_match. Qed.

Lemma close_bounded : preserves bounded close.
Proof. by intros w. Qed.

Lemma close_if_open_bounded : preserves bounded close_if_open.
Proof. intros w Hw. unfold close_if_open, close. by repeat case_match. Qed.

Lemma log_exc_bounded (e : pyexc) : preserves bounded (log_exc e).
Proof. by apply preserves_modify. Qed.

Lemma add_history_bounded (req resp : pystr) : preserves bounded (add_history req resp).
Proof.
  apply preserves_modify. unfold bounded. intros w Hw. simpl.
  rewrite Sequential.add_length. case_decide; [done|]. unfold capacity in *. lia.
Qed.

Lemma read_local_bounded (r : option pystr) : preserves bounded (read_local r).
Proof. destruct r; by intros w. Qed.

#[export] Hint Resolve sendall_bounded close_bounded close_if_open_bounded log_exc_bounded
  add_history_bounded read_local_bounded : pyweb.

(** ** Lemmas: the handler raises only [Exception]s *)

Abbreviation exception := (fun e => is_exception e = true).

Lemma os_error_exception (e : pyexc) : is_os_error e = true -> is_exception e = true.
Proof. by destruct e. Qed.

Lemma sendall_raises (b : bytes) : raises_only exception (sendall b).
Proof. intros w e w'. unfold sendall. repeat case_match; by intros [= <- _]. Qed.

Lemma close_raises : raises_only exception close.
Proof. by intros w e w'. Qed.

Lemma encode_exception (s : pystr) : raises_only exception (encode s).
Proof. apply raises_only_lift. intros e He. by rewrite (Utf8.encode_raises s e He). Qed.

Lemma read_local_raises (r : option pystr) : raises_only exception (read_local r).
Proof. destruct r; [apply raises_only_ret|by apply raises_only_raise]. Qed.

#[export] Hint Resolve sendall_raises close_raises encode_exception read_local_raises : pyweb.

Section Routes.
Context {F : Type} `{FileSystem F}.
Context (fs : F) (base_dir : pystr).

Lemma route_raises (request method path : pystr) :
  raises_only exception (route fs base_dir request method path).
Proof.
  unfold route, send_pdf, add_history. raises_split; auto with pyweb;
    apply raises_only_lift; intros ex Hex; apply os_error_exception;
    eauto using create_group_page_os_error, serve_pdf_os_error.
Qed.

Lemma handle_body_raises (data : bytes) : raises_only exception (handle_body fs base_dir data).
Proof.
  unfold handle_body, add_history. raises_split; auto using route_raises with pyweb.
  - apply raises_only_lift. intros ex Hex. by rewrite (Utf8.decode_raises _ _ _ Hex).
  - apply raises_only_lift. intros ex Hex. by apply parse_value_error_raise in Hex as ->.
Qed.

Lemma route_closed_once (request method path : pystr) :
  preserves closed_once (route fs base_dir request method path).
Proof.
  unfold route. preserves_split; auto using send_pdf_closed_once with pyweb.
Qed.

Lemma handle_body_closed_once (data : bytes) :
  preserves closed_once (handle_body fs base_dir data).
Proof.
  unfold handle_body, encode. preserves_split; auto using route_closed_once with pyweb.
Qed.

(** A handler run on a history of at most 50 entries leaves at most 50,
    whatever the request, the file system and the client do. *)
Lemma handle_client_bounded (data : bytes) : preserves bounded (handle_client fs base_dir data).
Proof.
  unfold handle_client, handle_body, route, send_pdf, encode.
  preserves_split; auto with pyweb.
Qed.

Lemma recv_app (data rest : bytes) :
  length data = 1024%nat -> recv 1024 (data ++ rest) = recv 1024 data.
Proof.
  intros Hlen. unfold recv. rewrite firstn_app, Hlen, Nat.sub_diag. simpl.
  rewrite app_nil_r, <- Hlen. by rewrite firstn_all.
Qed.

(** C12: only the first 1024 bytes a client sends count ([recv(1024)] of
    line 40, read once): whatever follows them, the handler does the same
    thing, with the same effects on the socket, the history and the log. *)
Theorem handle_client_truncates (data rest : bytes) (w : world) :
  length data = 1024%nat ->
  handle_client fs base_dir (data ++ rest) w = handle_client fs base_dir data w.
Proof.
  intros Hlen. unfold handle_client, handle_body. by rewrite (recv_app data rest Hlen).
Qed.

(** C1: every run of the handler returns normally and ends with the
    client socket closed by exactly one call of [close()]: the guard of
    the [finally] block prevents a second close after the PDF path. *)
Theorem handle_client_closes_once (data : bytes) (w : world) :
  closed (w_sock w) = false -> close_calls (w_sock w) = 0%nat ->
  fst (handle_client fs base_dir data w) = Ret tt /\
  closed (w_sock (snd (handle_client fs base_dir data w))) = true /\
  close_calls (w_sock (snd (handle_client fs base_dir data w))) = 1%nat.
Proof.
  intros Hcl Hcc.
  assert (closed_once (snd (py_try is_exception (handle_body fs base_dir data) log_exc w))) as Hb.
  { apply preserves_try; auto using handle_body_closed_once with pyweb. left; done. }
  unfold handle_client, py_finally, close_if_open.
  destruct (py_try _ _ _ w) as [r w'] eqn:E. simpl in Hb.
  assert (r = Ret tt) as ->.
  { revert E. unfold py_try. destruct (handle_body fs base_dir data w) as [[[]|e] w1] eqn:Eb.
    - by intros [= <- _].
    - rewrite (handle_body_raises data w e w1 Eb).
      unfold log_exc, py_modify. by intros [= <- _]. }
  destruct Hb as [[Hc1 Hc2]|[Hc1 Hc2]]; rewrite Hc1; simpl; [rewrite Hc2|]; auto.
Qed.



(** C6: a request for [/favicon.ico], whatever its method, gets the 404
    favicon response (lines 63-71) and is never recorded in the history,
    whether the client is still there or has gone ([BrokenPipeError] is
    then logged). *)
Theorem handle_favicon (data : bytes) (w : world) (request method proto : pystr) :
  closed (w_sock w) = false ->
  request_of data = Ret request ->
  parse_request_line request = Ret (method, path_favicon, proto) ->
  snd (handle_client fs base_dir data w) =
    after w (sent_if (peer_ok (w_sock w)) [encoded resp_favicon]) (w_hist w)
          (broken_if (peer_ok (w_sock w))).
Proof.
  intros Hcl Hreq Hparse. destruct (peer_ok (w_sock w)) eqn:Hok;
  handler_start Hreq; rewrite Hparse; rewrite (decide_True _ _ eq_refl); handler_finish;
  rewrite encode_resp_favicon; handler_close Hcl Hok.
Qed.





(** C8: a GET for any other path leaves [response] unbound: [print(response)]
    raises [UnboundLocalError], nothing is sent, nothing is recorded, and
    the connection is closed. *)
Theorem handle_unmatched (data : bytes) (w : world) (request path proto : pystr) :
  closed (w_sock w) = false ->
  request_of data = Ret request ->
  parse_request_line request = Ret (method_get, path, proto) ->
  path <> path_favicon -> path <> path_root -> startswith path reports_prefix = false ->
  snd (handle_client fs base_dir data w) = after w [] (w_hist w) [UnboundLocalError].
Proof.
  intros Hcl Hreq Hparse Hfav Hroot Hpre. handler_start Hreq. rewrite Hparse.
  rewrite (decide_False _ _ Hfav). unfold route. rewrite (decide_True _ _ eq_refl).
  rewrite (decide_False _ _ Hroot), Hpre. handler_finish.
  simpl; rewrite ?Hcl; simpl; by rewrite ?app_nil_r.
Qed.

(** C9: a first chunk that is not valid UTF-8 raises [UnicodeDecodeError]
    outside the parsing [try]: no response at all is sent, nothing is
    recorded, and the connection is closed. *)
Theorem handle_undecodable (data : bytes) (w : world) (e : pyexc) :
  closed (w_sock w) = false -> request_of data = Raise e ->
  snd (handle_client fs base_dir data w) = after w [] (w_hist w) [e].
Proof.
  intros Hcl Hreq. unfold request_of in Hreq.
  pose proof (Utf8.decode_raises _ _ _ Hreq) as ->. handler_start Hreq. handler_finish.
  simpl; rewrite ?Hcl; simpl; by rewrite ?app_nil_r.
Qed.

(** C10: an error of [open] other than [FileNotFoundError] (a directory, a
    path through a file) escapes [serve_pdf]: no response is sent and
    nothing is recorded. *)
Theorem handle_pdf_error (data : bytes) (w : world) (request path proto : pystr) (e : pyexc) :
  closed (w_sock w) = false ->
  request_of data = Ret request ->
  parse_request_line request = Ret (method_get, path, proto) ->
  startswith path reports_prefix = true ->
  serve_pdf fs base_dir path = Raise e ->
  snd (handle_client fs base_dir data w) = after w [] (w_hist w) [e].
Proof.
  intros Hcl Hreq Hparse Hpre Hpdf.
  pose proof (os_error_exception _ (serve_pdf_os_error _ _ _ _ Hpdf)) as Hex.
  handler_start Hreq. rewrite Hparse.
  destruct (reports_prefix_not_root _ Hpre) as [Hroot Hfav].
  rewrite (decide_False _ _ Hfav). unfold route. rewrite (decide_True _ _ eq_refl).
  rewrite (decide_False _ _ Hroot), Hpre. py_unfold. rewrite Hpdf.
  handler_finish. rewrite Hex. simpl; rewrite ?Hcl; simpl; by rewrite ?app_nil_r.
Qed.

(** C11: the [Content-Length] of the 200 response to [GET /] is
    [len(response_body)], the number of characters of the page, while the
    body sent after the header is its UTF-8 encoding, which is strictly
    longer (the page holds Cyrillic text): a client that trusts the header
    reads a truncated page. *)
Theorem index_content_length (h : list entry) (body : pystr) (bs : bytes) :
  create_group_page fs base_dir h = Ret body -> Utf8.encode (resp_index body) = Ret bs ->
  exists hb bb, bs = hb ++ bb /\ Utf8.encode (resp_index_head (length body)) = Ret hb /\
    Utf8.encode body = Ret bb /\ (length body < length bb)%nat.
Proof.
  unfold create_group_page. py_unfold.
  destruct (list_reports fs base_dir) as [reports|]; intros Hpage; [|done].
  injection Hpage as <-. intros Hbs.
  destruct (Utf8.encode_app_inv _ _ _ Hbs) as [hb [bb [Hh [Hb ->]]]].
  exists hb, bb. repeat split; [done|done|]. by apply render_longer.
Qed.



End Routes.

(** ** Witnesses on the demo tree *)

Import Fs.Tree.

Definition demo_world (ok : bool) : world := mk_world [] (fresh_sock ok) [].

Ltac witness_tac :=
  first [ reflexivity | vm_compute; reflexivity | vm_compute; discriminate
        | vm_compute; lia | left; vm_compute; reflexivity ].






Lemma handle_favicon_witness :
  snd (handle_client demo demo_base (ascii_bytes "GET /favicon.ico HTTP/1.1")
         (demo_world true)) =
  after (demo_world true) [encoded resp_favicon] [] [].
Proof.
  apply (handle_favicon demo demo_base _ (demo_world true)
           (Utf8.lit "GET /favicon.ico HTTP/1.1") (Utf8.lit "GET") (Utf8.lit "HTTP/1.1"));
    witness_tac.
Defined.

Lemma handle_unmatched_witness :
  snd (handle_client demo demo_base (ascii_bytes "GET /index.html HTTP/1.1")
         (demo_world true)) =
  after (demo_world true) [] [] [UnboundLocalError].
Proof.
  apply (handle_unmatched demo demo_base _ (demo_world true)
           (Utf8.lit "GET /index.html HTTP/1.1") (Utf8.lit "/index.html") (Utf8.lit "HTTP/1.1"));
    witness_tac.
Defined.

Lemma handle_undecodable_witness :
  snd (handle_client demo demo_base [71; 69; 84; 32; 47; 255] (demo_world true)) =
  after (demo_world true) [] [] [UnicodeDecodeError].
Proof. eapply (handle_undecodable demo demo_base _ (demo_world true)); witness_tac. Defined.

Lemma handle_pdf_error_witness :
  snd (handle_client demo demo_base (ascii_bytes "GET /static/reports/ HTTP/1.1")
         (demo_world true)) =
  after (demo_world true) [] [] [IsADirectoryError].
Proof.
  apply (handle_pdf_error demo demo_base _ (demo_world true)
           (Utf8.lit "GET /static/reports/ HTTP/1.1") (Utf8.lit "/static/reports/") (Utf8.lit "HTTP/1.1"));
    witness_tac.
Defined.

Lemma index_content_length_witness :
  exists hb bb,
    encoded (resp_index (render (map Utf8.lit ["a.pdf"; "b.pdf"; "empty.pdf"]%string) [])) =
      hb ++ bb /\
    Utf8.encode (resp_index_head
      (length (render (map Utf8.lit ["a.pdf"; "b.pdf"; "empty.pdf"]%string) []))) = Ret hb /\
    Utf8.encode (render (map Utf8.lit ["a.pdf"; "b.pdf"; "empty.pdf"]%string) []) = Ret bb /\
    (length (render (map Utf8.lit ["a.pdf"; "b.pdf"; "empty.pdf"]%string) []) < length bb)%nat.
Proof. apply (index_content_length demo demo_base []); witness_tac. Defined.



Lemma handle_client_truncates_witness :
  handle_client demo demo_base (replicate 1024 97 ++ [255]) (demo_world true) =
  handle_client demo demo_base (replicate 1024 97) (demo_world true).
Proof. apply handle_client_truncates. by rewrite length_replicate. Defined.

Lemma handle_client_closes_once_witness :
  fst (handle_client demo demo_base (ascii_bytes "GET /static/reports/a.pdf HTTP/1.1")
         (demo_world true)) = Ret tt /\
  closed (w_sock (snd (handle_client demo demo_base
            (ascii_bytes "GET /static/reports/a.pdf HTTP/1.1") (demo_world true)))) = true /\
  close_calls (w_sock (snd (handle_client demo demo_base
            (ascii_bytes "GET /static/reports/a.pdf HTTP/1.1") (demo_world true)))) = 1%nat.
Proof. apply (handle_client_closes_once demo demo_base _ (demo_world true)); reflexivity. Defined.

End Handler.
