(* ===== verification/Threads.v ===== *)
(** * Handler threads interleaved on the shared history

    [start] (src/server.py 271-275) runs [handle_client] in one thread per
    connection.  The threads share one object, [self.request_history]:
    everything else a handler touches (its client socket, the file
    system it only reads, what it prints) belongs to it alone.  So the
    interleavings that matter are those of the accesses to the history:
    the read of the whole list by [create_group_page] (line 195), the
    length test (line 138), [pop(0)] (line 139) and [append] (line 142).

    A thread is a program [tprog] whose nodes are these accesses and
    whose leaves carry the result of the handler and its local state (the
    socket and the log); between two nodes the thread computes alone, in
    the continuation.  [TM] is the monad of such programs, and
    [handle_client_t] is [handle_client] written in it, statement by
    statement, with the handler's own socket operations lifted ([tlift]).
    [tseq] runs a program alone against a history; [handle_client_t_seq]
    shows that alone it is exactly [Handler.handle_client].  [tstep] runs
    the threads of a configuration one access at a time, in any order.

    The iteration of line 195 is CPython's reverse list iterator: the
    length once, then one item per step, each a separate access, so
    another thread can [pop(0)] and [append] in between.  Two program
    logics: [twp_app]/[tsafe_app] for what every leaf satisfies and what
    every entry appended satisfies ([recorded]: the decoded request of
    the thread's connection, never a favicon request), [bwp]/[bsafe]
    for the number of entries a thread adds and the accesses it makes,
    given a bound [L] on the length of the history. *)

From Stdlib Require Import ZArith String.
From stdpp Require Import base list relations.
From S2P Require Import Prelude Utf8 PyStr History Fs Page Handler.

Local Open Scope Z_scope.

Module Threads.

Import PyStr History Fs Page Handler.

(** ** Programs of a thread *)

(** What a handler thread owns: its socket and the log of the exceptions it
    caught. *)
Record local := mk_local { l_sock : sock; l_log : list pyexc }.

Definition loc (w : world) : local := mk_local (w_sock w) (w_log w).
Definition glue (h : list entry) (l : local) : world := mk_world h (l_sock l) (l_log l).

Inductive tprog (A : Type) : Type :=
| TRet (r : res A) (l : local)              (** finished *)
| TCheck (k : nat -> tprog A)               (** [len(self.request_history)] *)
| TGet (n : nat) (k : option entry -> tprog A)
    (** item [n] if [n] is below the length, [None] past the end *)
| TPop (k : bool -> tprog A)                (** [pop(0)]; [false]: the list was empty *)
| TAppend (e : entry) (k : tprog A).        (** [append(e)] *)
Arguments TRet {A} r l.
Arguments TCheck {A} k.
Arguments TGet {A} n k.
Arguments TPop {A} k.
Arguments TAppend {A} e k.

(** Continue every leaf of [p] with [g]. *)
Fixpoint tleaf {A B} (p : tprog A) (g : res A -> local -> tprog B) : tprog B :=
  match p with
  | TRet r l => g r l
  | TCheck k => TCheck (fun n => tleaf (k n) g)
  | TGet n k => TGet n (fun o => tleaf (k o) g)
  | TPop k => TPop (fun b => tleaf (k b) g)
  | TAppend e k => TAppend e (tleaf k g)
  end.

Definition TM (A : Type) : Type := local -> tprog A.

Definition tret {A} (a : A) : TM A := fun l => TRet (Ret a) l.
Definition traise {A} (e : pyexc) : TM A := fun l => TRet (Raise e) l.
Definition tbind {A B} (f : A -> TM B) (m : TM A) : TM B :=
  fun l => tleaf (m l) (fun r l' => match r with Ret a => f a l' | Raise e => TRet (Raise e) l' end).

#[export] Instance tm_mret : MRet TM := fun A => @tret A.
#[export] Instance tm_mbind : MBind TM := fun A B => @tbind A B.

(** [try: m except E: h] and [try: m finally: f]. *)
Definition ttry {A} (catches : pyexc -> bool) (m : TM A) (h : pyexc -> TM A) : TM A :=
  fun l => tleaf (m l) (fun r l' => match r with
                                    | Raise e => if catches e then h e l' else TRet r l'
                                    | _ => TRet r l'
                                    end).
Definition tfinally {A} (m : TM A) (f : TM unit) : TM A :=
  fun l => tleaf (m l) (fun r l' => tleaf (f l') (fun r' l'' => match r' with
                                                               | Ret _ => TRet r l''
                                                               | Raise e => TRet (Raise e) l''
                                                               end)).

(** A statement of the handler that only touches the thread's own state. *)
Definition tlift {A} (m : PY world A) : TM A :=
  fun l => let (r, w') := m (glue [] l) in TRet r (loc w').

(** The accesses to the history: its length, and an item. *)
Definition tlen : TM nat := fun l => TCheck (fun n => TRet (Ret n) l).

(** The items a reverse iterator at index [i - 1] still yields: CPython's
    [listreviter_next] returns the item at its index if the index is below
    the list's current length and steps down, and stops otherwise; at
    index [-1] it stops without looking at the list. *)
Fixpoint trev_from (i : nat) : TM (list entry) :=
  match i with
  | O => mret []
  | S j => fun l => TGet j (fun o => match o with
                                     | Some e => (es ← trev_from j; mret (e :: es)) l
                                     | None => TRet (Ret []) l
                                     end)
  end.

(** [for record in reversed(self.request_history)] (line 195), run by
    the list comprehension of lines 182-196: [list.__reversed__] reads the
    length once, then each iteration is one access. *)
Definition treversed : TM (list entry) := n ← tlen; trev_from n.

(** [add_to_request_history] (lines 132-148), three accesses; [pop(0)] on
    an empty list raises [IndexError]. *)
Definition tadd (req resp : pystr) : TM unit := fun l =>
  TCheck (fun n =>
    if decide (capacity <= n)%nat then
      TPop (fun ok => if ok then TAppend (mk_entry req resp) (TRet (Ret tt) l)
                      else TRet (Raise IndexError) l)
    else TAppend (mk_entry req resp) (TRet (Ret tt) l)).

(** ** The handler as a thread (lines 36-130) *)

Section WithFs.
Context {F : Type} `{FileSystem F}.
Context (fs : F) (base_dir : pystr).

Definition send_pdf_t (request : pystr) (b : bytes) : TM flow :=
  head ← tlift (encode (resp_pdf_head (length b)));
  tlift (sendall head);;
  tlift (sendall b);;
  tadd request pdf_sent;;
  tlift close;;
  mret Returned.

Definition route_t (request method path : pystr) : TM flow :=
  if decide (method = method_get) then
    if decide (path = path_root) then
      records ← treversed;
      (* [create_group_page] takes the list whose reversal it renders *)
      response_body ← tlift (py_lift (create_group_page fs base_dir (rev records)));
      mret (Respond (Some (resp_index response_body)))
    else if startswith path reports_prefix then
      response_body ← tlift (py_lift (serve_pdf fs base_dir path));
      match response_body with
      | Some ((_ :: _) as b) => send_pdf_t request b
      | _ => mret (Respond (Some resp_404))
      end
    else mret (Respond None)
  else mret (Respond (Some resp_405)).

Definition handle_body_t (data : bytes) : TM unit :=
  request ← tlift (py_lift (Utf8.decode Utf8.Strict (recv 1024 data)));
  parsed ← tlift (py_try is_value_error (Some <$> py_lift (parse_request_line request))
                    (fun _ => mret None));
  match parsed with
  | None =>
      b ← tlift (encode resp_400);
      tlift (sendall b);;
      tadd request resp_400
  | Some (method, path, _) =>
      if decide (path = path_favicon) then
        b ← tlift (encode resp_favicon);
        tlift (sendall b)
      else
        fl ← route_t request method path;
        match fl with
        | Returned => mret tt
        | Respond r =>
            response ← tlift (read_local r);
            tadd request response;;
            b ← tlift (encode response);
            tlift (sendall b)
        end
  end.

Definition handle_client_t (data : bytes) : TM unit :=
  tfinally (ttry is_exception (handle_body_t data) (fun e => tlift (log_exc e)))
           (tlift close_if_open).

End WithFs.

(** ** Running programs *)

(** A thread alone against the history [h]: its result, its local state
    and the history after it. *)
Fixpoint tseq {A} (p : tprog A) (h : list entry) : res A * local * list entry :=
  match p with
  | TRet r l => (r, l, h)
  | TCheck k => tseq (k (length h)) h
  | TGet n k => tseq (k (h !! n)) h
  | TPop k => match h with _ :: h' => tseq (k true) h' | [] => tseq (k false) [] end
  | TAppend e k => tseq k (h ++ [e])
  end.

(** A [TM] program as a statement of [PY world]. *)
Definition run_seq {A} (t : TM A) : PY world A := fun w =>
  match tseq (t (loc w)) (w_hist w) with (r, l, h) => (r, glue h l) end.

(** Threads sharing a history. *)
Record tstate := mk_tstate { t_hist : list entry; t_threads : list (tprog unit) }.

(** One access of thread [i]; [None] when [i] is no thread or has finished. *)
Definition tstep_fn (s : tstate) (i : nat) : option tstate :=
  match t_threads s !! i with
  | Some (TGet n k) => Some (mk_tstate (t_hist s) (<[i := k (t_hist s !! n)]> (t_threads s)))
  | Some (TCheck k) => Some (mk_tstate (t_hist s) (<[i := k (length (t_hist s))]> (t_threads s)))
  | Some (TPop k) =>
      match t_hist s with
      | _ :: h => Some (mk_tstate h (<[i := k true]> (t_threads s)))
      | [] => Some (mk_tstate [] (<[i := k false]> (t_threads s)))
      end
  | Some (TAppend e k) => Some (mk_tstate (t_hist s ++ [e]) (<[i := k]> (t_threads s)))
  | _ => None
  end.

Definition tstep (s s' : tstate) : Prop := exists i, tstep_fn s i = Some s'.

(** A schedule: the threads that make an access, in order. *)
Fixpoint run_tsched (s : tstate) (sched : list nat) : option tstate :=
  match sched with
  | [] => Some s
  | i :: rest => s' ← tstep_fn s i; run_tsched s' rest
  end.

(** [threading.Thread(target=self.handle_client, ...).start()] (lines
    271-275): the handler of one connection on its fresh client socket,
    before its first statement. *)
Definition spawn_thread {F} `{FileSystem F} (fs : F) (base_dir : pystr) (data : bytes) : tprog unit :=
  handle_client_t fs base_dir data (mk_local (fresh_sock true) []).

(** The handler threads of the connections [conns], before any of them ran. *)
Definition tstart {F} `{FileSystem F} (fs : F) (base_dir : pystr) (h : list entry)
    (conns : list bytes) : tstate :=
  mk_tstate h (map (spawn_thread fs base_dir) conns).

(** ** A thread alone is the sequential handler *)

Create HintDb threads discriminated.

(** Statements that leave the history alone and do not depend on it. *)
Definition hist_free {A} (m : PY world A) : Prop :=
  forall h l, m (glue h l) = let (r, w') := m (glue [] l) in (r, glue h (loc w')).

(** [t] computes, alone, what [m] computes. *)
Definition sim {A} (t : TM A) (m : PY world A) : Prop := forall w, run_seq t w = m w.

Lemma glue_loc (w : world) : glue (w_hist w) (loc w) = w.
Proof. by destruct w. Qed.

Lemma loc_glue (h : list entry) (l : local) : loc (glue h l) = l.
Proof. by destruct l. Qed.

Lemma hist_free_run {A} (m : PY world A) h l :
  hist_free m -> exists r l', m (glue [] l) = (r, glue [] l') /\ m (glue h l) = (r, glue h l').
Proof.
  intros Hm. pose proof (Hm [] l) as H0. pose proof (Hm h l) as H1.
  destruct (m (glue [] l)) as [r w']. eauto.
Qed.

(** Destruct the runs of the history-free statements in the context. *)
Ltac hf_run :=
  repeat match goal with
  | Hm : hist_free ?m |- context [?m (glue ?h ?l)] =>
      let r := fresh "r" in let l' := fresh "l" in
      let E0 := fresh "E" in let E1 := fresh "E" in
      destruct (hist_free_run m h l Hm) as (r & l' & E0 & E1); rewrite ?E0, ?E1; clear E0 E1
  end.

Lemma hist_free_lift {A} (r : res A) : hist_free (py_lift r).
Proof. intros h l. by destruct l. Qed.

Lemma hist_free_ret {A} (a : A) : hist_free (mret a).
Proof. intros h l. by destruct l. Qed.

Lemma hist_free_bind {A B} (m : PY world A) (k : A -> PY world B) :
  hist_free m -> (forall a, hist_free (k a)) -> hist_free (m ≫= k).
Proof.
  intros Hm Hk h l. cbv [mbind py_mbind py_bind]. hf_run. destruct r as [a|e].
  - specialize (Hk a). hf_run. by rewrite loc_glue.
  - by rewrite loc_glue.
Qed.

Lemma hist_free_fmap {A B} (f : A -> B) (m : PY world A) : hist_free m -> hist_free (f <$> m).
Proof. intros Hm. apply hist_free_bind; [done|]. intros a h l. by destruct l. Qed.

Lemma hist_free_try {A} c (m : PY world A) (k : pyexc -> PY world A) :
  hist_free m -> (forall e, hist_free (k e)) -> hist_free (py_try c m k).
Proof.
  intros Hm Hk h l. unfold py_try. hf_run. destruct r as [a|e]; [by rewrite loc_glue|].
  destruct (c e); [|by rewrite loc_glue]. specialize (Hk e). hf_run. by rewrite loc_glue.
Qed.

Lemma hist_free_sendall b : hist_free (sendall b).
Proof. intros h [s lg]. unfold sendall. simpl. by repeat case_match. Qed.

Lemma hist_free_close : hist_free close.
Proof. by intros h [s lg]. Qed.

Lemma hist_free_close_if_open : hist_free close_if_open.
Proof. intros h [s lg]. unfold close_if_open, close. simpl. by repeat case_match. Qed.

Lemma hist_free_log_exc e : hist_free (log_exc e).
Proof. by intros h [s lg]. Qed.

Lemma hist_free_read_local r : hist_free (read_local r).
Proof. intros h [s lg]. by destruct r. Qed.

#[export] Hint Resolve hist_free_lift hist_free_ret hist_free_bind hist_free_fmap hist_free_try
  hist_free_sendall hist_free_close hist_free_close_if_open hist_free_log_exc
  hist_free_read_local : threads.

Lemma tseq_tleaf {A B} (p : tprog A) (g : res A -> local -> tprog B) h :
  tseq (tleaf p g) h = let '(r, l, h') := tseq p h in tseq (g r l) h'.
Proof.
  revert h. induction p as [r l|k IH|k IH|k IH|e k IH]; intros h; simpl; auto.
  destruct h; auto.
Qed.

Lemma run_seq_tleaf {A B} (t : TM A) (g : res A -> local -> tprog B) w :
  run_seq (fun l => tleaf (t l) g) w =
    let '(r, w') := run_seq t w in run_seq (fun _ => g r (loc w')) (glue (w_hist w') (loc w')).
Proof.
  unfold run_seq. rewrite tseq_tleaf. destruct (tseq (t (loc w)) (w_hist w)) as [[r l] h].
  by destruct l.
Qed.

Lemma sim_lift {A} (m : PY world A) : hist_free m -> sim (tlift m) m.
Proof.
  intros Hm [h s lg]. pose proof (Hm h (mk_local s lg)) as E.
  unfold run_seq, tlift, glue, loc in *. simpl in *. rewrite E. by destruct (m (mk_world [] s lg)).
Qed.

Lemma sim_ret {A} (a : A) : sim (mret a) (mret a).
Proof. intros w. by destruct w. Qed.

Lemma sim_bind {A B} (t : TM A) (m : PY world A) (f : A -> TM B) (k : A -> PY world B) :
  sim t m -> (forall a, sim (f a) (k a)) -> sim (t ≫= f) (m ≫= k).
Proof.
  intros Ht Hf w. cbv [mbind tm_mbind tbind py_mbind py_bind].
  rewrite run_seq_tleaf, <- Ht. destruct (run_seq t w) as [[a|e] w'].
  - rewrite <- Hf. by destruct w'.
  - by destruct w'.
Qed.

Lemma sim_try {A} c (t : TM A) (m : PY world A) (f : pyexc -> TM A) (k : pyexc -> PY world A) :
  sim t m -> (forall e, sim (f e) (k e)) -> sim (ttry c t f) (py_try c m k).
Proof.
  intros Ht Hf w. unfold ttry, py_try. rewrite run_seq_tleaf, <- Ht.
  destruct (run_seq t w) as [[a|e] w']; [by destruct w'|].
  destruct (c e); [|by destruct w']. rewrite <- Hf. by destruct w'.
Qed.

Lemma sim_finally {A} (t : TM A) (m : PY world A) (f : TM unit) (k : PY world unit) :
  sim t m -> sim f k -> sim (tfinally t f) (py_finally m k).
Proof.
  intros Ht Hf w. unfold tfinally, py_finally. rewrite run_seq_tleaf, <- Ht.
  destruct (run_seq t w) as [r [h s lg]]. rewrite <- Hf. unfold run_seq. simpl.
  rewrite tseq_tleaf. destruct (tseq (f _) h) as [[[u|e] l] h']; by destruct l.
Qed.

Lemma tseq_tleaf_tleaf {A B C} (p : tprog A) (g1 : res A -> local -> tprog B)
    (g : res B -> local -> tprog C) h :
  tseq (tleaf (tleaf p g1) g) h = tseq (tleaf p (fun r l => tleaf (g1 r l) g)) h.
Proof.
  revert h. induction p as [r l|k IH|n k IH|k IH|e k IH]; intros h; simpl; auto.
  destruct h; auto.
Qed.

(** Alone, the reverse iterator from index [i - 1] yields the first [i]
    items, last first. *)
Lemma tseq_trev_from {B} i (g : res (list entry) -> local -> tprog B) l h :
  (i <= length h)%nat -> tseq (tleaf (trev_from i l) g) h = tseq (g (Ret (rev (take i h))) l) h.
Proof.
  revert g. induction i as [|j IH]; intros g Hi; [done|]. simpl.
  destruct (lookup_lt_is_Some_2 h j ltac:(lia)) as [e He]. rewrite He.
  cbv [mbind tm_mbind tbind]. rewrite tseq_tleaf_tleaf, IH by lia. simpl.
  by rewrite (take_S_r _ _ _ He), rev_app_distr.
Qed.

(** Alone, [reversed(self.request_history)] yields the history reversed. *)
Lemma sim_reversed {A} (f : list entry -> TM A) (k : list entry -> PY world A) :
  (forall h, sim (f (rev h)) (k h)) -> sim (treversed ≫= f) (w ← py_get; k (w_hist w)).
Proof.
  intros Hf [h s lg]. transitivity (run_seq (f (rev h)) (mk_world h s lg)); [|apply Hf].
  unfold run_seq. simpl. cbv [mbind tm_mbind tbind]. simpl.
  rewrite tseq_trev_from, take_ge by lia. reflexivity.
Qed.

(** Alone, the three accesses of [tadd] are [add_to_request_history]. *)
Lemma sim_tadd req resp : sim (tadd req resp) (add_history req resp).
Proof.
  intros [h s lg]. unfold run_seq, add_history, tadd, py_modify, Sequential.add_to_request_history. simpl.
  case_decide as Hc; simpl; [|done].
  destruct h as [|x h]; simpl in *; [unfold capacity in Hc; lia|done].
Qed.

#[export] Hint Resolve sim_ret sim_tadd : threads.

(** Split a [sim] goal along the common structure of the two programs. *)
Ltac sim_split :=
  repeat first
    [ apply sim_bind; [|intros ?]
    | apply sim_try; [|intros ?]
    | apply sim_finally
    | apply sim_lift; solve [eauto 10 with threads]
    | apply sim_tadd
    | apply sim_ret
    | case_match; subst ].

Section SeqWithFs.
Context {F : Type} `{FileSystem F}.
Context (fs : F) (base_dir : pystr).

Lemma send_pdf_t_sim request b : sim (send_pdf_t request b) (send_pdf request b).
Proof. unfold send_pdf_t, send_pdf. sim_split. Qed.

Lemma route_t_sim request method path :
  sim (route_t fs base_dir request method path) (route fs base_dir request method path).
Proof.
  unfold route_t, route. case_decide; [|sim_split]. case_decide.
  - refine (sim_reversed _ (fun h => response_body ← py_lift (create_group_page fs base_dir h);
                                      mret (Respond (Some (resp_index response_body)))) _).
    intros h. rewrite rev_involutive. sim_split.
  - case_match; [|sim_split]. apply sim_bind; [apply sim_lift; eauto with threads|intros b].
    destruct b as [[|x b]|]; [sim_split| |sim_split]. apply send_pdf_t_sim.
Qed.

Lemma handle_body_t_sim data :
  sim (handle_body_t fs base_dir data) (handle_body fs base_dir data).
Proof.
  unfold handle_body_t, handle_body. sim_split; auto using route_t_sim.
Qed.

(** A handler thread that runs alone, with no other thread between its
    accesses to the history, computes exactly [handle_client]: the same
    result, socket, log and history.  The thread model adds interleaving
    points and nothing else. *)
Theorem handle_client_t_seq data (w : world) :
  run_seq (handle_client_t fs base_dir data) w = handle_client fs base_dir data w.
Proof.
  revert w. apply sim_finally; [apply sim_try; [apply handle_body_t_sim|intros e]|]; sim_split.
Qed.

End SeqWithFs.

(** ** A program logic for threads *)

(** Every leaf of [p], whatever the history answers at its accesses,
    satisfies [Q], and every entry [p] appends satisfies [P]. *)
Inductive tsafe_app {A} (P : entry -> Prop) (Q : res A -> local -> Prop) : tprog A -> Prop :=
| ts_ret r l : Q r l -> tsafe_app P Q (TRet r l)
| ts_check k : (forall n, tsafe_app P Q (k n)) -> tsafe_app P Q (TCheck k)
| ts_get n k : (forall o, tsafe_app P Q (k o)) -> tsafe_app P Q (TGet n k)
| ts_pop k : (forall b, tsafe_app P Q (k b)) -> tsafe_app P Q (TPop k)
| ts_append e k : P e -> tsafe_app P Q k -> tsafe_app P Q (TAppend e k).

(** Leaves only. *)
Abbreviation tsafe := (tsafe_app (fun _ => True)).

(** Hoare triples: from a local state in [Pre], every interleaving ends
    in [Q] and appends only entries in [P]. *)
Definition twp_app {A} (P : entry -> Prop) (Pre : local -> Prop) (m : TM A)
    (Q : res A -> local -> Prop) : Prop :=
  forall l, Pre l -> tsafe_app P Q (m l).

Abbreviation twp := (twp_app (fun _ => True)).

Section Logic.
Context {P : entry -> Prop}.

Lemma tsafe_tleaf {A B} (R : res A -> local -> Prop) (Q : res B -> local -> Prop) p g :
  tsafe_app P R p -> (forall r l, R r l -> tsafe_app P Q (g r l)) -> tsafe_app P Q (tleaf p g).
Proof. induction 1; intros Hg; simpl; [auto|constructor; auto..]. Qed.

Lemma twp_ret {A} Pre (a : A) Q : (forall l, Pre l -> Q (Ret a) l) -> twp_app P Pre (mret a) Q.
Proof. intros HQ l Hl. constructor. auto. Qed.

Lemma twp_lift {A} Pre (m : PY world A) Q :
  (forall l, Pre l -> Q (fst (m (glue [] l))) (loc (snd (m (glue [] l))))) -> twp_app P Pre (tlift m) Q.
Proof.
  intros HQ l Hl. specialize (HQ l Hl). unfold tlift.
  destruct (m (glue [] l)). by constructor.
Qed.

Lemma twp_bind {A B} Pre (m : TM A) R (f : A -> TM B) Q :
  twp_app P Pre m R -> (forall a, twp_app P (R (Ret a)) (f a) Q) ->
  (forall e l, R (Raise e) l -> Q (Raise e) l) -> twp_app P Pre (m ≫= f) Q.
Proof.
  intros Hm Hf He l Hl. eapply tsafe_tleaf; [by apply Hm|].
  intros [a|e] l' HR; [by apply Hf|]. constructor. auto.
Qed.

Lemma twp_try {A} Pre c (m : TM A) R (h : pyexc -> TM A) Q :
  twp_app P Pre m R -> (forall e, c e = true -> twp_app P (R (Raise e)) (h e) Q) ->
  (forall r l, R r l -> (forall e, r = Raise e -> c e = false) -> Q r l) ->
  twp_app P Pre (ttry c m h) Q.
Proof.
  intros Hm Hh HQ l Hl. eapply tsafe_tleaf; [by apply Hm|].
  intros [a|e] l' HR; [constructor; by apply HQ|].
  destruct (c e) eqn:Ec; [by apply Hh|]. constructor. apply HQ; congruence.
Qed.

Lemma twp_finally {A} Pre (m : TM A) R (f : TM unit) Q :
  twp_app P Pre m R ->
  (forall r, twp_app P (R r) f (fun r' l => match r' with Ret _ => Q r l | Raise e => Q (Raise e) l end)) ->
  twp_app P Pre (tfinally m f) Q.
Proof.
  intros Hm Hf l Hl. eapply tsafe_tleaf; [by apply Hm|]. intros r l' HR.
  eapply tsafe_tleaf; [by apply (Hf r)|]. intros [u|e] l'' HQ; by constructor.
Qed.

Lemma tsafe_mono {A} (R Q : res A -> local -> Prop) p :
  tsafe_app P R p -> (forall r l, R r l -> Q r l) -> tsafe_app P Q p.
Proof. induction 1; intros HQ; constructor; auto. Qed.

(** The reverse iterator returns a list, leaves the local state alone and
    appends nothing. *)
Lemma tsafe_trev_from i l :
  tsafe_app P (fun r l' => l' = l /\ exists es, r = Ret es) (trev_from i l).
Proof.
  induction i as [|j IH]; simpl; [constructor; eauto|]. constructor. intros [e|]; [|constructor; eauto].
  eapply tsafe_tleaf; [apply IH|]. intros r l' [-> [es ->]]. constructor; eauto.
Qed.

Lemma twp_reversed Pre Q : (forall es l, Pre l -> Q (Ret es) l) -> twp_app P Pre treversed Q.
Proof.
  intros HQ l Hl. cbv [treversed mbind tm_mbind tbind tlen]. simpl. constructor. intros n.
  eapply tsafe_mono; [apply tsafe_trev_from|]. intros r l' [-> [es ->]]. auto.
Qed.

Lemma twp_weaken {A} (Pre Pre' : local -> Prop) (m : TM A) Q :
  twp_app P Pre' m Q -> (forall l, Pre l -> Pre' l) -> twp_app P Pre m Q.
Proof. intros Hm HP l Hl. auto. Qed.

End Logic.

(** [add_to_request_history] between other threads: it returns or raises
    [IndexError], and leaves the local state alone. *)
Lemma twp_tadd_app (P : entry -> Prop) Pre req resp Q :
  P (mk_entry req resp) ->
  (forall l, Pre l -> Q (Ret tt) l /\ Q (Raise IndexError) l) -> twp_app P Pre (tadd req resp) Q.
Proof.
  intros HP HQ l Hl. destruct (HQ l Hl). unfold tadd. constructor. intros n.
  case_decide; repeat first [done | constructor | intros []].
Qed.

Lemma twp_tadd Pre req resp Q :
  (forall l, Pre l -> Q (Ret tt) l /\ Q (Raise IndexError) l) -> twp Pre (tadd req resp) Q.
Proof. by apply twp_tadd_app. Qed.

(** The invariant form: [P] holds at every exit, and what is raised is in [E]. *)
Definition tpres {A} (P : local -> Prop) (E : pyexc -> Prop) (m : TM A) : Prop :=
  twp P m (fun r l => P l /\ forall e, r = Raise e -> E e).

Lemma tpres_lift {A} (P : local -> Prop) E (m : PY world A) :
  preserves (fun w => P (loc w)) m -> raises_only E m -> tpres P E (tlift m).
Proof.
  intros Hp Hr. apply twp_lift. intros l Hl. split.
  - apply Hp. by rewrite loc_glue.
  - intros e He. apply (Hr (glue [] l) e (snd (m (glue [] l)))).
    destruct (m (glue [] l)); simpl in *; by subst.
Qed.

Lemma tpres_ret {A} P E (a : A) : tpres P E (mret a).
Proof. apply twp_ret. by split. Qed.

Lemma tpres_bind {A B} P E (m : TM A) (f : A -> TM B) :
  tpres P E m -> (forall a, tpres P E (f a)) -> tpres P E (m ≫= f).
Proof.
  intros Hm Hf. eapply twp_bind; [done| |].
  - intros a l [Hl _]. by apply (Hf a l Hl).
  - intros e l [Hl He]. split; [done|]. intros e0 [= ->]. eauto.
Qed.

Lemma tpres_reversed P E : tpres P E treversed.
Proof. apply twp_reversed. by split. Qed.

Lemma tpres_tadd (P : local -> Prop) (E : pyexc -> Prop) req resp :
  E IndexError -> tpres P E (tadd req resp).
Proof. intros HE. apply twp_tadd. intros l Hl. split; split; congruence. Qed.

(** Split a [tpres] goal along the structure of the thread. *)
Ltac tpres_split :=
  repeat match goal with
  | |- tpres _ _ (mbind _ _) => apply tpres_bind; [|intros ?]
  | |- tpres _ _ (mret _) => apply tpres_ret
  | |- tpres _ _ treversed => apply tpres_reversed
  | |- tpres _ _ (tadd _ _) => apply tpres_tadd; done
  | |- tpres _ _ (match ?x with _ => _ end) => destruct x
  | |- tpres _ _ (if ?b then _ else _) => destruct b
  end.


(** ** Each thread closes its socket once *)

(** [closed_once] of the thread's own socket. *)
Definition lclosed_once (l : local) : Prop := closed_once (glue [] l).

(** Open and never closed. *)
Definition lopen (l : local) : Prop := closed (l_sock l) = false /\ close_calls (l_sock l) = 0%nat.

Lemma lopen_closed_once l : lopen l -> lclosed_once l.
Proof. intros Hl. by left. Qed.

(** A statement of the thread's own that keeps [closed_once] and raises
    only [Exception]s. *)
Lemma tpres_lift_ok {A} (m : PY world A) :
  preserves closed_once m -> raises_only exception m -> tpres lclosed_once exception (tlift m).
Proof. intros Hp Hr. apply (tpres_lift lclosed_once); [|done]. intros w Hw. apply Hp. by destruct w. Qed.

Lemma lift_os_error {A} (r : res A) :
  (forall e, r = Raise e -> is_os_error e = true) -> raises_only (S := world) exception (py_lift r).
Proof. intros Hr. apply raises_only_lift. intros e He. apply os_error_exception. auto. Qed.

(** [sendall] then [close()], with an access to the history between them
    (lines 95-98): a [sendall] that returns leaves the socket open, so the
    [close()] is its first. *)
Lemma pdf_block_t_closed_once (b : bytes) (req : pystr) :
  tpres lclosed_once exception (tlift (sendall b);; tadd req pdf_sent;; tlift close;; mret Returned).
Proof.
  eapply twp_bind with
    (R := fun r l => match r with Ret _ => lopen l | Raise e => lclosed_once l /\ exception e end).
  - apply twp_lift. intros [[snt [] cc ok] lg] Hl; unfold sendall; simpl; [done|].
    destruct Hl as [[_ Hc]|[? _]]; [|done]. simpl in Hc; subst.
    destruct ok; cbn; [done|split; [by left|done]].
  - intros _. eapply twp_bind with (R := fun r l => lopen l /\ forall e, r = Raise e -> exception e).
    + apply twp_tadd. intros l Hl. split; (split; [done|]); intros e He; by inversion He.
    + intros u. eapply twp_bind with (R := fun r l => lclosed_once l /\ r = Ret tt).
      * apply twp_lift. intros [[snt cl cc ok] lg] [[Hcl Hcc] _]. simpl in *. subst.
        split; [by right|done].
      * intros u'. apply twp_ret. intros l [Hl _]. split; [done|congruence].
      * intros e l [_ He]. discriminate.
    + intros e l [Hl He]. split; [auto using lopen_closed_once|]. intros e0 [= <-]. exact (He e eq_refl).
  - intros e l [Hl He]. split; [done|]. by intros ? [= <-].
Qed.

Section ThreadsWithFs.
Context {F : Type} `{FileSystem F}.
Context (fs : F) (base_dir : pystr).

(** Close the leaves of [tpres_split]: the thread's own statements. *)
Ltac lift_ok :=
  apply tpres_lift_ok;
  [ try unfold encode; preserves_split; auto with pyweb
  | raises_split; auto with pyweb;
    first [ solve [apply lift_os_error; eauto using create_group_page_os_error, serve_pdf_os_error]
          | apply raises_only_lift; intros ex Hex;
            first [ by rewrite (Utf8.decode_raises _ _ _ Hex)
                  | by apply parse_value_error_raise in Hex as -> ] ] ].

Lemma send_pdf_t_closed_once request b : tpres lclosed_once exception (send_pdf_t request b).
Proof.
  unfold send_pdf_t. apply tpres_bind; [lift_ok|intros head].
  apply tpres_bind; [lift_ok|intros _]. apply pdf_block_t_closed_once.
Qed.

Lemma route_t_closed_once request method path :
  tpres lclosed_once exception (route_t fs base_dir request method path).
Proof.
  unfold route_t. tpres_split; try lift_ok. apply send_pdf_t_closed_once.
Qed.

Lemma handle_body_t_closed_once data :
  tpres lclosed_once exception (handle_body_t fs base_dir data).
Proof.
  unfold handle_body_t. tpres_split; try lift_ok. apply route_t_closed_once.
Qed.

(** The whole handler as a thread: from an open socket, every leaf
    returns normally with the socket closed by one call. *)
Lemma handle_client_t_twp data :
  twp lopen (handle_client_t fs base_dir data)
      (fun r l => r = Ret tt /\ closed (l_sock l) = true /\ close_calls (l_sock l) = 1%nat).
Proof.
  unfold handle_client_t. eapply twp_finally with (R := fun r l => lclosed_once l /\ r = Ret tt).
  - eapply twp_try.
    + eapply twp_weaken; [apply handle_body_t_closed_once|apply lopen_closed_once].
    + intros e He. apply twp_lift. intros [[snt cl cc ok] lg] [Hl _]. split; [exact Hl|done].
    + intros [[]|e] l [Hl Hr] Hc; [done|]. specialize (Hr e eq_refl). by rewrite (Hc e eq_refl) in Hr.
  - intros r. apply twp_lift. intros [[snt [] cc ok] lg] [Hl ->];
      destruct Hl as [[Hc Hn]|[Hc Hn]]; simpl in *; subst; done.
Qed.

End ThreadsWithFs.

(** ** What the threads append to the history *)

(** [m] appends only entries in [P], whatever the history answers. *)
Definition tonly {A} (P : entry -> Prop) (m : TM A) : Prop :=
  twp_app P (fun _ => True) m (fun _ _ => True).

Lemma tsafe_app_weaken {A} (P P' : entry -> Prop) (Q : res A -> local -> Prop) p :
  tsafe_app P Q p -> (forall e, P e -> P' e) -> tsafe_app P' Q p.
Proof. induction 1; intros HP; constructor; auto. Qed.

Lemma tonly_weaken {A} (P P' : entry -> Prop) (m : TM A) :
  tonly P m -> (forall e, P e -> P' e) -> tonly P' m.
Proof. intros Hm HP l _. eapply tsafe_app_weaken; [by apply Hm|done]. Qed.

Lemma tonly_lift {A} P (m : PY world A) : tonly P (tlift m).
Proof. by apply twp_lift. Qed.

Lemma tonly_ret {A} P (a : A) : tonly P (mret a).
Proof. by apply twp_ret. Qed.

Lemma tonly_bind {A B} P (m : TM A) (f : A -> TM B) :
  tonly P m -> (forall a, tonly P (f a)) -> tonly P (m ≫= f).
Proof. intros Hm Hf. eapply twp_bind; [done| |done]. intros a l _. by apply Hf. Qed.

Lemma tonly_reversed P : tonly P treversed.
Proof. by apply twp_reversed. Qed.

Lemma tonly_tadd (P : entry -> Prop) req resp : P (mk_entry req resp) -> tonly P (tadd req resp).
Proof. intros HP. by apply twp_tadd_app. Qed.

(** What is known of a bound value, for the rest of the thread. *)
Lemma tonly_pure {A} P (Φ : Prop) (m : TM A) :
  (Φ -> tonly P m) -> twp_app P (fun _ => Φ) m (fun _ _ => True).
Proof. intros Hm l HΦ. by apply Hm. Qed.

Ltac tonly_split :=
  repeat match goal with
  | |- tonly _ (mbind _ _) => apply tonly_bind; [|intros ?]
  | |- tonly _ (mret _) => apply tonly_ret
  | |- tonly _ (tlift _) => apply tonly_lift
  | |- tonly _ treversed => apply tonly_reversed
  | |- tonly _ (tadd _ _) => apply tonly_tadd; done
  | |- tonly _ (match ?x with _ => _ end) => destruct x
  | |- tonly _ (if ?b then _ else _) => destruct b
  end.

(** An entry the handler of the connection [data] may append: its request
    is the decoded first chunk of [data], and not a request line for
    [/favicon.ico] (lines 63-71 answer those without recording them). *)
Definition recorded (data : bytes) (e : entry) : Prop :=
  request_of data = Ret (request e) /\
  forall method path version,
    parse_request_line (request e) = Ret (method, path, version) -> path <> path_favicon.

Section RecordedWithFs.
Context {F : Type} `{FileSystem F}.
Context (fs : F) (base_dir : pystr).

(** [route_t] records only its own request, whatever the page or file. *)
Lemma route_t_only req method path : tonly (fun e => request e = req) (route_t fs base_dir req method path).
Proof. unfold route_t, send_pdf_t. tonly_split. Qed.

Lemma handle_body_t_recorded data : tonly (recorded data) (handle_body_t fs base_dir data).
Proof.
  unfold handle_body_t.
  eapply twp_bind with (R := fun r _ => forall a, r = Ret a -> request_of data = Ret a);
    [|intros a; apply tonly_pure; intros Ha|done].
  { apply twp_lift. intros l _ a Ha. exact Ha. }
  specialize (Ha a eq_refl).
  eapply twp_bind with
    (R := fun r _ => forall o, r = Ret o -> forall t, parse_request_line a = Ret t -> o = Some t);
    [|intros o; apply tonly_pure; intros Ho|done].
  { apply twp_lift. intros l _. cbv [py_try fmap py_fmap py_bind py_lift py_ret mret py_mret]. simpl.
    destruct (parse_request_line a) as [t|e]; simpl; [by intros o [= <-] t' [= ->]|].
    destruct (is_value_error e); simpl; [by intros o [= <-] t' [=]|done]. }
  specialize (Ho o eq_refl).
  destruct o as [[[method path] version]|].
  - case_decide as Hp; tonly_split.
    + eapply tonly_weaken; [apply route_t_only|]. intros e <-. split; [done|].
      intros m p v E. specialize (Ho _ E). by simplify_eq.
    + apply tonly_tadd. split; [done|]. intros m p v E. specialize (Ho _ E). by simplify_eq.
  - tonly_split. apply tonly_tadd. split; [done|]. intros m p v E. by pose proof (Ho _ E).
Qed.

(** The handler thread of [data] appends only entries [recorded] for it. *)
Lemma handle_client_t_recorded data : tonly (recorded data) (handle_client_t fs base_dir data).
Proof.
  eapply twp_finally with (R := fun _ _ => True).
  - eapply twp_try; [apply handle_body_t_recorded|intros e _; apply tonly_lift|done].
  - intros r. apply twp_lift. intros l _. by case_match.
Qed.

End RecordedWithFs.

(** ** Configurations of threads *)

(** Every step keeps the threads [tsafe]: a thread's continuation after an
    access is one of the programs its node quantifies over. *)
Lemma tstep_fn_tsafe {P : entry -> Prop} (Q : res unit -> local -> Prop) s i s' :
  Forall (tsafe_app P Q) (t_threads s) -> tstep_fn s i = Some s' -> Forall (tsafe_app P Q) (t_threads s').
Proof.
  intros Hs. unfold tstep_fn. destruct (t_threads s !! i) as [p|] eqn:E; [|done].
  pose proof (proj1 (Forall_lookup _ _) Hs i p E) as Hp.
  destruct p; inversion Hp; subst;
    [done| | | destruct (t_hist s) |]; intros [= <-]; apply Forall_insert; auto.
Qed.

(** A step keeps each thread's entries within its own predicate [R x],
    for the thread's [x], and every entry of the history within the
    predicate of some thread. *)
Lemma tstep_fn_recorded {X} (R : X -> entry -> Prop) (Q : res unit -> local -> Prop) (xs : list X) s i s' :
  Forall2 (fun x p => tsafe_app (R x) Q p) xs (t_threads s) ->
  Forall (fun e => exists x, x ∈ xs /\ R x e) (t_hist s) -> tstep_fn s i = Some s' ->
  Forall2 (fun x p => tsafe_app (R x) Q p) xs (t_threads s') /\
  Forall (fun e => exists x, x ∈ xs /\ R x e) (t_hist s').
Proof.
  intros Hs Hh. unfold tstep_fn. destruct (t_threads s !! i) as [p|] eqn:E; [|done].
  destruct (Forall2_lookup_r _ _ _ i p Hs E) as (x & Hx & Hp).
  assert (forall p', tsafe_app (R x) Q p' ->
            Forall2 (fun x p => tsafe_app (R x) Q p) xs (<[i:=p']> (t_threads s))) as Hins.
  { intros p' Hp'. rewrite <- (list_insert_id xs i x Hx). by apply Forall2_insert. }
  destruct p; inversion Hp; subst; [done| | | destruct (t_hist s) eqn:Eh |];
    intros [= <-]; simpl; split; auto.
  - by apply Forall_cons in Hh as [_ Hh].
  - apply Forall_app. split; [done|]. apply Forall_singleton.
    exists x. split; [by eapply list_elem_of_lookup_2|done].
Qed.

Lemma rtc_tstep_tsafe (Q : res unit -> local -> Prop) s s' :
  rtc tstep s s' -> Forall (tsafe Q) (t_threads s) -> Forall (tsafe Q) (t_threads s').
Proof. induction 1 as [|s1 s2 s3 [i Hi] _ IH]; eauto using tstep_fn_tsafe. Qed.

(** In every state reachable from threads that are all [tsafe Q], every
    finished thread satisfies [Q]. *)
Lemma reachable_finished (Q : res unit -> local -> Prop) s s' i r l :
  Forall (tsafe Q) (t_threads s) -> rtc tstep s s' ->
  t_threads s' !! i = Some (TRet r l) -> Q r l.
Proof.
  intros Hs Hr Hi. pose proof (rtc_tstep_tsafe Q _ _ Hr Hs) as Hs'.
  pose proof (proj1 (Forall_lookup _ _) Hs' i _ Hi) as Hp. by inversion Hp.
Qed.

(** What a finished handler thread must show: a normal return and its
    socket closed by one call. *)
Definition closed_ok (r : res unit) (l : local) : Prop :=
  r = Ret tt /\ closed (l_sock l) = true /\ close_calls (l_sock l) = 1%nat.

Lemma spawn_thread_safe {F} `{FileSystem F} (fs : F) base_dir data :
  tsafe closed_ok (spawn_thread fs base_dir data).
Proof. by apply handle_client_t_twp. Qed.

(** whatever the connections and however the threads interleave their
    accesses to the shared history, every handler thread that has finished
    returned normally and closed its client socket exactly once. *)
Theorem threads_closes_once {F} `{FileSystem F} (fs : F) base_dir h conns s i r l :
  rtc tstep (tstart fs base_dir h conns) s -> t_threads s !! i = Some (TRet r l) ->
  r = Ret tt /\ closed (l_sock l) = true /\ close_calls (l_sock l) = 1%nat.
Proof.
  intros Hr Hi. refine (reachable_finished closed_ok _ _ i r l _ Hr Hi).
  apply Forall_forall. intros p Hp. apply list_elem_of_In, in_map_iff in Hp as [data [<- _]].
  apply spawn_thread_safe.
Qed.


(** ** Budgets: appends and accesses of a thread *)

Section Budget.
(** A bound on the length of the history, which the configurations below
    keep: the number of items a reverse iterator can yield. *)
Variable L : nat.

(** [bsafe Q g s p]: along every path, while the history holds at most
    [L] entries, [p] makes at most [s] accesses to the history and grows
    it by at most [g] entries ([append] costs one, a [pop(0)] that
    removes an entry gives one back); the leaves, with the budgets left,
    satisfy [Q]. *)
Inductive bsafe {A} (Q : res A -> local -> nat -> nat -> Prop) : nat -> nat -> tprog A -> Prop :=
| bs_ret g s r l : Q r l g s -> bsafe Q g s (TRet r l)
| bs_check g s k : (forall n, (n <= L)%nat -> bsafe Q g s (k n)) -> bsafe Q g (S s) (TCheck k)
| bs_get g s n k : (forall o, bsafe Q g s (k o)) -> bsafe Q g (S s) (TGet n k)
| bs_pop g s k : bsafe Q (S g) s (k true) -> bsafe Q g s (k false) -> bsafe Q g (S s) (TPop k)
| bs_append g s e k : bsafe Q g s k -> bsafe Q (S g) (S s) (TAppend e k).

(** Budget triples: from budgets [g] and [s], whatever the local state. *)
Definition bwp {A} (g s : nat) (m : TM A) (Q : res A -> nat -> nat -> Prop) : Prop :=
  forall l, bsafe (fun r _ g s => Q r g s) g s (m l).

(** The budgets a thread needs, whatever it returns. *)
Definition bounded_by {A} (g s : nat) (p : tprog A) : Prop := bsafe (fun _ _ _ _ => True) g s p.

Lemma bsafe_tleaf {A B} (R : res A -> local -> nat -> nat -> Prop) Q g s p (k : res A -> local -> tprog B) :
  bsafe R g s p -> (forall r l g' s', R r l g' s' -> bsafe Q g' s' (k r l)) -> bsafe Q g s (tleaf p k).
Proof. induction 1; intros Hk; simpl; [auto|constructor; auto..]. Qed.

Lemma bounded_by_mono {A} g s g' s' (p : tprog A) :
  bounded_by g s p -> (g <= g')%nat -> (s <= s')%nat -> bounded_by g' s' p.
Proof.
  intros Hp. revert g' s'.
  induction Hp as [g s r l _|g s k _ IH|g s n k _ IH|g s k _ IH1 _ IH2|g s e k _ IH];
    intros g' s' Hg Hs; [by constructor|..]; destruct s' as [|s']; try lia.
  - constructor. intros n Hn. apply IH; lia.
  - constructor. intros o. apply IH; lia.
  - constructor; [apply IH1|apply IH2]; lia.
  - destruct g' as [|g']; [lia|]. constructor. apply IH; lia.
Qed.

Lemma bwp_ret {A} g s (a : A) Q : Q (Ret a) g s -> bwp g s (mret a) Q.
Proof. intros HQ l. by constructor. Qed.

Lemma bwp_lift {A} g s (m : PY world A) Q : (forall r, Q r g s) -> bwp g s (tlift m) Q.
Proof. intros HQ l. unfold tlift. destruct (m _). by constructor. Qed.

Lemma bwp_bind {A B} g s (m : TM A) R (f : A -> TM B) Q :
  bwp g s m R -> (forall a g' s', R (Ret a) g' s' -> bwp g' s' (f a) Q) ->
  (forall e g' s', R (Raise e) g' s' -> Q (Raise e) g' s') -> bwp g s (m ≫= f) Q.
Proof.
  intros Hm Hf He l. eapply bsafe_tleaf; [apply Hm|]. intros [a|e] l' g' s' HR; [by apply Hf|].
  constructor. auto.
Qed.

Lemma bwp_lift_bind {A B} g s (m : PY world A) (f : A -> TM B) Q :
  (forall a, bwp g s (f a) Q) -> (forall e, Q (Raise e) g s) -> bwp g s (tlift m ≫= f) Q.
Proof.
  intros Hf He. apply bwp_bind with (R := fun _ g' s' => g' = g /\ s' = s);
    [by apply bwp_lift|intros a g' s' [-> ->]; auto|intros e g' s' [-> ->]; auto].
Qed.

(** The reverse iterator from index [j - 1] makes at most [j] accesses. *)
Lemma bsafe_trev_from g s j l :
  (j <= s)%nat ->
  bsafe (fun r l' g' s' => l' = l /\ g' = g /\ (s - j <= s')%nat /\ exists es, r = Ret es) g s (trev_from j l).
Proof.
  revert s. induction j as [|j IH]; intros s Hj; simpl; [constructor; eauto with lia|].
  destruct s as [|s]; [lia|]. constructor. intros [e|]; [|constructor; eauto with lia].
  eapply bsafe_tleaf; [apply (IH s); lia|]. intros r l' g' s' (-> & -> & ? & es & ->).
  constructor. eauto with lia.
Qed.

(** [reversed(self.request_history)] iterated: the length, then at most
    [L] items. *)
Lemma bwp_reversed_bind {A} g s (f : list entry -> TM A) Q :
  (1 + L <= s)%nat -> (forall es s', (s - 1 - L <= s')%nat -> bwp g s' (f es) Q) ->
  bwp g s (treversed ≫= f) Q.
Proof.
  intros Hs Hf l. cbv [treversed mbind tm_mbind tbind tlen]. simpl.
  destruct s as [|s]; [lia|]. constructor. intros n Hn.
  eapply bsafe_tleaf; [apply (bsafe_trev_from g s n l); lia|].
  intros r l' g' s' (-> & -> & ? & es & ->). apply Hf. lia.
Qed.

(** [add_to_request_history]: one entry and three accesses at most. *)
Lemma bwp_tadd_bind {A} g s req resp (f : unit -> TM A) Q :
  (1 <= g)%nat -> (3 <= s)%nat ->
  (forall g' s', (g - 1 <= g')%nat -> (s - 3 <= s')%nat -> bwp g' s' (f tt) Q) ->
  (forall g' s', (g - 1 <= g')%nat -> (s - 3 <= s')%nat -> Q (Raise IndexError) g' s') ->
  bwp g s (tadd req resp ≫= f) Q.
Proof.
  intros Hg Hs Hf He l. destruct g as [|g]; [lia|]. do 3 (destruct s as [|s]; [lia|]).
  replace (S g - 1)%nat with g in * by lia. replace (S (S (S s)) - 3)%nat with s in * by lia.
  constructor. intros n.
  case_decide; simpl; repeat first [apply Hf; lia | apply He; lia | constructor].
Qed.

Lemma bwp_tadd g s req resp Q :
  (1 <= g)%nat -> (3 <= s)%nat ->
  (forall g' s', (g - 1 <= g')%nat -> (s - 3 <= s')%nat -> Q (Ret tt) g' s' /\ Q (Raise IndexError) g' s') ->
  bwp g s (tadd req resp) Q.
Proof.
  intros Hg Hs HQ l. destruct g as [|g]; [lia|]. do 3 (destruct s as [|s]; [lia|]).
  replace (S g - 1)%nat with g in * by lia. replace (S (S (S s)) - 3)%nat with s in * by lia.
  assert (forall g' s', (g <= g')%nat -> (s <= s')%nat -> Q (Ret tt) g' s') as H1
    by (intros; apply HQ; lia).
  assert (forall g' s', (g <= g')%nat -> (s <= s')%nat -> Q (Raise IndexError) g' s') as H2
    by (intros; apply HQ; lia).
  constructor. intros n.
  case_decide; simpl; repeat first [apply H1; lia | apply H2; lia | constructor].
Qed.

Lemma bwp_try {A} g s c (m : TM A) R (h : pyexc -> TM A) Q :
  bwp g s m R -> (forall e g' s', R (Raise e) g' s' -> c e = true -> bwp g' s' (h e) Q) ->
  (forall r g' s', R r g' s' -> (forall e, r = Raise e -> c e = false) -> Q r g' s') ->
  bwp g s (ttry c m h) Q.
Proof.
  intros Hm Hh HQ l. eapply bsafe_tleaf; [apply Hm|]. intros [a|e] l' g' s' HR.
  - constructor. apply HQ; congruence.
  - destruct (c e) eqn:Ec; [by apply Hh|]. constructor. apply HQ; congruence.
Qed.

Lemma bwp_finally {A} g s (m : TM A) R (f : TM unit) Q :
  bwp g s m R ->
  (forall r g' s', R r g' s' ->
     bwp g' s' f (fun r' g'' s'' => Q (match r' with Ret _ => r | Raise e => Raise e end) g'' s'')) ->
  bwp g s (tfinally m f) Q.
Proof.
  intros Hm Hf l. eapply bsafe_tleaf; [apply Hm|]. intros r l' g' s' HR.
  eapply bsafe_tleaf; [apply (Hf r g' s' HR l')|]. intros [u|e] l'' g'' s'' HQ; by constructor.
Qed.

(** Split a budget goal along the structure of the thread. *)
Ltac bwp_split :=
  repeat match goal with
  | |- bwp _ _ (tlift _ ≫= _) _ => apply bwp_lift_bind; [intros ?|intros ?]
  | |- bwp _ _ (treversed ≫= _) _ => apply bwp_reversed_bind; [lia|intros ? ? ?]
  | |- bwp _ _ (tadd _ _ ≫= _) _ => apply bwp_tadd_bind; [lia|lia|intros ? ? ? ?|intros ? ? ? ?]
  | |- bwp _ _ (tadd _ _) _ => apply bwp_tadd; [lia|lia|intros ? ? ? ?]
  | |- bwp _ _ (tlift _) _ => apply bwp_lift; intros ?
  | |- bwp _ _ (mret _) _ => apply bwp_ret
  | |- bwp _ _ (match ?x with _ => _ end) _ => destruct x
  | |- bwp _ _ (if ?b then _ else _) _ => destruct b
  end.

Section BudgetWithFs.
Context {F : Type} `{FileSystem F}.
Context (fs : F) (base_dir : pystr).

(** [route_t] makes the response's entry only on the PDF path; otherwise it
    leaves the budget of one entry and three accesses to its caller. *)
Lemma route_t_budget request method path g s :
  (1 <= g)%nat -> (4 + L <= s)%nat ->
  bwp g s (route_t fs base_dir request method path)
      (fun r g' s' => match r with Ret (Respond _) => (1 <= g')%nat /\ (3 <= s')%nat | _ => True end).
Proof.
  intros Hg Hs. unfold route_t, send_pdf_t. bwp_split; simpl; auto with lia.
Qed.

Lemma handle_body_t_budget data g s :
  (1 <= g)%nat -> (4 + L <= s)%nat -> bwp g s (handle_body_t fs base_dir data) (fun _ _ _ => True).
Proof.
  intros Hg Hs. unfold handle_body_t. bwp_split; auto with lia.
  eapply bwp_bind; [by apply route_t_budget| |done]. intros [|r] g' s' Hr; bwp_split; auto with lia.
Qed.

(** A handler thread appends at most one entry and makes at most [4 + L]
    accesses to the history: the length and [L] items for the page, then
    the three of [add_to_request_history]. *)
Lemma handle_client_t_budget data l : bounded_by 1 (4 + L) (handle_client_t fs base_dir data l).
Proof.
  revert l. change (bwp 1 (4 + L) (handle_client_t fs base_dir data) (fun _ _ _ => True)).
  unfold handle_client_t. eapply bwp_finally with (R := fun _ _ _ => True).
  - eapply bwp_try; [apply handle_body_t_budget; lia| |done]. intros. by apply bwp_lift.
  - intros. by apply bwp_lift.
Qed.

End BudgetWithFs.


(** ** Budgets of a configuration *)

(** Budgets [bs], one pair per thread, that the threads keep. *)
Definition budgets (bs : list (nat * nat)) (s : tstate) : Prop :=
  Forall2 (fun b p => bounded_by b.1 b.2 p) bs (t_threads s).

Lemma sum_list_with_insert {A} (f : A -> nat) (l : list A) i x y :
  l !! i = Some x -> (sum_list_with f (<[i:=y]> l) + f x = sum_list_with f l + f y)%nat.
Proof.
  revert i. induction l as [|z l IH]; intros [|i] Hi; simpl in *; try done.
  - injection Hi as ->. lia.
  - specialize (IH i Hi). lia.
Qed.

Lemma budgets_insert bs s i g st g' st' p' h' :
  budgets bs s -> bs !! i = Some (g, st) -> bounded_by g' st' p' ->
  budgets (<[i:=(g', st')]> bs) (mk_tstate h' (<[i:=p']> (t_threads s))) /\
  (sum_list_with fst (<[i:=(g', st')]> bs) + g = sum_list_with fst bs + g')%nat /\
  (sum_list_with snd (<[i:=(g', st')]> bs) + st = sum_list_with snd bs + st')%nat.
Proof.
  intros Hbs Hi Hp. split; [by apply Forall2_insert|].
  pose proof (sum_list_with_insert fst bs i _ (g', st') Hi).
  pose proof (sum_list_with_insert snd bs i _ (g', st') Hi). simpl in *. lia.
Qed.

(** An access spends one unit of its thread's access budget and keeps the
    length of the history plus the entry budgets from growing. *)
Lemma tstep_fn_budgets bs s i s' :
  budgets bs s -> (length (t_hist s) <= L)%nat -> tstep_fn s i = Some s' ->
  exists bs', budgets bs' s' /\
    (length (t_hist s') + sum_list_with fst bs' <= length (t_hist s) + sum_list_with fst bs)%nat /\
    (S (sum_list_with snd bs') <= sum_list_with snd bs)%nat.
Proof.
  intros Hbs HL. unfold tstep_fn. destruct (t_threads s !! i) as [p|] eqn:E; [|done].
  destruct (Forall2_lookup_r _ _ _ _ _ Hbs E) as [[g st] [Eb Hp]]. simpl in Hp.
  inversion Hp as [| g0 s0 k Hk | g0 s0 n k Hk | g0 s0 k Ht Hf | g0 s0 e k Hk]; subst; [done|..].
  - intros [= <-]. destruct (budgets_insert bs s i g (S s0) g s0 _ (t_hist s) Hbs Eb
      (Hk (length (t_hist s)) HL)) as (? & ? & ?). eexists; split; [done|]. simpl. lia.
  - intros [= <-]. destruct (budgets_insert bs s i g (S s0) g s0 _ (t_hist s) Hbs Eb
      (Hk (t_hist s !! n))) as (? & ? & ?). eexists; split; [done|]. simpl. lia.
  - destruct (t_hist s) as [|x h] eqn:Eh; intros [= <-].
    + destruct (budgets_insert bs s i g (S s0) g s0 _ [] Hbs Eb Hf) as (? & ? & ?).
      eexists; split; [done|]. simpl. lia.
    + destruct (budgets_insert bs s i g (S s0) (S g) s0 _ h Hbs Eb Ht) as (? & ? & ?).
      eexists; split; [done|]. simpl. lia.
  - intros [= <-]. destruct (budgets_insert bs s i (S g0) (S s0) g0 s0 _ (t_hist s ++ [e]) Hbs Eb Hk)
      as (? & ? & ?). eexists; split; [done|]. simpl. rewrite length_app. simpl. lia.
Qed.

(** The invariant of a configuration: budgets kept, and the history with
    the entries still to come within [L]. *)
Definition within (bs : list (nat * nat)) (s : tstate) : Prop :=
  budgets bs s /\ (length (t_hist s) + sum_list_with fst bs <= L)%nat.

Lemma tstep_fn_within bs s i s' :
  within bs s -> tstep_fn s i = Some s' ->
  exists bs', within bs' s' /\
    (length (t_hist s') + sum_list_with fst bs' <= length (t_hist s) + sum_list_with fst bs)%nat /\
    (S (sum_list_with snd bs') <= sum_list_with snd bs)%nat.
Proof.
  intros [Hbs HL] Hs. destruct (tstep_fn_budgets bs s i s' Hbs ltac:(lia) Hs) as (bs' & H' & Hle & Hlt).
  exists bs'. repeat split; auto with lia.
Qed.

Lemma rtc_tstep_within bs s s' :
  rtc tstep s s' -> within bs s ->
  exists bs', within bs' s' /\
    (length (t_hist s') + sum_list_with fst bs' <= length (t_hist s) + sum_list_with fst bs)%nat.
Proof.
  intros Hr. revert bs. induction Hr as [s|s1 s2 s3 [i Hi] _ IH]; intros bs Hbs; [exists bs; by split|].
  destruct (tstep_fn_within bs s1 i s2 Hbs Hi) as (bs2 & H2 & Hle & _).
  destruct (IH bs2 H2) as (bs3 & H3 & Hle3). exists bs3. split; [done|lia].
Qed.

Lemma run_tsched_within bs s sched s' :
  within bs s -> run_tsched s sched = Some s' -> (length sched <= sum_list_with snd bs)%nat.
Proof.
  revert bs s. induction sched as [|i sched IH]; intros bs s Hbs; simpl; [lia|].
  destruct (tstep_fn s i) as [s1|] eqn:E; simpl; [|done]. intros Hrun.
  destruct (tstep_fn_within bs s i s1 Hbs E) as (bs1 & H1 & _ & Hlt).
  specialize (IH bs1 s1 H1 Hrun). lia.
Qed.

(** A thread that has returned. *)
Definition finished {A} (p : tprog A) : bool := match p with TRet _ _ => true | _ => false end.

(** No thread waits for another: a thread that has not returned can make
    its next access. *)
Lemma tstep_fn_progress s i p :
  t_threads s !! i = Some p -> finished p = false -> exists s', tstep_fn s i = Some s'.
Proof.
  intros Hi Hp. unfold tstep_fn. rewrite Hi.
  destruct p; try done; [eauto|eauto|destruct (t_hist s); eauto|eauto].
Qed.

(** Either every thread has returned or some thread can make an access. *)
Lemma tprogress s :
  Forall (fun p => finished p = true) (t_threads s) \/ exists i s', tstep_fn s i = Some s'.
Proof.
  destruct (list_find (fun p => finished p = false) (t_threads s)) as [[i p]|] eqn:Ef.
  - apply list_find_Some in Ef as (Hi & Hp & _). right. exists i. by apply (tstep_fn_progress s i p).
  - left. apply list_find_None in Ef. eapply Forall_impl; [exact Ef|].
    intros p Hp. destruct (finished p) eqn:Ep; [done|]. by exfalso; apply Hp.
Qed.

(** Threads within their access budgets can all be run to the end. *)
Lemma budgets_complete n bs s :
  (sum_list_with snd bs <= n)%nat -> within bs s ->
  exists sched s', run_tsched s sched = Some s' /\ Forall (fun p => finished p = true) (t_threads s').
Proof.
  revert bs s. induction n as [|n IH]; intros bs s Hn Hbs;
    (destruct (tprogress s) as [Hall|(i & s1 & E)]; [by exists [], s|]);
    destruct (tstep_fn_within bs s i s1 Hbs E) as (bs1 & H1 & _ & Hlt); [lia|].
  destruct (IH bs1 s1 ltac:(lia) H1) as (sched & s' & Hrun & Hall).
  exists (i :: sched), s'. simpl. by rewrite E.
Qed.

End Budget.

Section StartWithFs.
Context {F : Type} `{FileSystem F}.
Context (fs : F) (base_dir : pystr).

Lemma spawn_thread_budget L data : bounded_by L 1 (4 + L) (spawn_thread fs base_dir data).
Proof. apply handle_client_t_budget. Qed.

Lemma sum_replicate_pair (n a b : nat) :
  sum_list_with fst (replicate n (a, b)) = (n * a)%nat /\ sum_list_with snd (replicate n (a, b)) = (n * b)%nat.
Proof. induction n as [|n IH]; simpl; lia. Qed.

(** The threads of [conns] on [h], with [L] its length plus one entry per
    connection. *)
Lemma tstart_within h conns :
  within (length h + length conns) (replicate (length conns) (1, 4 + (length h + length conns))%nat)
    (tstart fs base_dir h conns).
Proof.
  split.
  - unfold budgets, tstart. simpl. generalize (length h + length conns)%nat as L.
    intros L. induction conns as [|data conns IH]; simpl; constructor; [|done].
    apply spawn_thread_budget.
  - destruct (sum_replicate_pair (length conns) 1 (4 + (length h + length conns))) as [Hf _].
    rewrite Hf. unfold tstart. simpl. lia.
Qed.

(** however the handler threads of [conns] interleave, the shared
    history never holds more than its initial entries plus one per
    connection: each handler records at most one exchange, and an
    [append] that follows another thread's length test is not undone. *)
Theorem threads_history_bound h conns s :
  rtc tstep (tstart fs base_dir h conns) s -> (length (t_hist s) <= length h + length conns)%nat.
Proof.
  intros Hr. destruct (rtc_tstep_within _ _ _ _ Hr (tstart_within h conns)) as (bs & [_ HL] & _). lia.
Qed.

(** every schedule of the handler threads of [conns] is finite: each
    thread makes at most [4 + L] accesses to the history, [L] its
    greatest length. *)
Theorem threads_terminate h conns sched s :
  run_tsched (tstart fs base_dir h conns) sched = Some s ->
  (length sched <= length conns * (4 + (length h + length conns)))%nat.
Proof.
  intros Hrun. pose proof (run_tsched_within _ _ _ _ _ (tstart_within h conns) Hrun) as Hle.
  destruct (sum_replicate_pair (length conns) 1 (4 + (length h + length conns))) as [_ Hs]. lia.
Qed.

(** the handler threads never deadlock: from any state they can reach,
    some schedule runs every one of them to its end. *)
Theorem threads_complete h conns s :
  rtc tstep (tstart fs base_dir h conns) s ->
  exists sched s', run_tsched s sched = Some s' /\ Forall (fun p => finished p = true) (t_threads s').
Proof.
  intros Hr. destruct (rtc_tstep_within _ _ _ _ Hr (tstart_within h conns)) as (bs & Hbs & _).
  by apply (budgets_complete (length h + length conns) (sum_list_with snd bs) bs).
Qed.

End StartWithFs.


Lemma run_tsched_rtc s sched s' : run_tsched s sched = Some s' -> rtc tstep s s'.
Proof.
  revert s. induction sched as [|i sched IH]; intros s; simpl; [by intros [= ->]|].
  destruct (tstep_fn s i) as [s1|] eqn:E; simpl; [|done]. intros Hrun.
  eapply rtc_l; [by exists i|]. by apply IH.
Qed.

(** ** The order of the history *)

(** The entry thread [i] appends at its next access, if it is an [append]. *)
Definition appended_by (s : tstate) (i : nat) : list entry :=
  match t_threads s !! i with Some (TAppend e _) => [e] | _ => [] end.

(** The entries appended along a schedule, in the order of the appends. *)
Fixpoint sched_log (s : tstate) (sched : list nat) : list entry :=
  match sched with
  | [] => []
  | i :: rest => match tstep_fn s i with
                 | Some s' => appended_by s i ++ sched_log s' rest
                 | None => []
                 end
  end.

(** An access keeps the history a suffix of everything appended: [pop(0)]
    removes the oldest entry, [append] adds at the end, nothing else
    changes the list. *)
Lemma tstep_fn_suffix s i s' log :
  t_hist s `suffix_of` log -> tstep_fn s i = Some s' ->
  t_hist s' `suffix_of` (log ++ appended_by s i).
Proof.
  intros [pre Hpre]. unfold tstep_fn, appended_by.
  destruct (t_threads s !! i) as [[r l|k|n k|k|e k]|]; try done.
  - intros [= <-]. rewrite app_nil_r. by exists pre.
  - intros [= <-]. rewrite app_nil_r. by exists pre.
  - rewrite app_nil_r. destruct (t_hist s) as [|x h] eqn:Eh; intros [= <-]; [exists log; by rewrite app_nil_r|].
    exists (pre ++ [x]). simpl. by rewrite Hpre, <- app_assoc.
  - intros [= <-]. exists pre. simpl. by rewrite Hpre, app_assoc.
Qed.

Lemma run_tsched_suffix s sched s' log :
  run_tsched s sched = Some s' -> t_hist s `suffix_of` log ->
  t_hist s' `suffix_of` (log ++ sched_log s sched).
Proof.
  revert s log. induction sched as [|i sched IH]; intros s log; simpl.
  - intros [= <-]. by rewrite app_nil_r.
  - destruct (tstep_fn s i) as [s1|] eqn:E; simpl; [|done]. intros Hrun Hs.
    rewrite app_assoc. eapply IH; [done|]. by eapply tstep_fn_suffix.
Qed.

(** ** Races between whole handlers, on the demo tree *)

Import Fs.Tree.

Definition post_req : bytes := ascii_bytes "POST / HTTP/1.1".
Definition filler : entry := mk_entry [] [].

(** Two POST handlers that both test the length of a history of 49
    entries before either appends. *)
Definition overflow_sched : list nat := [0; 1; 0; 1]%nat.

(** 51 POST handlers on a full history: all test the length, then all pop,
    then the first 50 append. *)
Definition lost_sched : list nat := (seq 0 51 ++ seq 0 51 ++ seq 0 50)%nat.

(** What thread 50 of [lost_sched] is left with: no byte sent, the socket
    closed once, the [IndexError] of [pop(0)] printed. *)
Definition lost_local : local := mk_local (mk_sock [] true 1 true) [IndexError].

(** without a lock the handlers break the bound of 50 entries: two
    POST requests served by interleaved threads on a history of 49 entries
    leave 51, and both threads have finished. *)
Theorem threads_overflow :
  exists s, rtc tstep (tstart demo demo_base (replicate 49 filler) [post_req; post_req]) s /\
    length (t_hist s) = 51%nat /\ Forall (fun p => finished p = true) (t_threads s).
Proof.
  eexists. split; [apply (run_tsched_rtc _ overflow_sched); vm_compute; reflexivity|].
  split; [reflexivity|]. repeat constructor.
Qed.

(** C17: the race costs a client its response: with 51 POST handlers on a
    full history, the last one to [pop(0)] finds the list empty; its
    [IndexError] is caught by [except Exception], so that client, whose
    request is well formed and alone would get the 405 response, receives
    nothing and its socket is closed. *)
Theorem threads_lost_response :
  exists s, rtc tstep (tstart demo demo_base (replicate 50 filler) (replicate 51 post_req)) s /\
    t_threads s !! 50%nat = Some (TRet (Ret tt) lost_local) /\ length (t_hist s) = 50%nat.
Proof.
  eexists. split; [apply (run_tsched_rtc _ lost_sched); vm_compute; reflexivity|].
  split; reflexivity.
Qed.


(** The configuration [lost_sched] reaches. *)
Definition lost_start : tstate := tstart demo demo_base (replicate 50 filler) (replicate 51 post_req).
Definition lost_state : tstate :=
  match run_tsched lost_start lost_sched with Some s => s | None => lost_start end.

Lemma threads_closes_once_witness :
  (Ret tt : res unit) = Ret tt /\ closed (l_sock lost_local) = true /\
  close_calls (l_sock lost_local) = 1%nat.
Proof.
  apply (threads_closes_once demo demo_base (replicate 50 filler) (replicate 51 post_req)
           lost_state 50%nat (Ret tt) lost_local);
    [apply (run_tsched_rtc _ lost_sched); vm_compute; reflexivity|vm_compute; reflexivity].
Defined.

Lemma threads_history_bound_witness : (length (t_hist lost_state) <= 50 + 51)%nat.
Proof.
  apply (threads_history_bound demo demo_base (replicate 50 filler) (replicate 51 post_req)
           lost_state). apply (run_tsched_rtc _ lost_sched). vm_compute. reflexivity.
Defined.

Lemma threads_terminate_witness : (length lost_sched <= 51 * (4 + (50 + 51)))%nat.
Proof.
  apply (threads_terminate demo demo_base (replicate 50 filler) (replicate 51 post_req)
           lost_sched lost_state). vm_compute. reflexivity.
Defined.

Lemma threads_complete_witness :
  exists sched s', run_tsched lost_state sched = Some s' /\
    Forall (fun p => finished p = true) (t_threads s').
Proof.
  apply (threads_complete demo demo_base (replicate 50 filler) (replicate 51 post_req)
           lost_state). apply (run_tsched_rtc _ lost_sched). vm_compute. reflexivity.
Defined.


(** A history of 50 distinct entries. *)
Definition numbered (i : nat) : entry := mk_entry [Z.of_nat i] [].
Definition numbered_hist : list entry := map numbered (seq 0 50).

Definition get_req : bytes := ascii_bytes "GET / HTTP/1.1".

(** The GET handler reads the length and two items; the POST handler
    records its exchange, which shifts every item left; the GET handler
    reads the rest and records its own exchange. *)
Definition dup_sched : list nat := ([0; 0; 0; 1; 1; 1] ++ repeat 0 48 ++ [0; 0; 0])%nat.

(** The records the GET handler's page shows: entry 48 twice. *)
Definition dup_records : list entry :=
  numbered 49 :: numbered 48 :: rev (map numbered (seq 1 48)).

Definition demo_reports : list pystr := map Utf8.lit ["a.pdf"; "b.pdf"; "empty.pdf"]%string.

Definition dup_start : tstate := tstart demo demo_base numbered_hist [get_req; post_req].
(** What thread [i] has sent, once it has returned. *)
Definition thread_sent (s : tstate) (i : nat) : option (list bytes) :=
  match t_threads s !! i with Some (TRet _ l) => Some (sent (l_sock l)) | _ => None end.

(** C16: the page is not a snapshot of the history: a GET / handler that
    iterates [reversed(self.request_history)] while a POST handler pops
    the oldest entry and appends sends a page in which one exchange
    appears twice (the second and third blocks), though the history
    never held it twice; alone, the handler shows the history reversed. *)
Theorem threads_page_duplicate :
  (run_tsched dup_start dup_sched ≫= fun s => thread_sent s 0%nat) =
    Some [encoded (resp_index (render demo_reports (rev dup_records)))] /\
  dup_records !! 1%nat = Some (numbered 48) /\ dup_records !! 2%nat = Some (numbered 48).
Proof. decide_closed. Qed.

End Threads.
