(* ===== verification/Server.v ===== *)
(** * The listener: [create_server_socket] and [start] (src/server.py 9-34, 259-283)

    The main thread creates the listening socket, then loops on [accept()]
    and starts one handler thread per connection, until [accept()] raises:
    [KeyboardInterrupt] is caught and ends the loop normally, any other
    exception escapes; on both exits the [finally] block closes the
    listening socket.  A failure while creating the socket ends in
    [exit(1)], raised as [SystemExit(1)] before the [try] of [start].

    Every block of the code is a program of the monad [PY server]; the
    operating system's answers (whether [bind] succeeds, what each
    [accept()] returns) are inputs.  The main thread is a state machine
    ([phase]) driven by the answers of [accept()]: [step] runs one
    iteration of [while True], [run] a sequence of them.  A run that has
    used all its inputs is still inside [accept()], waiting.

    The listener's contract of the spec (section 4.1) is an abstract
    machine [spec_step] over [lspec], labelled by the answers of
    [accept()]; [abs] maps the main thread's state to it, and
    [run_refines] shows that every run is the contract's run on the same
    answers ([spec_run]). *)

From Stdlib Require Import ZArith String.
From stdpp Require Import base list relations.
From S2P Require Import Prelude Utf8.

Local Open Scope Z_scope.

Module Server.

(** ** State *)

(** The listening socket. *)
Record lsock := mk_lsock {
  l_reuse : bool;                     (** [SO_REUSEADDR] set *)
  l_bound : option (pystr * Z);       (** the address of [bind] *)
  l_backlog : option nat;             (** the argument of [listen] *)
  l_closes : nat                      (** calls of [close()] *)
}.

(** What the operating system answers to one [accept()]. *)
Inductive event :=
| Connect (data : bytes)   (** a client connects and will send [data] *)
| Interrupt                (** Ctrl-C: [KeyboardInterrupt] *)
| AcceptError.             (** [accept()] fails with [OSError] *)

(** Where the main thread is. *)
Inductive phase :=
| Init                     (** before [start] *)
| Listening                (** in [while True] *)
| Stopped                  (** [start] returned after [KeyboardInterrupt] *)
| Crashed (e : pyexc)      (** [start] raised [e] *)
| Exited (code : Z).       (** [exit(code)] in [create_server_socket] *)

#[export] Instance phase_eq_dec : EqDecision phase.
Proof. solve_decision. Defined.

Record server := mk_server {
  srv_host : pystr;
  srv_port : Z;
  srv_sock : option lsock;          (** [self.server_socket] *)
  srv_threads : list bytes;         (** the handler threads started, in order *)
  srv_phase : phase
}.

Abbreviation M := (PY server).

(** [HTTPServer(host, port)] *)
Definition init (host : pystr) (port : Z) : server := mk_server host port None [] Init.

Definition set_sock (o : option lsock) (s : server) : server :=
  mk_server (srv_host s) (srv_port s) o (srv_threads s) (srv_phase s).

Definition set_phase (p : phase) (s : server) : server :=
  mk_server (srv_host s) (srv_port s) (srv_sock s) (srv_threads s) p.

Definition upd_sock (f : lsock -> lsock) (s : server) : server :=
  set_sock (option_map f (srv_sock s)) s.

(** ** [create_server_socket] (lines 16-34) *)

(** [socket.socket(AF_INET, SOCK_STREAM)] *)
Definition socket_new : M unit := py_modify (set_sock (Some (mk_lsock false None None 0))).

(** [setsockopt(SOL_SOCKET, SO_REUSEADDR, 1)] *)
Definition set_reuse : M unit :=
  py_modify (upd_sock (fun l => mk_lsock true (l_bound l) (l_backlog l) (l_closes l))).

(** [bind((host, port))]: [ok] is the operating system's answer. *)
Definition bind (ok : bool) : M unit :=
  if ok then
    py_modify (fun s => upd_sock (fun l => mk_lsock (l_reuse l) (Some (srv_host s, srv_port s))
                                                    (l_backlog l) (l_closes l)) s)
  else py_raise OSError.

(** [listen(n)] *)
Definition listen (n : nat) : M unit :=
  py_modify (upd_sock (fun l => mk_lsock (l_reuse l) (l_bound l) (Some n) (l_closes l))).

Definition create_server_socket (bind_ok : bool) : M unit :=
  py_try is_exception (socket_new;; set_reuse;; bind bind_ok;; listen 5)
    (fun _ => py_raise (SystemExit 1)).

(** ** [start] (lines 259-283) *)

(** [self.server_socket.accept()] answering [ev]. *)
Definition accept (ev : event) : M bytes :=
  match ev with
  | Connect data => mret data
  | Interrupt => py_raise KeyboardInterrupt
  | AcceptError => py_raise OSError
  end.

(** [threading.Thread(target=self.handle_client, args=...).start()] *)
Definition spawn (data : bytes) : M unit :=
  py_modify (fun s => mk_server (srv_host s) (srv_port s) (srv_sock s)
                                (srv_threads s ++ [data]) (srv_phase s)).

(** One iteration of [while True] (lines 267-275). *)
Definition iteration (ev : event) : M unit :=
  data ← accept ev;
  spawn data.

(** The [finally] block (lines 282-283): a socket object is always true. *)
Definition close_server : M unit :=
  py_modify (fun s => match srv_sock s with
                      | Some l => set_sock (Some (mk_lsock (l_reuse l) (l_bound l) (l_backlog l)
                                                           (S (l_closes l)))) s
                      | None => s
                      end).

Definition is_keyboard_interrupt (e : pyexc) : bool :=
  match e with KeyboardInterrupt => true | _ => false end.

(** The exit of the [try] of line 264 after [accept()] or [start()] raised
    [e]: [except KeyboardInterrupt], then [finally]. *)
Definition loop_exit (e : pyexc) : M unit :=
  py_finally (py_try is_keyboard_interrupt (py_raise e) (fun _ => mret tt)) close_server.

(** The phase after the exit with result [r]. *)
Definition exit_phase (r : res unit) : phase :=
  match r with Ret _ => Stopped | Raise e => Crashed e end.

(** [start()] up to the loop: [create_server_socket()], whose [SystemExit]
    leaves [start] before its [try]. *)
Definition start (bind_ok : bool) (s : server) : server :=
  match create_server_socket bind_ok s with
  | (Ret _, s') => set_phase Listening s'
  | (Raise (SystemExit c), s') => set_phase (Exited c) s'
  | (Raise e, s') => set_phase (Crashed e) s'
  end.

(** The main thread on one answer of [accept()]; once [start] has ended,
    nothing happens any more. *)
Definition step (s : server) (ev : event) : server :=
  match srv_phase s with
  | Listening =>
      match iteration ev s with
      | (Ret _, s') => s'
      | (Raise e, s') => let (r, s'') := loop_exit e s' in set_phase (exit_phase r) s''
      end
  | _ => s
  end.

Definition run (host : pystr) (port : Z) (bind_ok : bool) (evs : list event) : server :=
  fold_left step evs (start bind_ok (init host port)).


(** ** The contract of the listener (spec, section 4.1)

    An abstract machine: the listening socket is held or released, the
    connections handed to handler tasks are a list, and the socket is
    released once.  Its moves are labelled by the answers of [accept()]:
    while listening, a connection is handed over, after the ones before
    it; an answer that raises leaves the loop and releases the socket;
    once the loop has been left, no answer changes anything. *)

Record lspec := mk_lspec {
  sp_listening : bool;
  sp_handed : list bytes;
  sp_released : nat
}.

Inductive spec_step : lspec -> event -> lspec -> Prop :=
| sp_accept h c : spec_step (mk_lspec true h 0) (Connect c) (mk_lspec true (h ++ [c]) 0)
| sp_stop h ev : (forall d, ev <> Connect d) -> spec_step (mk_lspec true h 0) ev (mk_lspec false h 1)
| sp_done sp ev : sp_listening sp = false -> spec_step sp ev sp.

(** The contract on a sequence of answers. *)
Inductive spec_run : lspec -> list event -> lspec -> Prop :=
| sr_nil sp : spec_run sp [] sp
| sr_cons sp ev sp' evs sp'' : spec_step sp ev sp' -> spec_run sp' evs sp'' -> spec_run sp (ev :: evs) sp''.

Definition spec_init : lspec := mk_lspec true [] 0.

(** What the contract sees of the main thread. *)
Definition abs (s : server) : lspec :=
  mk_lspec (bool_decide (srv_phase s = Listening)) (srv_threads s)
           (match srv_sock s with Some l => l_closes l | None => 0%nat end).

(** ** Lemmas *)

(** The listening socket after [create_server_socket] succeeded. *)
Definition listening_sock (host : pystr) (port : Z) (closes : nat) : lsock :=
  mk_lsock true (Some (host, port)) (Some 5%nat) closes.

Lemma start_ok (host : pystr) (port : Z) :
  start true (init host port) = mk_server host port (Some (listening_sock host port 0)) [] Listening.
Proof. reflexivity. Qed.

Lemma step_ended (s : server) (ev : event) : srv_phase s <> Listening -> step s ev = s.
Proof. unfold step. by destruct (srv_phase s). Qed.

Lemma run_ended (s : server) (evs : list event) :
  srv_phase s <> Listening -> fold_left step evs s = s.
Proof.
  intros Hp. induction evs as [|ev evs IH]; [done|]. simpl. by rewrite step_ended.
Qed.

Lemma step_connect (s : server) (data : bytes) :
  srv_phase s = Listening ->
  step s (Connect data) =
    mk_server (srv_host s) (srv_port s) (srv_sock s) (srv_threads s ++ [data]) Listening.
Proof. destruct s as [h p o ts ph]. simpl. intros ->. reflexivity. Qed.

Lemma run_connects (s : server) (cs : list bytes) :
  srv_phase s = Listening ->
  fold_left step (map Connect cs) s =
    mk_server (srv_host s) (srv_port s) (srv_sock s) (srv_threads s ++ cs) Listening.
Proof.
  revert s. induction cs as [|c cs IH]; intros s Hp; simpl.
  - destruct s; simpl in *; subst. by rewrite app_nil_r.
  - rewrite step_connect by done. rewrite IH by done. simpl. by rewrite <- app_assoc.
Qed.

(** The exits of the loop: [KeyboardInterrupt] is caught, [OSError] escapes. *)
Lemma step_exit (host : pystr) (port : Z) (ts : list bytes) (ev : event) :
  (forall d, ev <> Connect d) ->
  step (mk_server host port (Some (listening_sock host port 0)) ts Listening) ev =
    mk_server host port (Some (listening_sock host port 1)) ts
      (match ev with Interrupt => Stopped | _ => Crashed OSError end).
Proof. intros Hc. destruct ev as [d| |]; [by destruct (Hc d)|reflexivity|reflexivity]. Qed.


(** Every sequence of answers is a run of connections, then possibly one
    answer that raises. *)
Lemma events_split (evs : list event) :
  (exists cs, evs = map Connect cs) \/
  (exists cs ev rest, (forall d, ev <> Connect d) /\ evs = map Connect cs ++ ev :: rest).
Proof.
  induction evs as [|ev evs [[cs ->]|[cs [ev' [rest [Hev ->]]]]]].
  - left. by exists [].
  - destruct ev as [d| |]; [left; by exists (d :: cs)|right; by exists [], Interrupt, (map Connect cs)
      |right; by exists [], AcceptError, (map Connect cs)].
  - destruct ev as [d| |]; right.
    + by exists (d :: cs), ev', rest.
    + by exists [], Interrupt, (map Connect cs ++ ev' :: rest).
    + by exists [], AcceptError, (map Connect cs ++ ev' :: rest).
Qed.

(** While the loop runs, the listening socket is open and never closed. *)
Definition loop_inv (s : server) : Prop :=
  srv_phase s = Listening -> exists l, srv_sock s = Some l /\ l_closes l = 0%nat.

Lemma step_loop_inv (s : server) (ev : event) : loop_inv s -> loop_inv (step s ev).
Proof.
  intros Hinv. destruct (decide (srv_phase s = Listening)) as [Hp|Hp];
    [|by rewrite step_ended].
  destruct (Hinv Hp) as [l [Hl Hc]]. destruct ev as [d| |].
  - rewrite step_connect by done. intros _. by exists l.
  - destruct s as [h p o ts ph]; simpl in *; subst. by intros ?.
  - destruct s as [h p o ts ph]; simpl in *; subst. by intros ?.
Qed.

(** One answer of [accept()] is the contract's move on that answer. *)
Lemma step_refines (s : server) (ev : event) :
  loop_inv s -> spec_step (abs s) ev (abs (step s ev)).
Proof.
  intros Hinv. destruct (decide (srv_phase s = Listening)) as [Hp|Hp].
  - destruct (Hinv Hp) as [[r b bl c] [Hl Hc]]. simpl in Hc. subst c.
    destruct s as [h p o ts ph]; simpl in *; subst.
    destruct ev as [d| |]; unfold abs; simpl; constructor; by intros d.
  - rewrite step_ended by done. constructor. simpl. by apply bool_decide_eq_false_2.
Qed.

Lemma fold_refines (evs : list event) (s : server) :
  loop_inv s -> spec_run (abs s) evs (abs (fold_left step evs s)).
Proof.
  revert s. induction evs as [|ev evs IH]; intros s Hinv; simpl; [constructor|].
  econstructor; [by apply step_refines|]. by apply IH, step_loop_inv.
Qed.


(** [start] creates the listening socket before anything can fail, and no
    later step drops it. *)
Lemma run_sock (host : pystr) (port : Z) (bind_ok : bool) (evs : list event) :
  srv_sock (run host port bind_ok evs) <> None.
Proof.
  unfold run. assert (srv_sock (start bind_ok (init host port)) <> None) as Hs by (by destruct bind_ok).
  revert Hs. generalize (start bind_ok (init host port)). induction evs as [|ev evs IH]; [done|].
  intros s Hs. apply IH. unfold step.
  destruct s as [h p [l|] ts []]; try done; destruct ev; done.
Qed.

(** ** Theorems *)

(** C25: while clients connect, the server keeps listening on its address
    with [SO_REUSEADDR] and a backlog of 5, and starts one handler thread
    per connection, in the order of the connections. *)
Theorem run_serves (host : pystr) (port : Z) (cs : list bytes) :
  run host port true (map Connect cs) =
    mk_server host port (Some (listening_sock host port 0)) cs Listening.
Proof. unfold run. rewrite start_ok, run_connects by done. reflexivity. Qed.

(** C26: when [accept()] raises, the loop ends: [KeyboardInterrupt] is
    caught and [start] returns, [OSError] escapes from [start]; in both
    cases the listening socket has been closed once, and no later answer
    changes anything. *)
Theorem run_stops (host : pystr) (port : Z) (cs : list bytes) (ev : event) (rest : list event) :
  (forall d, ev <> Connect d) ->
  run host port true (map Connect cs ++ ev :: rest) =
    mk_server host port (Some (listening_sock host port 1)) cs
      (match ev with Interrupt => Stopped | _ => Crashed OSError end).
Proof.
  intros Hev. unfold run. rewrite fold_left_app, start_ok, run_connects by done. simpl.
  rewrite step_exit by done. rewrite run_ended; [done|]. by destruct ev.
Qed.

(** C23: the listening socket is closed exactly once when the loop has
    ended, and not at all while it runs, whatever [accept()] answers. *)
Theorem run_closes_once (host : pystr) (port : Z) (evs : list event) :
  exists l, srv_sock (run host port true evs) = Some l /\
    l_closes l = (if decide (srv_phase (run host port true evs) = Listening) then 0 else 1)%nat.
Proof.
  destruct (events_split evs) as [[cs ->]|[cs [ev [rest [Hev ->]]]]].
  - unfold run. rewrite start_ok, run_connects by done. by eexists.
  - unfold run. rewrite fold_left_app, start_ok, run_connects by done. simpl.
    rewrite step_exit by done. rewrite run_ended; [|by destruct ev].
    eexists. split; [done|]. by destruct ev.
Qed.

(** C27: when [bind] fails, [create_server_socket] calls [exit(1)]: the
    main thread ends with [SystemExit(1)] before its loop, no thread is
    started, and the socket it created is left open. *)
Theorem run_bind_failure (host : pystr) (port : Z) (evs : list event) :
  run host port false evs = mk_server host port (Some (mk_lsock true None None 0)) [] (Exited 1).
Proof. unfold run. by rewrite run_ended. Qed.

(** C24: the main thread refines the listener's contract: whatever
    [accept()] answers, each answer is the contract's move on it, from the
    state "listening, nothing handed over": every connection is handed
    over once, in the order of the answers, while listening; the first
    answer that raises releases the socket once; later answers change
    nothing. *)
Theorem run_refines (host : pystr) (port : Z) (evs : list event) :
  spec_run spec_init evs (abs (run host port true evs)).
Proof.
  unfold run. rewrite start_ok.
  replace spec_init with (abs (mk_server host port (Some (listening_sock host port 0)) [] Listening))
    by reflexivity.
  apply fold_refines. intros _. by eexists.
Qed.

(** ** Examples *)

Lemma run_stops_witness :
  run (Utf8.lit "0.0.0.0") 3000 true
      (map Connect [ascii_bytes "GET / HTTP/1.1"] ++ Interrupt :: [Connect []]) =
    mk_server (Utf8.lit "0.0.0.0") 3000 (Some (listening_sock (Utf8.lit "0.0.0.0") 3000 1))
      [ascii_bytes "GET / HTTP/1.1"] Stopped.
Proof. apply run_stops. discriminate. Defined.

End Server.
