(* ===== verification/System.v ===== *)
(** * The server as a whole: the main thread and its handler threads

    [Server.run] gives the connections the main thread accepted, in
    order; each is handed to [Handler.handle_client] in its own thread,
    with a fresh client socket and the shared history.  [serve_in_order]
    runs these handlers one after the other, to completion, in the order
    the connections were accepted: the schedule in which no two handler
    threads overlap.  [sys] and [sys_step] interleave the main thread's
    iterations with the handler threads of [Threads] in every order: the
    theorems over [rtc sys_step] hold for every schedule.  [main] is the
    script of lines 286-290. *)

From Stdlib Require Import ZArith String.
From stdpp Require Import base list relations.
From S2P Require Import Prelude Utf8 PyStr History Fs Page Handler Threads Server.

Module System.

Import History Fs Handler Server.
Import Fs.Tree.

Section WithFs.
Context {F : Type} `{FileSystem F}.
Context (fs : F) (base_dir : pystr).

(** One handler thread, from its first statement to its last, on the
    shared history [h]: the history after it and its client socket. *)
Definition handler_thread (h : list entry) (data : bytes) : list entry * sock :=
  let w := snd (handle_client fs base_dir data (mk_world h (fresh_sock true) [])) in
  (w_hist w, w_sock w).

(** The handler threads of [conns], one after the other. *)
Fixpoint serve_in_order (h : list entry) (conns : list bytes) : list entry * list sock :=
  match conns with
  | [] => (h, [])
  | data :: rest =>
      let (h', so) := handler_thread h data in
      let (h'', socks) := serve_in_order h' rest in (h'', so :: socks)
  end.

Lemma handler_thread_bounded (h : list entry) (data : bytes) :
  (length h <= capacity)%nat -> (length (fst (handler_thread h data)) <= capacity)%nat.
Proof.
  intros Hh. unfold handler_thread. simpl.
  by apply (handle_client_bounded fs base_dir data (mk_world h (fresh_sock true) [])).
Qed.

(** C19: whatever the clients send and whatever [accept()] answers, when
    the handler threads of the accepted connections do not overlap the
    history never holds more than 50 entries, and there is one client
    socket per accepted connection. *)
Theorem serve_in_order_bounded (host : pystr) (port : Z) (bind_ok : bool) (evs : list event) :
  let (h, socks) := serve_in_order [] (srv_threads (run host port bind_ok evs)) in
  (length h <= capacity)%nat /\ length socks = length (srv_threads (run host port bind_ok evs)).
Proof.
  generalize (srv_threads (run host port bind_ok evs)) as conns.
  assert (forall conns h, (length h <= capacity)%nat ->
            let (h', socks) := serve_in_order h conns in
            (length h' <= capacity)%nat /\ length socks = length conns) as Hgen.
  { induction conns as [|data rest IH]; intros h Hh; cbn [serve_in_order]; [done|].
    pose proof (handler_thread_bounded h data Hh) as Hb.
    destruct (handler_thread h data) as [h' so]. specialize (IH h' Hb).
    destruct (serve_in_order h' rest) as [h'' socks]. simpl in *. lia. }
  intros conns. apply Hgen. unfold capacity. simpl. lia.
Qed.

(** ** The script (lines 286-290) *)

Definition main_host : pystr := Utf8.lit "0.0.0.0".
Definition main_port : Z := 3000.

(** [server = HTTPServer(host='0.0.0.0', port=3000); server.list_reports();
    server.start()]: the result of [list_reports] is dropped, but an error
    it raises ends the script before [start]. *)
Definition main (fs : F) (base_dir : pystr) (bind_ok : bool) (evs : list event) : server :=
  match list_reports fs base_dir with
  | Ret _ => run main_host main_port bind_ok evs
  | Raise e => set_phase (Crashed e) (init main_host main_port)
  end.

End WithFs.

(** C28: the script starts the server, exactly as [start()] alone would,
    if and only if [list_reports()] returns: when the reports directory
    exists or is missing ([FileNotFoundError] of a component or of the
    directory itself).  When the reports path is a file, or runs through
    one, the script ends before creating any socket, so it does not do
    what [start()] does. *)
Theorem main_tree (t : tree) (base_dir : pystr) (bind_ok : bool) (evs : list event) :
  main t base_dir bind_ok evs = run main_host main_port bind_ok evs <->
  resolve t (reports_path base_dir) = Raise FileNotFoundError \/
  exists q, resolve t (reports_path base_dir) = Ret q /\ forall b, node_at t q <> Some (NFile b).
Proof.
  assert (forall e, set_phase (Crashed e) (init main_host main_port) <> run main_host main_port bind_ok evs)
    as Hcrash by (intros e Hr; apply (run_sock main_host main_port bind_ok evs); by rewrite <- Hr).
  unfold main, list_reports. change (fs_listdir t) with (tree_listdir t). unfold tree_listdir. py_unfold.
  destruct (resolve t (reports_path base_dir)) as [q|e] eqn:Er; simpl.
  - destruct (node_at t q) as [[b|]|] eqn:En; simpl.
    + split; [by intros ?%Hcrash|]. intros [?|(q' & [= <-] & Hq)]; [done|by destruct (Hq b)].
    + split; [|done]. intros _. right. exists q. split; [done|]. by rewrite En.
    + split; [|done]. intros _. right. exists q. split; [done|]. by rewrite En.
  - destruct (decide (e = FileNotFoundError)) as [->|Hne]; [split; [by left|done]|].
    split; [destruct e; try done; by intros ?%Hcrash|]. by intros [[= ->]|(q & ? & _)].
Qed.

(** C29: when the reports path names a file, [list_reports()] raises
    [NotADirectoryError] (it only catches [FileNotFoundError]) and the
    script ends before [start]: no socket, no thread. *)
Theorem main_reports_file (t : tree) (base_dir : pystr) (bind_ok : bool) (evs : list event)
    (q : list pystr) (b : bytes) :
  resolve t (reports_path base_dir) = Ret q -> node_at t q = Some (NFile b) ->
  main t base_dir bind_ok evs =
    mk_server main_host main_port None [] (Crashed NotADirectoryError).
Proof.
  intros Hr Hq. unfold main, list_reports. change (fs_listdir t) with (tree_listdir t).
  unfold tree_listdir. py_unfold. rewrite Hr. simpl. by rewrite Hq.
Qed.

(** ** The whole server: the main thread and the handler threads *)

Import Threads.

(** The main thread's state, the answers [accept()] has still to give, and
    the handler threads with the shared history. *)
Record sys := mk_sys { sys_srv : server; sys_evs : list event; sys_conf : tstate }.

Section Whole.
Context {F : Type} `{FileSystem F}.
Context (fs : F) (base_dir : pystr).

(** One iteration of the main thread on the next answer of [accept()]; the
    thread it starts (lines 271-275) joins the others, on the same
    history. *)
Definition sys_main (x : sys) : option sys :=
  match sys_evs x with
  | [] => None
  | ev :: evs =>
      let s' := step (sys_srv x) ev in
      let started := drop (length (srv_threads (sys_srv x))) (srv_threads s') in
      Some (mk_sys s' evs (mk_tstate (t_hist (sys_conf x))
                             (t_threads (sys_conf x) ++ map (spawn_thread fs base_dir) started)))
  end.

(** The scheduler picks the main thread ([None]) or handler thread [i]. *)
Definition sys_step_fn (x : sys) (who : option nat) : option sys :=
  match who with
  | None => sys_main x
  | Some i => c ← tstep_fn (sys_conf x) i; Some (mk_sys (sys_srv x) (sys_evs x) c)
  end.

Definition sys_step (x y : sys) : Prop := exists who, sys_step_fn x who = Some y.

Fixpoint run_sys (x : sys) (sched : list (option nat)) : option sys :=
  match sched with
  | [] => Some x
  | who :: rest => y ← sys_step_fn x who; run_sys y rest
  end.

(** [HTTPServer(host, port).start()] up to its loop: the history of
    [__init__] is empty and no handler runs yet. *)
Definition sys_init (host : pystr) (port : Z) (bind_ok : bool) (evs : list event) : sys :=
  mk_sys (start bind_ok (init host port)) evs (mk_tstate [] []).

(** An iteration of the main thread starts at most one handler thread and
    forgets none. *)
Lemma step_threads (s : server) (ev : event) :
  exists started, srv_threads (step s ev) = srv_threads s ++ started /\ (length started <= 1)%nat.
Proof.
  destruct (decide (srv_phase s = Listening)) as [Hp|Hp].
  - destruct ev as [d| |].
    + exists [d]. rewrite step_connect by done. simpl. split; [done|lia].
    + exists []. destruct s as [h p o ts ph]; simpl in Hp; subst; cbn.
      destruct o; simpl; rewrite app_nil_r; split; [done|lia|done|lia].
    + exists []. destruct s as [h p o ts ph]; simpl in Hp; subst; cbn.
      destruct o; simpl; rewrite app_nil_r; split; [done|lia|done|lia].
  - exists []. rewrite step_ended, app_nil_r by done. split; [done|simpl; lia].
Qed.

Lemma sys_main_spec (x y : sys) :
  sys_main x = Some y ->
  exists ev started, sys_evs x = ev :: sys_evs y /\ sys_srv y = step (sys_srv x) ev /\
    srv_threads (sys_srv y) = srv_threads (sys_srv x) ++ started /\ (length started <= 1)%nat /\
    sys_conf y = mk_tstate (t_hist (sys_conf x))
                   (t_threads (sys_conf x) ++ map (spawn_thread fs base_dir) started).
Proof.
  unfold sys_main. destruct (sys_evs x) as [|ev evs]; [done|]. intros [= <-].
  destruct (step_threads (sys_srv x) ev) as (started & Ht & Hl).
  exists ev, started. simpl. rewrite Ht, drop_app_length. auto.
Qed.

(** Every step keeps the handler threads [tsafe closed_ok]. *)
Lemma sys_step_fn_safe (x y : sys) who :
  Forall (tsafe closed_ok) (t_threads (sys_conf x)) -> sys_step_fn x who = Some y ->
  Forall (tsafe closed_ok) (t_threads (sys_conf y)).
Proof.
  intros Hx. destruct who as [i|]; simpl.
  - destruct (tstep_fn (sys_conf x) i) as [c|] eqn:E; simpl; [|done].
    intros [= <-]. simpl. by apply (tstep_fn_tsafe _ (sys_conf x) i).
  - intros (ev & started & _ & _ & _ & _ & ->)%sys_main_spec. simpl.
    apply Forall_app. split; [done|]. apply Forall_forall.
    intros p Hp. apply list_elem_of_In, in_map_iff in Hp as [data [<- _]].
    apply spawn_thread_safe.
Qed.

(** The invariant of the whole server, for [L] answers of [accept()] in
    all: the budgets of the handler threads are kept, the history and the
    entries still to come are within the threads started, and the
    threads started and the answers still to come within [L]. *)
Definition sys_within (L : nat) (bs : list (nat * nat)) (x : sys) : Prop :=
  budgets L bs (sys_conf x) /\
  (length (t_hist (sys_conf x)) + sum_list_with fst bs <= length (srv_threads (sys_srv x)))%nat /\
  (length (srv_threads (sys_srv x)) + length (sys_evs x) <= L)%nat.

(** Each step keeps the invariant and spends one unit of
    [(5 + L) * answers + access budgets]. *)
Lemma sys_step_fn_within L (x y : sys) who bs :
  sys_within L bs x -> sys_step_fn x who = Some y ->
  exists bs', sys_within L bs' y /\
    (S ((5 + L) * length (sys_evs y) + sum_list_with snd bs') <=
     (5 + L) * length (sys_evs x) + sum_list_with snd bs)%nat.
Proof.
  intros (Hbs & Hh & HL). destruct who as [i|]; simpl.
  - destruct (tstep_fn (sys_conf x) i) as [c|] eqn:E; simpl; [|done]. intros [= <-].
    destruct (tstep_fn_budgets L bs _ i c Hbs ltac:(lia) E) as (bs' & Hb' & Hle & Hs).
    exists bs'. unfold sys_within. simpl. repeat split; auto with lia.
  - intros (ev & started & Hev & _ & Ht & Hl & Hc)%sys_main_spec.
    exists (bs ++ replicate (length started) (1, 4 + L)%nat). unfold sys_within.
    rewrite Hc, Ht. rewrite Hev in HL |- *. simpl in HL |- *.
    rewrite !sum_list_with_app, !length_app. repeat split.
    + apply Forall2_app; [done|]. clear. induction started; simpl; constructor; auto.
      apply spawn_thread_budget.
    + destruct started as [|d [|d' rest]]; simpl in *; lia.
    + lia.
    + destruct started as [|d [|d' rest]]; simpl in *; nia.
Qed.

Lemma tstep_fn_length c i c' :
  tstep_fn c i = Some c' -> length (t_threads c') = length (t_threads c).
Proof.
  unfold tstep_fn. destruct (t_threads c !! i) as [[]|]; try done;
    try destruct (t_hist c); intros [= <-]; simpl; apply length_insert.
Qed.

(** The handler threads never change what the main thread does: along any
    interleaving, the main thread has run [step] on a prefix of the
    answers of [accept()], and there is one handler thread per connection
    it started. *)
Lemma sys_main_prefix (x0 x : sys) :
  rtc sys_step x0 x ->
  exists pre, sys_evs x0 = pre ++ sys_evs x /\ sys_srv x = fold_left step pre (sys_srv x0) /\
    (length (t_threads (sys_conf x)) + length (srv_threads (sys_srv x0)) =
     length (t_threads (sys_conf x0)) + length (srv_threads (sys_srv x)))%nat.
Proof.
  induction 1 as [x|x y z [[i|] Hs] _ (pre & Hev & Hsrv & Hlen)].
  - exists []. auto.
  - simpl in Hs. destruct (tstep_fn (sys_conf x) i) as [c|] eqn:E; simpl in Hs; [|done].
    injection Hs as <-. exists pre. simpl in *. rewrite (tstep_fn_length _ _ _ E) in Hlen. auto.
  - destruct (sys_main_spec x y Hs) as (ev & started & Hev' & Hsrv' & Ht & _ & Hc).
    exists (ev :: pre). rewrite Hc, Ht in Hlen. simpl in Hlen.
    rewrite !length_app, length_map in Hlen. rewrite Hev', Hev.
    split; [done|]. split; [by rewrite Hsrv, Hsrv'|lia].
Qed.

Lemma sys_rtc_safe (x y : sys) :
  rtc sys_step x y -> Forall (tsafe closed_ok) (t_threads (sys_conf x)) ->
  Forall (tsafe closed_ok) (t_threads (sys_conf y)).
Proof. induction 1 as [|x y z [who Hs] _ IH]; eauto using sys_step_fn_safe. Qed.

Lemma sys_rtc_within L (x y : sys) bs :
  rtc sys_step x y -> sys_within L bs x -> exists bs', sys_within L bs' y.
Proof.
  intros Hr. revert bs. induction Hr as [x|x y z [who Hs] _ IH]; intros bs Hbs; [by exists bs|].
  destruct (sys_step_fn_within L x y who bs Hbs Hs) as (bs1 & H1 & _). by apply (IH bs1).
Qed.

Lemma run_sys_within L (x y : sys) sched bs :
  sys_within L bs x -> run_sys x sched = Some y ->
  (length sched <= (5 + L) * length (sys_evs x) + sum_list_with snd bs)%nat.
Proof.
  revert x bs. induction sched as [|who sched IH]; intros x bs Hbs; simpl; [lia|].
  destruct (sys_step_fn x who) as [x1|] eqn:E; simpl; [|done]. intros Hrun.
  destruct (sys_step_fn_within L x x1 who bs Hbs E) as (bs1 & H1 & Hlt).
  specialize (IH x1 bs1 H1 Hrun). lia.
Qed.

(** Either the main thread has taken all its answers and every handler has
    returned, or some thread can step. *)
Lemma sys_progress (x : sys) :
  (sys_evs x = [] /\ Forall (fun p => finished p = true) (t_threads (sys_conf x))) \/
  exists who y, sys_step_fn x who = Some y.
Proof.
  destruct (sys_main x) as [y|] eqn:Em; [right; by exists None, y|].
  assert (sys_evs x = []) as Ev by (unfold sys_main in Em; by destruct (sys_evs x)).
  destruct (tprogress (sys_conf x)) as [Hall|(i & c & E)]; [by left|right].
  exists (Some i), (mk_sys (sys_srv x) (sys_evs x) c). simpl. by rewrite E.
Qed.

(** With their budgets, the main thread and the handler threads can all be
    run to the end. *)
Lemma sys_budgets_complete L n (x : sys) bs :
  ((5 + L) * length (sys_evs x) + sum_list_with snd bs <= n)%nat -> sys_within L bs x ->
  exists sched y, run_sys x sched = Some y /\ sys_evs y = [] /\
    Forall (fun p => finished p = true) (t_threads (sys_conf y)).
Proof.
  revert x bs. induction n as [|n IH]; intros x bs Hn Hbs;
    (destruct (sys_progress x) as [[Ev Hall]|(who & y & E)]; [by exists [], x|]);
    destruct (sys_step_fn_within L x y who bs Hbs E) as (bs1 & H1 & Hlt); [lia|].
  destruct (IH y bs1 ltac:(lia) H1) as (sched & z & Hrun & Hz).
  exists (who :: sched), z. simpl. by rewrite E.
Qed.

Lemma run_sys_rtc (x : sys) sched (y : sys) : run_sys x sched = Some y -> rtc sys_step x y.
Proof.
  revert x. induction sched as [|who sched IH]; intros x; simpl; [by intros [= ->]|].
  destruct (sys_step_fn x who) as [x1|] eqn:E; simpl; [|done]. intros Hrun.
  eapply rtc_l; [by exists who|]. by apply IH.
Qed.

(** The entries appended along a schedule of the whole server, in order. *)
Fixpoint sys_log (x : sys) (sched : list (option nat)) : list entry :=
  match sched with
  | [] => []
  | who :: rest =>
      match sys_step_fn x who with
      | Some y => match who with Some i => appended_by (sys_conf x) i | None => [] end ++ sys_log y rest
      | None => []
      end
  end.

Lemma run_sys_suffix (x y : sys) sched log :
  run_sys x sched = Some y -> t_hist (sys_conf x) `suffix_of` log ->
  t_hist (sys_conf y) `suffix_of` (log ++ sys_log x sched).
Proof.
  revert x log. induction sched as [|who sched IH]; intros x log; simpl.
  - intros [= <-]. by rewrite app_nil_r.
  - destruct (sys_step_fn x who) as [x1|] eqn:E; simpl; [|done]. intros Hrun Hx.
    rewrite app_assoc. eapply IH; [done|]. destruct who as [i|].
    + simpl in E. destruct (tstep_fn (sys_conf x) i) as [c|] eqn:Ec; simpl in E; [|done].
      injection E as <-. by eapply tstep_fn_suffix.
    + destruct (sys_main_spec x x1 E) as (ev & started & _ & _ & _ & _ & Hc). rewrite Hc. simpl. by rewrite app_nil_r.
Qed.




Lemma start_threads (bind_ok : bool) (host : pystr) (port : Z) :
  srv_threads (start bind_ok (init host port)) = [].
Proof. by destruct bind_ok. Qed.

Lemma sys_init_within host port bind_ok evs : sys_within (length evs) [] (sys_init host port bind_ok evs).
Proof. unfold sys_within. simpl. rewrite start_threads. repeat split; [constructor|simpl; lia..]. Qed.

(** the handler threads do not disturb the main thread: in every
    interleaving, once [accept()] has given all its answers the main
    thread is exactly [Server.run] on them, and one handler thread runs
    for each connection it started. *)
Theorem sys_main_run host port bind_ok evs (x : sys) :
  rtc sys_step (sys_init host port bind_ok evs) x -> sys_evs x = [] ->
  sys_srv x = run host port bind_ok evs /\ length (t_threads (sys_conf x)) = length (srv_threads (sys_srv x)).
Proof.
  intros Hr Hx. destruct (sys_main_prefix _ _ Hr) as (pre & Hev & Hsrv & Hlen).
  rewrite Hx, app_nil_r in Hev. simpl in *. rewrite start_threads in Hlen. simpl in Hlen.
  split; [by rewrite Hsrv, <- Hev|lia].
Qed.

(** C21: the race breaks the bound of the history but not its order: in
    every schedule of the whole server, the history is a suffix of the
    exchanges recorded so far, in the order they were appended; entries
    leave only by [pop(0)] of the oldest.  The abstract history of the
    spec, the last exchanges in order, holds with a length that may
    exceed 50. *)
Theorem sys_history_fifo host port bind_ok evs sched (y : sys) :
  run_sys (sys_init host port bind_ok evs) sched = Some y ->
  t_hist (sys_conf y) `suffix_of` sys_log (sys_init host port bind_ok evs) sched.
Proof. intros Hrun. apply (run_sys_suffix _ _ _ [] Hrun). by exists []. Qed.


(** C14: in every interleaving of the main thread and the handler threads,
    every handler that has finished returned normally with its client
    socket closed by one call. *)
Theorem sys_closes_once host port bind_ok evs (x : sys) i r l :
  rtc sys_step (sys_init host port bind_ok evs) x ->
  t_threads (sys_conf x) !! i = Some (TRet r l) -> closed_ok r l.
Proof.
  intros Hr Hi. pose proof (sys_rtc_safe _ _ Hr (Forall_nil_2 _)) as Hs.
  pose proof (proj1 (Forall_lookup _ _) Hs i _ Hi) as Hp. by inversion Hp.
Qed.

(** C18: in every interleaving, the shared history holds at most one entry
    per connection the main thread has accepted. *)
Theorem sys_history_bound host port bind_ok evs (x : sys) :
  rtc sys_step (sys_init host port bind_ok evs) x ->
  (length (t_hist (sys_conf x)) <= length (srv_threads (sys_srv x)))%nat.
Proof.
  intros Hr. destruct (sys_rtc_within _ _ _ [] Hr (sys_init_within host port bind_ok evs))
    as (bs & _ & Hle & _). lia.
Qed.

(** C22: every schedule of the whole server on [n] answers of [accept()]
    has at most [(5 + n) n] steps: one per answer and, per handler thread,
    the length and at most [n] items of the history for the page and the
    three accesses of [add_to_request_history]. *)
Theorem sys_terminate host port bind_ok evs sched (y : sys) :
  run_sys (sys_init host port bind_ok evs) sched = Some y ->
  (length sched <= (5 + length evs) * length evs)%nat.
Proof.
  intros Hrun. pose proof (run_sys_within _ _ _ _ [] (sys_init_within host port bind_ok evs) Hrun) as Hle.
  simpl in Hle. lia.
Qed.

(** the server never deadlocks: from every state it can reach, some
    schedule lets the main thread take all its answers and every handler
    thread finish. *)
Theorem sys_complete host port bind_ok evs (x : sys) :
  rtc sys_step (sys_init host port bind_ok evs) x ->
  exists sched y, run_sys x sched = Some y /\ sys_evs y = [] /\
    Forall (fun p => finished p = true) (t_threads (sys_conf y)).
Proof.
  intros Hr. destruct (sys_rtc_within _ _ _ [] Hr (sys_init_within host port bind_ok evs)) as (bs & Hbs).
  by apply (sys_budgets_complete (length evs)
              ((5 + length evs) * length (sys_evs x) + sum_list_with snd bs) x bs).
Qed.

End Whole.

(** ** Examples *)

Lemma main_tree_witness :
  main no_static demo_base true [Connect []; Interrupt] =
    run main_host main_port true [Connect []; Interrupt].
Proof. apply (main_tree no_static demo_base true _). left. vm_compute. reflexivity. Defined.

Lemma main_reports_file_witness :
  main demo_reports_file demo_base true [] =
    mk_server main_host main_port None [] (Crashed NotADirectoryError).
Proof.
  eapply main_reports_file; vm_compute; reflexivity.
Defined.

(** 51 clients send [POST / HTTP/1.1], then Ctrl-C.  The first 49
    handlers run alone, each right after its [accept()]; the main thread
    then accepts the last two, whose handlers both test the length of the
    history (49) before either appends. *)
Definition race_evs : list event := replicate 51 (Connect post_req) ++ [Interrupt].

Definition race_sched : list (option nat) :=
  (mjoin (map (fun i => [None; Some i; Some i]) (seq 0 49)) ++
   [None; None; Some 49; Some 50; Some 49; Some 50; None])%nat.

Definition race_init : sys := sys_init main_host main_port true race_evs.

Definition race_end : sys :=
  match run_sys demo demo_base race_init race_sched with Some y => y | None => race_init end.

(** C15: the server as written, from its empty history, ends with 51
    entries after serving 51 POST requests: the bound of 50 of lines
    137-139 is lost to one interleaving of two handler threads.  All
    threads have finished and the main thread has stopped on Ctrl-C. *)
Theorem sys_overflow :
  exists y, rtc (sys_step demo demo_base) race_init y /\ length (t_hist (sys_conf y)) = 51%nat /\
    srv_phase (sys_srv y) = Stopped /\ Forall (fun p => finished p = true) (t_threads (sys_conf y)).
Proof.
  exists race_end. split; [|split; [vm_compute; reflexivity|split; [vm_compute; reflexivity|]]].
  - apply (run_sys_rtc demo demo_base _ race_sched). vm_compute. reflexivity.
  - decide_closed.
Qed.

(** The first client of [race_evs]: the 405 response sent, the socket closed once. *)
Definition race_local0 : local := mk_local (mk_sock [encoded resp_405] true 1 true) [].

Lemma sys_main_run_witness :
  sys_srv race_end = run main_host main_port true race_evs /\
  length (t_threads (sys_conf race_end)) = length (srv_threads (sys_srv race_end)).
Proof.
  apply (sys_main_run demo demo_base main_host main_port true race_evs race_end);
    [apply (run_sys_rtc demo demo_base _ race_sched)|]; vm_compute; reflexivity.
Defined.

Lemma sys_closes_once_witness : closed_ok (Ret tt) race_local0.
Proof.
  apply (sys_closes_once demo demo_base main_host main_port true race_evs race_end 0%nat);
    [apply (run_sys_rtc demo demo_base _ race_sched)|]; vm_compute; reflexivity.
Defined.

Lemma sys_history_bound_witness :
  (length (t_hist (sys_conf race_end)) <= length (srv_threads (sys_srv race_end)))%nat.
Proof.
  apply (sys_history_bound demo demo_base main_host main_port true race_evs race_end).
  apply (run_sys_rtc demo demo_base _ race_sched). vm_compute. reflexivity.
Defined.

Lemma sys_history_fifo_witness :
  t_hist (sys_conf race_end) `suffix_of` sys_log demo demo_base race_init race_sched.
Proof.
  apply (sys_history_fifo demo demo_base main_host main_port true race_evs race_sched race_end).
  vm_compute. reflexivity.
Defined.


Lemma sys_terminate_witness : (length race_sched <= (5 + length race_evs) * length race_evs)%nat.
Proof.
  apply (sys_terminate demo demo_base main_host main_port true race_evs race_sched race_end).
  vm_compute. reflexivity.
Defined.

Lemma sys_complete_witness :
  exists sched y, run_sys demo demo_base race_end sched = Some y /\ sys_evs y = [] /\
    Forall (fun p => finished p = true) (t_threads (sys_conf y)).
Proof.
  apply (sys_complete demo demo_base main_host main_port true race_evs race_end).
  apply (run_sys_rtc demo demo_base _ race_sched). vm_compute. reflexivity.
Defined.

End System.
