(* ===== verification/App.v ===== *)
(** * The Flask front end (src/app.py)

    [index()] lists the names of [static/reports] that end in ".pdf", in
    the order of [os.listdir], and returns [render_template] of
    [index.html] on them; the view is registered for the rule "/" by
    [@app.route].  The call is kept as a value ([render_call]): the
    template is not in the repository and Flask's rendering, routing and
    [app.run] are library code, not modelled.
    [REPORTS_FOLDER] is [os.path.join(app.static_folder, 'reports')], the
    same directory as [Fs.reports_path] of the application's root.  The
    file system is reached through [Fs.FileSystem]. *)

From Stdlib Require Import ZArith String.
From stdpp Require Import base list sorting.
From S2P Require Import Prelude Utf8 PyStr Fs.

Module App.

Import PyStr Fs.

Section WithFs.
Context {F : Type} `{FileSystem F}.

(** [app.static_folder] of [Flask(__name__)] (line 4): [static] under the
    application's root. *)
Definition static_folder (root : pystr) : pystr := path_join root static_dir.

(** [REPORTS_FOLDER] (line 6). *)
Definition reports_folder (root : pystr) : pystr := path_join (static_folder root) reports_dir.

(** The list comprehension of lines 11-13; an error of [os.listdir]
    propagates (Flask answers 500). *)
Definition index_reports (fs : F) (root : pystr) : res (list pystr) :=
  match fs_listdir fs (reports_folder root) with
  | Ret names => Ret (filter (fun file => endswith file pdf_ext = true) names)
  | Raise e => Raise e
  end.

(** [render_template(template, reports=reports)], as the call the view returns. *)
Record render_call := mk_render_call { rc_template : pystr; rc_reports : list pystr }.

Definition index_template : pystr := Utf8.lit "index.html".

(** The view [index()] (lines 10-14). *)
Definition index (fs : F) (root : pystr) : res render_call :=
  reports ← index_reports fs root;
  mret (mk_render_call index_template reports).

(** [@app.route("/")] (line 9): the URL rules of the application and
    their views. *)
Definition url_map : list (pystr * (F -> pystr -> res render_call)) := [(Utf8.lit "/", index)].

(** The view registered for [path], if any. *)
Definition view_for (path : pystr) : option (F -> pystr -> res render_call) :=
  snd <$> head (filter (fun r => r.1 = path) url_map).

(** The reports of a listing: the names ending in ".pdf", in its order. *)
Definition pdf_names (names : list pystr) : list pystr :=
  filter (fun file => endswith file pdf_ext = true) names.

Lemma index_reports_listdir (fs : F) (root : pystr) :
  index_reports fs root = (pdf_names <$> fs_listdir fs (reports_path root)).
Proof.
  unfold index_reports, reports_folder, static_folder. fold (reports_path root).
  by destruct (fs_listdir fs (reports_path root)).
Qed.

(** C34: the view registered for "/" renders [index.html] with the reports
    in the order [os.listdir] gives them, where [HTTPServer.list_reports]
    sorts them; when the folder is missing, [index()] raises
    [FileNotFoundError] where [list_reports] returns no report; any other
    error of [os.listdir] escapes both. *)
Theorem index_reports_list_reports (fs : F) (root : pystr) :
  view_for (Utf8.lit "/") = Some index /\
  (forall names, fs_listdir fs (reports_path root) = Ret names ->
     index fs root = Ret (mk_render_call index_template (pdf_names names)) /\
     list_reports fs root = Ret (pdf_names (sort names))) /\
  (fs_listdir fs (reports_path root) = Raise FileNotFoundError ->
     index fs root = Raise FileNotFoundError /\ list_reports fs root = Ret []) /\
  (forall e, fs_listdir fs (reports_path root) = Raise e -> e <> FileNotFoundError ->
     index fs root = Raise e /\ list_reports fs root = Raise e).
Proof.
  split; [reflexivity|]. unfold index, list_reports. rewrite index_reports_listdir.
  split; [|split].
  - intros names E. by rewrite E.
  - intros E. by rewrite E.
  - intros e E Hne. rewrite E. by destruct e.
Qed.

End WithFs.


(** ** Example on the demo tree *)

Import Fs.Tree.

Lemma index_reports_list_reports_witness :
  index Tree.demo Tree.demo_base =
    Ret (mk_render_call index_template (map Utf8.lit ["empty.pdf"; "a.pdf"; "b.pdf"]%string)) /\
  list_reports Tree.demo Tree.demo_base =
    Ret (map Utf8.lit ["a.pdf"; "b.pdf"; "empty.pdf"]%string).
Proof.
  apply (proj1 (proj2 (index_reports_list_reports Tree.demo Tree.demo_base))
           (map Utf8.lit ["empty.pdf"; "a.pdf"; "notes.txt"; "b.pdf"]%string)).
  vm_compute. reflexivity.
Defined.

End App.
